(** * efx-ai-skills: the link reconciliation core, embedded and verified

    A shallow embedding of the Go sources that decide how skills of the
    central store [~/.agents/skills] are projected into provider
    directories:

    - [internal/tui] manage view: [loadSkillsForProvider], [extractGroup],
      [buildDisplayList], [applySkillChanges];
    - package [skill]: [Store.ListInstalled], [Store.LinkToProvider],
      [Store.ReadLockFile], [Store.WriteLockFile], [Store.AddToLock];
    - package [provider]: [DetectAll], [Get].

    Go strings are byte strings compared bytewise: they are [string] with
    [String.compare].  Go maps are [gmap]s.  The filesystem is an explicit
    state, threaded through every function that touches it. *)

From Stdlib Require Import Ascii String NArith List Sorting.Sorted.
From stdpp Require Import base decidable option list sorting gmap strings fin_maps.

Local Open Scope string_scope.
Local Open Scope list_scope.

(** ** Go strings: bytewise order *)

Definition string_le (a b : string) : Prop := String.leb a b = true.
Definition string_lt (a b : string) : Prop := String.ltb a b = true.

#[global] Instance string_le_dec : RelDecision string_le.
Proof. intros a b. unfold string_le. apply _. Defined.

#[global] Instance string_lt_dec : RelDecision string_lt.
Proof. intros a b. unfold string_lt. apply _. Defined.

(** ** [strings.Split] with a one-byte separator *)

Fixpoint Split (s : string) (sep : ascii) : list string :=
  match s with
  | EmptyString => [EmptyString]
  | String c s' =>
      if Ascii.eqb c sep then EmptyString :: Split s' sep
      else match Split s' sep with
           | h :: t => String c h :: t
           | [] => [String c EmptyString]
           end
  end.

(** The byte [c] occurs in [s]: [strings.Contains] for a one-byte needle. *)
Fixpoint Contains (s : string) (c : ascii) : bool :=
  match s with
  | EmptyString => false
  | String a s' => Ascii.eqb a c || Contains s' c
  end.

(** The bytes of [s] before the first [sep], all of [s] when there is none. *)
Fixpoint before_sep (s : string) (sep : ascii) : string :=
  match s with
  | EmptyString => EmptyString
  | String c s' => if Ascii.eqb c sep then EmptyString else String c (before_sep s' sep)
  end.

(** ** Grouping: [extractGroup] (manage view) *)

Definition other_group : string := "_other".

Definition extractGroup (name : string) : string :=
  let parts := Split name "-"%char in
  if (2 <=? length parts)%nat then nth 0 parts EmptyString
  else other_group.

(** ** [filepath.Join] and [filepath.Dir]

    Empty elements are dropped and the rest joined by the separator, as
    [filepath.Join] does; its final [Clean] is the identity on the paths
    built here from a clean [HOME]. *)

Definition filepath_Join (elems : list string) : string :=
  String.concat "/" (filter (fun e => e <> EmptyString) elems).

(** The bytes before the last separator, [None] when there is none. *)
Fixpoint before_last_sep (s : string) : option string :=
  match s with
  | EmptyString => None
  | String c s' =>
      match before_last_sep s' with
      | Some d => Some (String c d)
      | None => if Ascii.eqb c "/"%char then Some EmptyString else None
      end
  end.

Definition filepath_Dir (path : string) : string :=
  match before_last_sep path with
  | None => "."
  | Some EmptyString => "/"
  | Some d => d
  end.

(** A path element: a name that [filepath.Join] puts directly under the
    directory it is joined to, and that the system calls take.  The
    names [os.ReadDir] returns are path elements. *)
Definition isElement (name : string) : bool :=
  negb (String.eqb name "") && negb (String.eqb name ".") &&
  negb (String.eqb name "..") && negb (Contains name "/"%char) &&
  negb (Contains name "000"%char).

(** [q] spells the beginning of [path]: every directory on the way to
    [path], and [path] itself, does. *)
Definition onTheWay (q path : string) : bool := String.prefix q path.

(** ** Go [int]: 64-bit two's complement *)

Definition wrap64 (z : Z) : Z := ((z + 2 ^ 63) mod 2 ^ 64 - 2 ^ 63)%Z.

(** [n++] *)
Definition incr (n : Z) : Z := wrap64 (n + 1).

(** ** Errors *)

Inductive errno := ENOENT | EACCES | ENOTDIR | EISDIR | EEXIST | ENOTEMPTY.

(** A Go [error]: an [*os.PathError] carrying an errno, a decoding
    error of [encoding/json], or the error of [filepath.Rel]. *)
Inductive error := PathError (e : errno) | SyntaxError | RelError.

Inductive result (A : Type) := Ok (a : A) | Err (e : error).
Arguments Ok {A} a.
Arguments Err {A} e.

#[global] Instance errno_eq_dec : EqDecision errno.
Proof. solve_decision. Defined.
#[global] Instance error_eq_dec : EqDecision error.
Proof. solve_decision. Defined.

(** ** The lock document (package [skill]) *)

Module LockEntry.
Record t := mk {
  Source : string;
  SourceType : string;
  SourceURL : string;
  SkillPath : string;
  SkillFolderHash : string;
  InstalledAt : string;
  UpdatedAt : string
}.
End LockEntry.

Module LockFile.
(** [Skills] is a Go map: [None] is the nil map, which reads as empty
    and panics on assignment. *)
Record t := mk {
  Version : Z;
  Skills : option (gmap string LockEntry.t)
}.
End LockFile.

(** ** The filesystem

    The state records what is at each path the program names.  A directory
    has permission bits and entries; an entry is a regular file, a
    subdirectory or a symbolic link.  A link's target is kept by what it
    resolves to: the central store's directory of a skill, or elsewhere.
    A file's bytes are kept by what [json.Unmarshal] makes of them: a lock
    document, or a decoding error.  [frozen] is the set of paths at which
    nothing can be created: a directory above them is missing its write
    or its search permission.  [umask] is the process's file mode
    creation mask.  Permissions are checked as for the unprivileged owner
    of the files. *)

Inductive LinkTarget := ToStore (name : string) | Elsewhere (dest : string).

Inductive Node :=
  | RegFile
  | SubDir (children : list string)
  | Symlink (target : LinkTarget).

Inductive Content := Malformed | Encoded (doc : LockFile.t).

Inductive PathState :=
  | PDir (mode : N) (entries : gmap string Node)
  | PFile (mode : N) (content : Content).

Record World := mkWorld {
  HOME : string;
  umask : N;
  fs : gmap string PathState;
  frozen : gset string
}.

Definition set_fs (w : World) (fs' : gmap string PathState) : World :=
  {| HOME := HOME w; umask := umask w; fs := fs'; frozen := frozen w |}.

#[global] Instance LinkTarget_eq_dec : EqDecision LinkTarget.
Proof. solve_decision. Defined.
#[global] Instance Node_eq_dec : EqDecision Node.
Proof. solve_decision. Defined.

(** Octal permission literals. *)
Definition octal (u g o : N) : N := (u * 64 + g * 8 + o)%N.
Definition mode_0755 : N := octal 7 5 5.
Definition mode_0644 : N := octal 6 4 4.

(** Owner permission bits: read 0400, write 0200, search 0100. *)
Definition readable (mode : N) : bool := N.testbit mode 8.
Definition writable (mode : N) : bool := N.testbit mode 7.
Definition searchable (mode : N) : bool := N.testbit mode 6.

(** ** Package [os] *)

Module os.

(** An [fs.DirEntry]: the entry's name and what it is. *)
Abbreviation DirEntry := (string * Node)%type.
Definition Name (e : DirEntry) : string := fst e.
Definition IsDir (e : DirEntry) : bool :=
  match snd e with SubDir _ => true | _ => false end.

Definition entry_le (a b : DirEntry) : Prop := string_le (Name a) (Name b).
#[global] Instance entry_le_dec : RelDecision entry_le.
Proof. intros a b. unfold entry_le. apply _. Defined.

(** [os.Stat]: whether the path is a directory. *)
Definition Stat (path : string) (w : World) : result bool :=
  match fs w !! path with
  | None => Err (PathError ENOENT)
  | Some (PDir _ _) => Ok true
  | Some (PFile _ _) => Ok false
  end.

(** [os.ReadDir]: all entries, sorted by file name. *)
Definition ReadDir (path : string) (w : World) : result (list DirEntry) :=
  match fs w !! path with
  | None => Err (PathError ENOENT)
  | Some (PFile _ _) => Err (PathError ENOTDIR)
  | Some (PDir mode entries) =>
      if readable mode then Ok (merge_sort entry_le (map_to_list entries))
      else Err (PathError EACCES)
  end.

(** [os.MkdirAll]: nothing to do on a directory.  Of what it creates the
    state records the named directory; the directories above it, which
    it creates where they are missing, are paths on the way to it. *)
Definition MkdirAll (path : string) (perm : N) (w : World) : option error * World :=
  match fs w !! path with
  | Some (PDir _ _) => (None, w)
  | Some (PFile _ _) => (Some (PathError ENOTDIR), w)
  | None =>
      if decide (path ∈ frozen w) then (Some (PathError EACCES), w)
      else (None, set_fs w (<[path := PDir (N.ldiff perm (umask w)) ∅]> (fs w)))
  end.

(** [os.Symlink target (dir/name)]: never replaces an entry. *)
Definition Symlink (target : LinkTarget) (dir name : string) (w : World)
    : option error * World :=
  match fs w !! dir with
  | None => (Some (PathError ENOENT), w)
  | Some (PFile _ _) => (Some (PathError ENOTDIR), w)
  | Some (PDir mode entries) =>
      if negb (searchable mode) then (Some (PathError EACCES), w)
      else match entries !! name with
           | Some _ => (Some (PathError EEXIST), w)
           | None =>
               if negb (writable mode) then (Some (PathError EACCES), w)
               else (None, set_fs w (<[dir := PDir mode (<[name := Symlink target]> entries)]> (fs w)))
           end
  end.

(** [os.Remove (dir/name)]: unlink, else rmdir; a directory goes only
    when it is empty. *)
Definition Remove (dir name : string) (w : World) : option error * World :=
  match fs w !! dir with
  | None => (Some (PathError ENOENT), w)
  | Some (PFile _ _) => (Some (PathError ENOTDIR), w)
  | Some (PDir mode entries) =>
      if negb (searchable mode) then (Some (PathError EACCES), w)
      else match entries !! name with
           | None => (Some (PathError ENOENT), w)
           | Some node =>
               if negb (writable mode) then (Some (PathError EACCES), w)
               else match node with
                    | SubDir (_ :: _) => (Some (PathError ENOTEMPTY), w)
                    | _ => (None, set_fs w (<[dir := PDir mode (delete name entries)]> (fs w)))
                    end
           end
  end.

(** [os.ReadFile] *)
Definition ReadFile (path : string) (w : World) : result Content :=
  match fs w !! path with
  | None => Err (PathError ENOENT)
  | Some (PDir _ _) => Err (PathError EISDIR)
  | Some (PFile mode c) =>
      if readable mode then Ok c else Err (PathError EACCES)
  end.

(** [os.WriteFile]: create or truncate, then write. *)
Definition WriteFile (path : string) (data : Content) (perm : N) (w : World)
    : option error * World :=
  match fs w !! path with
  | None =>
      if decide (path ∈ frozen w) then (Some (PathError EACCES), w)
      else (None, set_fs w (<[path := PFile (N.ldiff perm (umask w)) data]> (fs w)))
  | Some (PDir _ _) => (Some (PathError EISDIR), w)
  | Some (PFile mode _) =>
      if writable mode then (None, set_fs w (<[path := PFile mode data]> (fs w)))
      else (Some (PathError EACCES), w)
  end.

(** [os.IsNotExist] *)
Definition IsNotExist (err : error) : bool :=
  match err with PathError ENOENT => true | _ => false end.

End os.

(** ** Package [provider] *)

Module provider.

Module Provider.
Record t := mk {
  Name : string;
  SkillsPath : string;
  Configured : bool;
  SkillCount : Z
}.
End Provider.

Definition KnownProviders : list (string * (string -> string)) :=
  [ ("claude", fun h => filepath_Join [h; ".claude"; "skills"]);
    ("cursor", fun h => filepath_Join [h; ".cursor"; "skills"]);
    ("qoder", fun h => filepath_Join [h; ".qoder"; "skills"]);
    ("windsurf", fun h => filepath_Join [h; ".windsurf"; "skills"]);
    ("copilot", fun h => filepath_Join [h; ".copilot"; "skills"]);
    ("opencode", fun h => filepath_Join [h; ".opencode"; "skills"]) ].

(** The counting loop: [SkillCount++] for every entry not named
    [.DS_Store]. *)
Definition countEntries (entries : list os.DirEntry) (count : Z) : Z :=
  fold_left
    (fun c e => if decide (os.Name e <> ".DS_Store") then incr c else c)
    entries count.

(** The body shared by [DetectAll] and [Get] for one known provider. *)
Definition detect (kp : string * (string -> string)) (w : World) : Provider.t :=
  let home := HOME w in
  let path := snd kp home in
  match os.Stat path w with
  | Ok true =>
      Provider.mk (fst kp) path true
        (match os.ReadDir path w with
         | Ok entries => countEntries entries 0
         | Err _ => 0%Z
         end)
  | _ => Provider.mk (fst kp) path false 0%Z
  end.

Definition DetectAll (w : World) : list Provider.t :=
  map (fun kp => detect kp w) KnownProviders.

(** [Get]: the first known provider of that name, [None] for Go's nil. *)
Definition Get (name : string) (w : World) : option Provider.t :=
  match List.find (fun kp => bool_decide (fst kp = name)) KnownProviders with
  | Some kp => Some (detect kp w)
  | None => None
  end.

(** [GetConfigured]: the detected providers whose directory exists. *)
Definition GetConfigured (w : World) : list Provider.t :=
  filter (fun p => Provider.Configured p = true) (DetectAll w).

(** [ListSkills]: nothing, and no error, for an unconfigured provider. *)
Definition ListSkills (p : Provider.t) (w : World) : result (list string) :=
  if negb (Provider.Configured p) then Ok []
  else match os.ReadDir (Provider.SkillsPath p) w with
       | Err err => Err err
       | Ok entries =>
           Ok (map os.Name (filter (fun e => os.Name e <> ".DS_Store") entries))
       end.

(** [Configure]: the error, the provider value as the call leaves it, and
    the world. *)
Definition Configure (p : Provider.t) (w : World) : option error * Provider.t * World :=
  match os.MkdirAll (Provider.SkillsPath p) mode_0755 w with
  | (Some err, w1) => (Some err, p, w1)
  | (None, w1) =>
      (None,
       Provider.mk (Provider.Name p) (Provider.SkillsPath p) true (Provider.SkillCount p),
       w1)
  end.

End provider.

(** ** Package [skill] *)

Module skill.

Module Store.
Record t := mk { BaseDir : string; LockFile : string }.
End Store.

Definition NewStore (w : World) : Store.t :=
  let home := HOME w in
  Store.mk (filepath_Join [home; ".agents"; "skills"])
           (filepath_Join [home; ".agents"; ".skill-lock.json"]).

Definition ListInstalled (s : Store.t) (w : World) : result (list string) :=
  match os.ReadDir (Store.BaseDir s) w with
  | Err err => Err err
  | Ok entries => Ok (map os.Name (filter (fun e => os.IsDir e = true) entries))
  end.

(** What a link to [filepath.Join(s.BaseDir, skillName)] resolves to. *)
Definition linkTarget (s : Store.t) (skillName : string) (w : World) : LinkTarget :=
  if decide (Store.BaseDir s = Store.BaseDir (NewStore w)) then ToStore skillName
  else Elsewhere (filepath_Join [Store.BaseDir s; skillName]).

(** [skillName] is taken as a path element: [filepath.Join] then names
    the entry [skillName] of [providerPath].  [relFails] tells whether
    [filepath.Rel(providerPath, sourcePath)] returns an error: that is a
    matter of the spelling of the two paths alone, and is tested after
    [os.Remove] has run.  The error of [os.Remove] is dropped. *)
Definition LinkToProvider (s : Store.t) (skillName providerPath : string)
    (relFails : bool) (w : World) : option error * World :=
  match os.MkdirAll providerPath mode_0755 w with
  | (Some err, w1) => (Some err, w1)
  | (None, w1) =>
      let w2 := snd (os.Remove providerPath skillName w1) in
      if relFails then (Some RelError, w2)
      else os.Symlink (linkTarget s skillName w) providerPath skillName w2
  end.

(** [skillName] is taken as a path element, as in [LinkToProvider]. *)
Definition UnlinkFromProvider (s : Store.t) (skillName providerPath : string) (w : World)
    : option error * World :=
  os.Remove providerPath skillName w.

Definition ReadLockFile (s : Store.t) (w : World) : result LockFile.t :=
  match os.ReadFile (Store.LockFile s) w with
  | Err err =>
      if os.IsNotExist err then Ok (LockFile.mk 3 (Some ∅)) else Err err
  | Ok Malformed => Err SyntaxError
  | Ok (Encoded lock) => Ok lock
  end.

(** [json.MarshalIndent] has no error on a [LockFile].  What is written
    is kept by the document that [json.Unmarshal] reads back from it:
    the document itself, its strings being text of valid UTF-8. *)
Definition WriteLockFile (s : Store.t) (lock : LockFile.t) (w : World)
    : option error * World :=
  let dir := filepath_Dir (Store.LockFile s) in
  match os.MkdirAll dir mode_0755 w with
  | (Some err, w1) => (Some err, w1)
  | (None, w1) => os.WriteFile (Store.LockFile s) (Encoded lock) mode_0644 w1
  end.

(** What a call does: it returns an error value and leaves a world, or
    it panics. *)
Inductive exec := Return (err : option error) (w : World) | Panic.

(** [now] is [time.Now().UTC().Format(time.RFC3339)]. *)
Definition AddToLock (s : Store.t) (skillName source now : string) (w : World) : exec :=
  match ReadLockFile s w with
  | Err err => Return (Some err) w
  | Ok lock =>
      match LockFile.Skills lock with
      | None => Panic
      | Some skills =>
          let entry :=
            LockEntry.mk source "github" ("https://github.com/" +:+ source +:+ ".git")
                         "" "" now now in
          let lock' := LockFile.mk (LockFile.Version lock) (Some (<[skillName := entry]> skills)) in
          let (err, w') := WriteLockFile s lock' w in
          Return err w'
      end
  end.

End skill.

(** ** Package [tui]: the status and manage views *)

Module tui.

Module Provider.
Record t := mk {
  Name : string;
  Path : string;
  Configured : bool;
  SkillCount : Z;
  Synced : bool
}.
End Provider.

Module SkillEntry.
Record t := mk {
  Name : string;
  Group : string;
  Linked : bool;
  Selected : bool
}.
End SkillEntry.

Module SkillGroup.
Record t := mk { Name : string; Skills : list nat }.
End SkillGroup.

Module displayItem.
Record t := mk {
  isGroup : bool;
  groupIdx : nat;
  skillIdx : nat;
  groupName : string
}.
End displayItem.

#[global] Instance SkillEntry_eq_dec : EqDecision SkillEntry.t.
Proof. solve_decision. Defined.

(** [filepath.Join(home, ".agents", "skills")] *)
Definition skillsDir (w : World) : string :=
  filepath_Join [HOME w; ".agents"; "skills"].

Definition providerDefs (home : string) : list (string * string) :=
  [ ("claude", filepath_Join [home; ".claude"; "skills"]);
    ("cursor", filepath_Join [home; ".cursor"; "skills"]);
    ("qoder", filepath_Join [home; ".qoder"; "skills"]);
    ("windsurf", filepath_Join [home; ".windsurf"; "skills"]);
    ("copilot", filepath_Join [home; ".copilot"; "skills"]);
    ("opencode", filepath_Join [home; ".opencode"; "skills"]) ].

Definition detectProviders (w : World) : list Provider.t :=
  map (fun pd =>
         match os.Stat (snd pd) w with
         | Ok true =>
             Provider.mk (fst pd) (snd pd) true
               (match os.ReadDir (snd pd) w with
                | Ok entries => provider.countEntries entries 0
                | Err _ => 0%Z
                end)
               true
         | _ => Provider.mk (fst pd) (snd pd) false 0%Z false
         end)
      (providerDefs (HOME w)).

(** The comparison handed to [sort.Slice]: by group, then by name. *)
Definition less (a b : SkillEntry.t) : bool :=
  if decide (SkillEntry.Group a <> SkillEntry.Group b)
  then String.ltb (SkillEntry.Group a) (SkillEntry.Group b)
  else String.ltb (SkillEntry.Name a) (SkillEntry.Name b).

(** [a] may stand before [b] in a slice sorted by [less]. *)
Definition skill_le (a b : SkillEntry.t) : Prop := less b a = false.
#[global] Instance skill_le_dec : RelDecision skill_le.
Proof. intros a b. unfold skill_le. apply _. Defined.

(** [sort.Slice(skills, less)].  The library's sort is not stable; on
    entries that [less] tells apart, which entries of distinct names
    are, every sort returns the same slice. *)
Definition sortSkills (skills : list SkillEntry.t) : list SkillEntry.t :=
  merge_sort skill_le skills.

(** Indexing a [map[string]bool]: a missing key reads [false]. *)
Definition index (m : gmap string bool) (k : string) : bool :=
  default false (m !! k).

(** The names the provider directory holds, as [linkedSkills]. *)
Definition linkedSkillsOf (provider : Provider.t) (w : World) : gmap string bool :=
  if Provider.Configured provider then
    match os.ReadDir (Provider.Path provider) w with
    | Ok providerEntries =>
        fold_left
          (fun m e => if decide (os.Name e <> ".DS_Store") then <[os.Name e := true]> m else m)
          providerEntries ∅
    | Err _ => ∅
    end
  else ∅.

(** The entry appended for one directory of the central store. *)
Definition entryFor (linkedSkills : gmap string bool) (name : string) : SkillEntry.t :=
  SkillEntry.mk name (extractGroup name) (index linkedSkills name) (index linkedSkills name).

Definition loadSkillsForProvider (provider : Provider.t) (w : World) : list SkillEntry.t :=
  match os.ReadDir (skillsDir w) w with
  | Err _ => []
  | Ok entries =>
      let linkedSkills := linkedSkillsOf provider w in
      let skills :=
        omap (fun entry =>
                if os.IsDir entry && bool_decide (os.Name entry <> ".DS_Store")
                then Some (entryFor linkedSkills (os.Name entry))
                else None)
             entries in
      sortSkills skills
  end.

(** [groupMap]: for each group, the indices of its skills in slice order. *)
Definition groupMapOf (skills : list SkillEntry.t) : gmap string (list nat) :=
  fold_left
    (fun gm (ix : nat * SkillEntry.t) =>
       <[SkillEntry.Group (snd ix) :=
           default [] (gm !! SkillEntry.Group (snd ix)) ++ [fst ix]]> gm)
    (zip (seq 0 (length skills)) skills) ∅.

(** The keys of [groupMap] after [sort.Strings]; the order in which Go
    ranges over the map is lost in the sort. *)
Definition groupNamesOf (groupMap : gmap string (list nat)) : list string :=
  merge_sort string_le (map fst (map_to_list groupMap)).

(** [buildDisplayList]: the new [m.groups] and [m.displayList]. *)
Definition buildDisplayList (skills : list SkillEntry.t)
    : list SkillGroup.t * list displayItem.t :=
  let groupMap := groupMapOf skills in
  let groupNames := groupNamesOf groupMap in
  let groups :=
    map (fun groupName => SkillGroup.mk groupName (default [] (groupMap !! groupName)))
        groupNames in
  let displayList :=
    flat_map
      (fun (g : nat * string) =>
         displayItem.mk true (fst g) 0 (snd g)
         :: map (fun skillIdx => displayItem.mk false 0 skillIdx (snd g))
                (default [] (groupMap !! snd g)))
      (zip (seq 0 (length groupNames)) groupNames) in
  (groups, displayList).

(** The selection keys of [Update] write [Selected] fields only; any
    selection can be reached by toggling single skills. *)
Definition setSelected (sel : string -> bool) (skills : list SkillEntry.t)
    : list SkillEntry.t :=
  map (fun s => SkillEntry.mk (SkillEntry.Name s) (SkillEntry.Group s)
                              (SkillEntry.Linked s) (sel (SkillEntry.Name s)))
      skills.

(** The branch [applySkillChanges] takes for one skill. *)
Inductive Action := CreateLink | RemoveLink | NoOp.

#[global] Instance Action_eq_dec : EqDecision Action.
Proof. solve_decision. Defined.

Definition actionOf (skill : SkillEntry.t) : Action :=
  if SkillEntry.Selected skill && negb (SkillEntry.Linked skill) then CreateLink
  else if negb (SkillEntry.Selected skill) && SkillEntry.Linked skill then RemoveLink
  else NoOp.

(** One turn of the loop, with the error value the code discards.  The
    link's relative target resolves to the skill's directory in the
    central store. *)
Definition applyItem (provider : Provider.t) (skill : SkillEntry.t) (w : World)
    : option error * World :=
  match actionOf skill with
  | CreateLink =>
      os.Symlink (ToStore (SkillEntry.Name skill))
                 (Provider.Path provider) (SkillEntry.Name skill) w
  | RemoveLink => os.Remove (Provider.Path provider) (SkillEntry.Name skill) w
  | NoOp => (None, w)
  end.

Definition applyItems (provider : Provider.t) (skills : list SkillEntry.t) (w : World)
    : World :=
  fold_left (fun w skill => snd (applyItem provider skill w)) skills w.

(** [applySkillChanges] has no result: it returns [tt] and the world. *)
Definition applySkillChanges (provider : Provider.t) (skills : list SkillEntry.t)
    (w : World) : unit * World :=
  let w1 :=
    if negb (Provider.Configured provider)
    then snd (os.MkdirAll (Provider.Path provider) mode_0755 w)
    else w in
  (tt, applyItems provider skills w1).

(** The error values of the loop's calls, in order: what the code drops. *)
Fixpoint itemErrors (provider : Provider.t) (skills : list SkillEntry.t) (w : World)
    : list (option error) :=
  match skills with
  | [] => []
  | skill :: rest =>
      fst (applyItem provider skill w)
      :: itemErrors provider rest (snd (applyItem provider skill w))
  end.

(** The plan a skill slice stands for. *)
Definition planOf (skills : list SkillEntry.t) : list (string * Action) :=
  map (fun s => (SkillEntry.Name s, actionOf s)) skills.

(** The grouped view: each group's name with its skills' names. *)
Definition groupedNames (skills : list SkillEntry.t) : list (string * list string) :=
  map (fun g =>
         (SkillGroup.Name g,
          omap (fun i => SkillEntry.Name <$> skills !! i) (SkillGroup.Skills g)))
      (fst (buildDisplayList skills)).

(** *** The manage view's selection state

    [manageModel] without its presentation fields (width, paginator,
    error). *)

Module manageModel.
Record t := mk {
  provider : Provider.t;
  skills : list SkillEntry.t;
  groups : list SkillGroup.t;
  displayList : list displayItem.t;
  selectedIdx : Z;
  loading : bool
}.
End manageModel.

(** [l[i]] for a Go [int]: [None] stands for the index-out-of-range panic. *)
Definition at_int {A} (l : list A) (i : Z) : option A :=
  if (i <? 0)%Z then None else l !! Z.to_nat i.

(** [skills[i].Selected = v] *)
Definition setSelectedAt (skills : list SkillEntry.t) (i : nat) (v : bool)
    : option (list SkillEntry.t) :=
  match skills !! i with
  | Some s =>
      Some (<[i := SkillEntry.mk (SkillEntry.Name s) (SkillEntry.Group s)
                                 (SkillEntry.Linked s) v]> skills)
  | None => None
  end.

(** The loop of [isGroupAllSelected]: it returns at the first skill that
    is not selected. *)
Fixpoint allSelected (skills : list SkillEntry.t) (idxs : list nat) : option bool :=
  match idxs with
  | [] => Some true
  | skillIdx :: rest =>
      match skills !! skillIdx with
      | None => None
      | Some s => if negb (SkillEntry.Selected s) then Some false
                  else allSelected skills rest
      end
  end.

Definition isGroupAllSelected (m : manageModel.t) (groupIdx : nat) : option bool :=
  match manageModel.groups m !! groupIdx with
  | None => None
  | Some group => allSelected (manageModel.skills m) (SkillGroup.Skills group)
  end.

(** The loop of [isGroupPartialSelected], with its two flags. *)
Fixpoint selectedFlags (skills : list SkillEntry.t) (idxs : list nat)
    (hasSelected hasUnselected : bool) : option (bool * bool) :=
  match idxs with
  | [] => Some (hasSelected, hasUnselected)
  | skillIdx :: rest =>
      match skills !! skillIdx with
      | None => None
      | Some s =>
          if SkillEntry.Selected s then selectedFlags skills rest true hasUnselected
          else selectedFlags skills rest hasSelected true
      end
  end.

Definition isGroupPartialSelected (m : manageModel.t) (groupIdx : nat) : option bool :=
  match manageModel.groups m !! groupIdx with
  | None => None
  | Some group =>
      match selectedFlags (manageModel.skills m) (SkillGroup.Skills group) false false with
      | Some (hasSelected, hasUnselected) => Some (hasSelected && hasUnselected)
      | None => None
      end
  end.

(** The loop of [toggleGroup]. *)
Fixpoint setSelectedAll (skills : list SkillEntry.t) (idxs : list nat) (v : bool)
    : option (list SkillEntry.t) :=
  match idxs with
  | [] => Some skills
  | skillIdx :: rest =>
      match setSelectedAt skills skillIdx v with
      | None => None
      | Some skills' => setSelectedAll skills' rest v
      end
  end.

Definition withSkills (m : manageModel.t) (skills : list SkillEntry.t) : manageModel.t :=
  manageModel.mk (manageModel.provider m) skills (manageModel.groups m)
                 (manageModel.displayList m) (manageModel.selectedIdx m)
                 (manageModel.loading m).

Definition toggleGroup (m : manageModel.t) (groupIdx : nat) : option manageModel.t :=
  match manageModel.groups m !! groupIdx with
  | None => None
  | Some group =>
      match isGroupAllSelected m groupIdx with
      | None => None
      | Some allSel =>
          match setSelectedAll (manageModel.skills m) (SkillGroup.Skills group)
                               (negb allSel) with
          | None => None
          | Some skills' => Some (withSkills m skills')
          end
      end
  end.

(** [Update] on [skillsLoadedMsg]. *)
Definition onSkillsLoaded (skills : list SkillEntry.t) (m : manageModel.t)
    : manageModel.t :=
  manageModel.mk (manageModel.provider m) skills
                 (fst (buildDisplayList skills)) (snd (buildDisplayList skills))
                 0 false.

(** The cases of [Update]'s key switch that write [Selected]: the space
    bar, [a] and [n]. *)
Inductive SelectKey := KeySpace | KeyAll | KeyNone.

Definition updateSelect (key : SelectKey) (m : manageModel.t) : option manageModel.t :=
  match key with
  | KeySpace =>
      if (0 <? Z.of_nat (length (manageModel.displayList m)))%Z
         && (manageModel.selectedIdx m <? Z.of_nat (length (manageModel.displayList m)))%Z
      then
        match at_int (manageModel.displayList m) (manageModel.selectedIdx m) with
        | None => None
        | Some item =>
            if displayItem.isGroup item then toggleGroup m (displayItem.groupIdx item)
            else
              match manageModel.skills m !! displayItem.skillIdx item with
              | None => None
              | Some s =>
                  withSkills m <$>
                    setSelectedAt (manageModel.skills m) (displayItem.skillIdx item)
                                  (negb (SkillEntry.Selected s))
              end
        end
      else Some m
  | KeyAll => Some (withSkills m (setSelected (fun _ => true) (manageModel.skills m)))
  | KeyNone => Some (withSkills m (setSelected (fun _ => false) (manageModel.skills m)))
  end.

(** The command [Update] returns on enter: apply, then reload. *)
Definition onEnter (m : manageModel.t) (w : World) : list SkillEntry.t * World :=
  let w' := snd (applySkillChanges (manageModel.provider m) (manageModel.skills m) w) in
  (loadSkillsForProvider (manageModel.provider m) w', w').

(** *** Truncating for display

    [len(s)] counts bytes; [s[:hi]] panics ([None]) unless
    [0 <= hi <= len(s)]. *)

Definition len (s : string) : Z := Z.of_nat (String.length s).

Definition slice_to (s : string) (hi : Z) : option string :=
  if (0 <=? hi)%Z && (hi <=? len s)%Z then Some (substring 0 (Z.to_nat hi) s) else None.

(** [truncateStr] of the config view. *)
Definition truncateStr (s : string) (maxLen : Z) : option string :=
  if (maxLen <=? 0)%Z || (len s <=? maxLen)%Z then Some s
  else if (maxLen <=? 3)%Z then slice_to s maxLen
  else (fun pre => pre +:+ "...") <$> slice_to s (wrap64 (maxLen - 3)).

(** [truncate] of the search view: no test on a non-positive [maxLen]. *)
Definition truncate (s : string) (maxLen : Z) : option string :=
  if (len s <=? maxLen)%Z then Some s
  else if (maxLen <=? 3)%Z then slice_to s maxLen
  else (fun pre => pre +:+ "...") <$> slice_to s (wrap64 (maxLen - 3)).

(** *** Messages and keys

    A [tea.Msg] as the views tell them apart; a key message is given by
    its [String()]. *)

Inductive Msg :=
  | providersLoadedMsg (providers : list Provider.t) (totalSkills : Z)
  | errMsg (err : error)
  | configSavedMsg
  | KeyMsg (key : string)
  | OtherMsg.

(** The key is one of the alternatives of a [case]. *)
Definition keyIn (key : string) (alternatives : list string) : bool :=
  existsb (String.eqb key) alternatives.

(** [n--] *)
Definition decr (n : Z) : Z := wrap64 (n - 1).

(** *** The status view *)

Module statusModel.
Record t := mk {
  providers : list Provider.t;
  totalSkills : Z;
  selectedIdx : Z;
  loading : bool;
  err : option error
}.
End statusModel.

Definition newStatusModel : statusModel.t := statusModel.mk [] 0 0 true None.

(** The commands [statusModel.Update] returns.  The two that open a view
    are closures over the model; run, they index its providers. *)
Inductive statusCmd :=
  | NoCmd
  | LoadProvidersCmd
  | OpenManageCmd (m : statusModel.t)
  | OpenConfigCmd (m : statusModel.t).

(** [m.providers[m.selectedIdx]], as the closures evaluate it. *)
Definition selectedProvider (m : statusModel.t) : option Provider.t :=
  at_int (statusModel.providers m) (statusModel.selectedIdx m).

(** [loadProviders]: the providers and the number of directories in the
    central store. *)
Definition loadProviders (w : World) : Msg :=
  let providers := detectProviders w in
  let totalSkills :=
    match os.ReadDir (skillsDir w) w with
    | Ok entries => fold_left (fun c e => if os.IsDir e then incr c else c) entries 0%Z
    | Err _ => 0%Z
    end in
  providersLoadedMsg providers totalSkills.

Definition statusUpdate (msg : Msg) (m : statusModel.t) : statusModel.t * statusCmd :=
  match msg with
  | providersLoadedMsg providers totalSkills =>
      (statusModel.mk providers totalSkills (statusModel.selectedIdx m) false
                      (statusModel.err m), NoCmd)
  | errMsg err =>
      (statusModel.mk (statusModel.providers m) (statusModel.totalSkills m)
                      (statusModel.selectedIdx m) false (Some err), NoCmd)
  | KeyMsg key =>
      if keyIn key ["up"; "k"] then
        (if (0 <? statusModel.selectedIdx m)%Z
         then statusModel.mk (statusModel.providers m) (statusModel.totalSkills m)
                             (decr (statusModel.selectedIdx m))
                             (statusModel.loading m) (statusModel.err m)
         else m, NoCmd)
      else if keyIn key ["down"; "j"] then
        (if (statusModel.selectedIdx m
             <? Z.of_nat (length (statusModel.providers m)) - 1)%Z
         then statusModel.mk (statusModel.providers m) (statusModel.totalSkills m)
                             (incr (statusModel.selectedIdx m))
                             (statusModel.loading m) (statusModel.err m)
         else m, NoCmd)
      else if keyIn key ["enter"; "m"] then
        (m, if (0 <? Z.of_nat (length (statusModel.providers m)))%Z
            then OpenManageCmd m else NoCmd)
      else if keyIn key ["c"] then
        (m, if (0 <? Z.of_nat (length (statusModel.providers m)))%Z
            then OpenConfigCmd m else NoCmd)
      else if keyIn key ["r"] then
        (statusModel.mk (statusModel.providers m) (statusModel.totalSkills m)
                        (statusModel.selectedIdx m) true (statusModel.err m),
         LoadProvidersCmd)
      else (m, NoCmd)
  | _ => (m, NoCmd)
  end.

(** *** The config view *)

Module Registry.
Record t := mk { Name : string; URL : string; Enabled : bool }.
End Registry.

Module RepoSource.
Record t := mk { Owner : string; Repo : string }.
End RepoSource.

(** The text input of the bubbles library, by the operations the view
    calls on it. *)
Module textinput.
Class Ops (Model : Type) := {
  Value : Model -> string;
  Reset : Model -> Model;
  Focus : Model -> Model;
  Update : Msg -> Model -> Model
}.
End textinput.

(** [configModel] without width and error. *)
Module configModel.
Record t (TI : Type) := mk {
  registries : list Registry.t;
  repos : list RepoSource.t;
  providers : list Provider.t;
  section : Z;
  selectedIdx : Z;
  addingRepo : bool;
  textInput : TI;
  dirty : bool
}.
Arguments mk {TI}.
Arguments registries {TI}.
Arguments repos {TI}.
Arguments providers {TI}.
Arguments section {TI}.
Arguments selectedIdx {TI}.
Arguments addingRepo {TI}.
Arguments textInput {TI}.
Arguments dirty {TI}.
End configModel.

Inductive configCmd := ConfigNoCmd | BlinkCmd | SaveConfigCmd | TextInputCmd.

Definition defaultRegistries : list Registry.t :=
  [ Registry.mk "skills.sh" "https://skills.sh/api/search" true;
    Registry.mk "playbooks.com" "https://playbooks.com/api/skills" true ].

Definition defaultRepos : list RepoSource.t :=
  [ RepoSource.mk "yoanbernabeu" "grepai-skills";
    RepoSource.mk "better-auth" "skills";
    RepoSource.mk "awni" "mlx-skills" ].

(** [newConfigModel], given the text input [textinput.New] builds. *)
Definition newConfigModel {TI} (ti : TI) (w : World) : configModel.t TI :=
  configModel.mk defaultRegistries defaultRepos (detectProviders w) 0 0 false ti false.

Definition getMaxIndex {TI} (m : configModel.t TI) : Z :=
  if (configModel.section m =? 0)%Z then Z.of_nat (length (configModel.registries m)) - 1
  else if (configModel.section m =? 1)%Z then Z.of_nat (length (configModel.repos m)) - 1
  else if (configModel.section m =? 2)%Z then Z.of_nat (length (configModel.providers m)) - 1
  else 0%Z.

Definition withRegistries {TI} (m : configModel.t TI) (registries : list Registry.t) :=
  configModel.mk registries (configModel.repos m) (configModel.providers m)
                 (configModel.section m) (configModel.selectedIdx m)
                 (configModel.addingRepo m) (configModel.textInput m) (configModel.dirty m).

Definition withRepos {TI} (m : configModel.t TI) (repos : list RepoSource.t) :=
  configModel.mk (configModel.registries m) repos (configModel.providers m)
                 (configModel.section m) (configModel.selectedIdx m)
                 (configModel.addingRepo m) (configModel.textInput m) (configModel.dirty m).

Definition withProviders {TI} (m : configModel.t TI) (providers : list Provider.t) :=
  configModel.mk (configModel.registries m) (configModel.repos m) providers
                 (configModel.section m) (configModel.selectedIdx m)
                 (configModel.addingRepo m) (configModel.textInput m) (configModel.dirty m).

Definition withCursor {TI} (m : configModel.t TI) (section selectedIdx : Z) :=
  configModel.mk (configModel.registries m) (configModel.repos m) (configModel.providers m)
                 section selectedIdx
                 (configModel.addingRepo m) (configModel.textInput m) (configModel.dirty m).

Definition withInput {TI} (m : configModel.t TI) (addingRepo : bool) (textInput : TI) :=
  configModel.mk (configModel.registries m) (configModel.repos m) (configModel.providers m)
                 (configModel.section m) (configModel.selectedIdx m)
                 addingRepo textInput (configModel.dirty m).

Definition withDirty {TI} (m : configModel.t TI) (dirty : bool) :=
  configModel.mk (configModel.registries m) (configModel.repos m) (configModel.providers m)
                 (configModel.section m) (configModel.selectedIdx m)
                 (configModel.addingRepo m) (configModel.textInput m) dirty.

(** [toggleItem]: [None] is an index panic.  Enabling a provider calls
    [os.MkdirAll] and drops its error. *)
Definition toggleItem {TI} (m : configModel.t TI) (w : World)
    : option (configModel.t TI * World) :=
  let idx := configModel.selectedIdx m in
  if (configModel.section m =? 0)%Z then
    if (idx <? Z.of_nat (length (configModel.registries m)))%Z then
      match at_int (configModel.registries m) idx with
      | None => None
      | Some r =>
          Some (withRegistries m
                  (<[Z.to_nat idx := Registry.mk (Registry.Name r) (Registry.URL r)
                                                 (negb (Registry.Enabled r))]>
                     (configModel.registries m)), w)
      end
    else Some (m, w)
  else if (configModel.section m =? 2)%Z then
    if (idx <? Z.of_nat (length (configModel.providers m)))%Z then
      match at_int (configModel.providers m) idx with
      | None => None
      | Some p =>
          if Provider.Configured p then
            Some (withProviders m
                    (<[Z.to_nat idx := Provider.mk (Provider.Name p) (Provider.Path p) false
                                                   (Provider.SkillCount p)
                                                   (Provider.Synced p)]>
                       (configModel.providers m)), w)
          else
            let w' := snd (os.MkdirAll (Provider.Path p) mode_0755 w) in
            Some (withProviders m
                    (<[Z.to_nat idx := Provider.mk (Provider.Name p) (Provider.Path p) true
                                                   (Provider.SkillCount p)
                                                   (Provider.Synced p)]>
                       (configModel.providers m)), w')
      end
    else Some (m, w)
  else Some (m, w).

(** [append(l[:i], l[i+1:]...)]: the two slice expressions panic unless
    [0 <= i < len(l)]. *)
Definition cutAt {A} (l : list A) (i : Z) : option (list A) :=
  if (0 <=? i)%Z && (i <? Z.of_nat (length l))%Z
  then Some (take (Z.to_nat i) l ++ drop (S (Z.to_nat i)) l)
  else None.

(** The repository a line of input names: [strings.Split(input, "/")]
    must give two parts. *)
Definition parseRepo (input : string) : option RepoSource.t :=
  match Split input "/"%char with
  | [owner; repo] => Some (RepoSource.mk owner repo)
  | _ => None
  end.

(** [configModel.Update]: [None] is a panic. *)
Definition configUpdate {TI} `{!textinput.Ops TI} (msg : Msg) (m : configModel.t TI)
    (w : World) : option (configModel.t TI * configCmd * World) :=
  if configModel.addingRepo m then
    let typed :=
      Some (withInput m true (textinput.Update msg (configModel.textInput m)),
            TextInputCmd, w) in
    match msg with
    | KeyMsg key =>
        if keyIn key ["enter"] then
          let input := textinput.Value (configModel.textInput m) in
          let m1 :=
            match parseRepo input with
            | Some repo => withDirty (withRepos m (configModel.repos m ++ [repo])) true
            | None => m
            end in
          Some (withInput m1 false (textinput.Reset (configModel.textInput m1)),
                ConfigNoCmd, w)
        else if keyIn key ["esc"] then
          Some (withInput m false (textinput.Reset (configModel.textInput m)),
                ConfigNoCmd, w)
        else typed
    | _ => typed
    end
  else
    match msg with
    | configSavedMsg => Some (withDirty m false, ConfigNoCmd, w)
    | KeyMsg key =>
        if keyIn key ["tab"] then
          Some (withCursor m (Z.rem (wrap64 (configModel.section m + 1)) 3) 0%Z,
                ConfigNoCmd, w)
        else if keyIn key ["shift+tab"] then
          Some (withCursor m (Z.rem (wrap64 (configModel.section m + 2)) 3) 0%Z,
                ConfigNoCmd, w)
        else if keyIn key ["up"; "k"] then
          Some (if (0 <? configModel.selectedIdx m)%Z
                then withCursor m (configModel.section m) (decr (configModel.selectedIdx m))
                else m, ConfigNoCmd, w)
        else if keyIn key ["down"; "j"] then
          Some (if (configModel.selectedIdx m <? getMaxIndex m)%Z
                then withCursor m (configModel.section m) (incr (configModel.selectedIdx m))
                else m, ConfigNoCmd, w)
        else if keyIn key [" "] then
          match toggleItem m w with
          | None => None
          | Some (m1, w1) => Some (withDirty m1 true, ConfigNoCmd, w1)
          end
        else if keyIn key ["a"] then
          if (configModel.section m =? 1)%Z
          then Some (withInput m true (textinput.Focus (configModel.textInput m)),
                     BlinkCmd, w)
          else Some (m, ConfigNoCmd, w)
        else if keyIn key ["d"] then
          if (configModel.section m =? 1)%Z
             && (0 <? Z.of_nat (length (configModel.repos m)))%Z
          then
            match cutAt (configModel.repos m) (configModel.selectedIdx m) with
            | None => None
            | Some repos' =>
                let idx := configModel.selectedIdx m in
                let idx' :=
                  if (Z.of_nat (length repos') <=? idx)%Z && (0 <? idx)%Z
                  then (Z.of_nat (length repos') - 1)%Z else idx in
                Some (withDirty (withCursor (withRepos m repos') (configModel.section m) idx')
                                true, ConfigNoCmd, w)
            end
          else Some (m, ConfigNoCmd, w)
        else if keyIn key ["s"] then Some (m, SaveConfigCmd, w)
        else Some (m, ConfigNoCmd, w)
    | _ => Some (m, ConfigNoCmd, w)
    end.

End tui.
(** ** Package [api]: merging search results *)

Module api.

Module Skill.
Record t := mk {
  ID : string;
  Name : string;
  Source : string;
  Description : string;
  Installs : Z;
  Stars : Z;
  Registry : string
}.
End Skill.

(** One turn of the loop that drops repeated names: [seen] and [unique]. *)
Definition dedupStep (acc : gmap string bool * list Skill.t) (s : Skill.t)
    : gmap string bool * list Skill.t :=
  if negb (default false (fst acc !! Skill.Name s))
  then (<[Skill.Name s := true]> (fst acc), snd acc ++ [s])
  else acc.

(** [SearchAll], given what the two registry searches returned ([None]
    for a search that returned an error): the skills and the error. *)
Definition SearchAll (skillsShResults playbooksResults : option (list Skill.t))
    : list Skill.t * option error :=
  let allSkills := match skillsShResults with Some r => r | None => [] end in
  let allSkills := allSkills ++ match playbooksResults with Some r => r | None => [] end in
  (snd (fold_left dedupStep allSkills (∅, [])), None).

End api.

(** ** Package [config] *)

Module config.

Module Registry.
Record t := mk { Name : string; URL : string; Enabled : bool }.
End Registry.

Module ProviderConfig.
Record t := mk { Enabled : bool; Path : string }.
End ProviderConfig.

Module Config.
Record t := mk {
  Registries : list Registry.t;
  Repos : list string;
  Providers : gmap string ProviderConfig.t
}.
End Config.

(** The search loop of [AddRepo]. *)
Fixpoint hasRepo (repos : list string) (repo : string) : bool :=
  match repos with
  | [] => false
  | r :: rest => if String.eqb r repo then true else hasRepo rest repo
  end.

Definition AddRepo (c : Config.t) (repo : string) : Config.t :=
  if hasRepo (Config.Repos c) repo then c
  else Config.mk (Config.Registries c) (Config.Repos c ++ [repo]) (Config.Providers c).

(** The loop of [RemoveRepo]: it cuts out the first match and returns. *)
Fixpoint removeFirst (repos : list string) (repo : string) : list string :=
  match repos with
  | [] => []
  | r :: rest => if String.eqb r repo then rest else r :: removeFirst rest repo
  end.

Definition RemoveRepo (c : Config.t) (repo : string) : Config.t :=
  Config.mk (Config.Registries c) (removeFirst (Config.Repos c) repo) (Config.Providers c).

(** The loop of [EnableRegistry]: it writes the first match and returns. *)
Fixpoint enableFirst (regs : list Registry.t) (name : string) (enabled : bool)
    : list Registry.t :=
  match regs with
  | [] => []
  | r :: rest =>
      if String.eqb (Registry.Name r) name
      then Registry.mk (Registry.Name r) (Registry.URL r) enabled :: rest
      else r :: enableFirst rest name enabled
  end.

Definition EnableRegistry (c : Config.t) (name : string) (enabled : bool) : Config.t :=
  Config.mk (enableFirst (Config.Registries c) name enabled) (Config.Repos c)
            (Config.Providers c).

Definition EnableProvider (c : Config.t) (name : string) (enabled : bool) : Config.t :=
  match Config.Providers c !! name with
  | Some p =>
      Config.mk (Config.Registries c) (Config.Repos c)
                (<[name := ProviderConfig.mk enabled (ProviderConfig.Path p)]>
                   (Config.Providers c))
  | None => c
  end.

Definition GetEnabledRegistries (c : Config.t) : list Registry.t :=
  filter (fun r => Registry.Enabled r = true) (Config.Registries c).

Definition GetEnabledProviders (c : Config.t) : gmap string ProviderConfig.t :=
  filter (fun kv => ProviderConfig.Enabled (snd kv) = true) (Config.Providers c).

(** [DefaultConfig], under the [HOME] of the world. *)
Definition DefaultConfig (w : World) : Config.t :=
  let home := HOME w in
  Config.mk
    [ Registry.mk "skills.sh" "https://skills.sh/api/search" true;
      Registry.mk "playbooks.com" "https://playbooks.com/api/skills" true ]
    [ "yoanbernabeu/grepai-skills"; "better-auth/skills"; "awni/mlx-skills" ]
    (<["claude" := ProviderConfig.mk true (filepath_Join [home; ".claude"; "skills"])]>
     (<["cursor" := ProviderConfig.mk true (filepath_Join [home; ".cursor"; "skills"])]>
      (<["qoder" := ProviderConfig.mk true (filepath_Join [home; ".qoder"; "skills"])]>
       (<["windsurf" := ProviderConfig.mk false (filepath_Join [home; ".windsurf"; "skills"])]>
        (<["copilot" := ProviderConfig.mk false (filepath_Join [home; ".copilot"; "skills"])]>
         (<["opencode" := ProviderConfig.mk false (filepath_Join [home; ".opencode"; "skills"])]>
          ∅)))))).

End config.

(** ** The effect of the apply loop on one directory

    What one turn of the loop does to the entries of the provider
    directory, read off [os.Symlink] and [os.Remove]: both need search
    and write permission on the directory. *)

Definition canWrite (mode : N) : bool := searchable mode && writable mode.

(** What becomes of the entry named [n], currently [cur], under action [a]. *)
Definition entryAfter (mode : N) (a : tui.Action) (n : string) (cur : option Node)
    : option Node :=
  match a with
  | tui.CreateLink =>
      match cur with
      | None => if canWrite mode then Some (Symlink (ToStore n)) else None
      | Some x => Some x
      end
  | tui.RemoveLink =>
      match cur with
      | Some (SubDir (c :: cs)) => cur
      | Some _ => if canWrite mode then None else cur
      | None => None
      end
  | tui.NoOp => cur
  end.

(** The directory's entries after the turn for [skill]. *)
Definition itemEntries (mode : N) (skill : tui.SkillEntry.t) (es : gmap string Node)
    : gmap string Node :=
  let n := tui.SkillEntry.Name skill in
  match entryAfter mode (tui.actionOf skill) n (es !! n) with
  | Some x => <[n := x]> es
  | None => delete n es
  end.

(** The names the loader keeps from a listing of the central store. *)
Definition keptName (entry : os.DirEntry) : option string :=
  if os.IsDir entry && bool_decide (os.Name entry <> ".DS_Store")
  then Some (os.Name entry) else None.

(** The action the loop takes for the loaded skill named [n] under the
    selection [sel], given the loader's [linkedSkills]. *)
Definition actionByName (linked : gmap string bool) (sel : string -> bool) (n : string)
    : tui.Action :=
  tui.actionOf (tui.SkillEntry.mk n (extractGroup n) (tui.index linked n) (sel n)).

(** An entry that [os.Remove] refuses: a directory with content. *)
Definition nonEmptyDir (cur : option Node) : bool :=
  match cur with Some (SubDir (_ :: _)) => true | _ => false end.

(** Membership of a skill, or of an indexed skill, in group [g]. *)
Definition inGroup (g : string) (s : tui.SkillEntry.t) : Prop :=
  tui.SkillEntry.Group s = g.
Definition ixInGroup (g : string) (ix : nat * tui.SkillEntry.t) : Prop :=
  tui.SkillEntry.Group (snd ix) = g.

#[global] Instance inGroup_dec g s : Decision (inGroup g s).
Proof. unfold inGroup. apply _. Defined.
#[global] Instance ixInGroup_dec g ix : Decision (ixInGroup g ix).
Proof. unfold ixInGroup. apply _. Defined.

(** The entry [AddToLock] writes for [source] at time [now]. *)
Definition newLockEntry (source now : string) : LockEntry.t :=
  LockEntry.mk source "github" ("https://github.com/" +:+ source +:+ ".git") "" "" now now.

(** A skill entry with its [Selected] field set to [v]. *)
Definition withSelected (s : tui.SkillEntry.t) (v : bool) : tui.SkillEntry.t :=
  tui.SkillEntry.mk (tui.SkillEntry.Name s) (tui.SkillEntry.Group s)
                    (tui.SkillEntry.Linked s) v.

(** The manage model's groups and display list are those built from
    its skills. *)
Definition consistent (m : tui.manageModel.t) : Prop :=
  tui.manageModel.groups m = fst (tui.buildDisplayList (tui.manageModel.skills m)) /\
  tui.manageModel.displayList m = snd (tui.buildDisplayList (tui.manageModel.skills m)).

(** The status view after a sequence of messages, from [newStatusModel]. *)
Definition runStatus (msgs : list tui.Msg) : tui.statusModel.t :=
  fold_left (fun m msg => fst (tui.statusUpdate msg m)) msgs tui.newStatusModel.

(** [loadProviders] is the only sender of a [providersLoadedMsg]. *)
Definition fromLoader (msg : tui.Msg) : Prop :=
  match msg with
  | tui.providersLoadedMsg _ _ => exists w, msg = tui.loadProviders w
  | _ => True
  end.

(** The cursor of the status view: 0 before the providers are loaded,
    one of the six rows afterwards. *)
Definition statusCursorOk (m : tui.statusModel.t) : Prop :=
  (tui.statusModel.providers m = [] /\ tui.statusModel.selectedIdx m = 0%Z) \/
  (length (tui.statusModel.providers m) = 6%nat /\
   (0 <= tui.statusModel.selectedIdx m < 6)%Z).

(** The config view after a sequence of messages; [None] once an update
    has panicked. *)
Definition runConfig {TI} `{!tui.textinput.Ops TI} (msgs : list tui.Msg)
    (m : tui.configModel.t TI) (w : World) : option (tui.configModel.t TI * World) :=
  fold_left (fun st msg =>
               match st with
               | None => None
               | Some (m, w) =>
                   match tui.configUpdate msg m w with
                   | Some (m', _, w') => Some (m', w')
                   | None => None
                   end
               end)
            msgs (Some (m, w)).

(** The cursor of the config view points into the list of its section,
    or is 0 when that list is empty. *)
Definition configCursorOk {TI} (m : tui.configModel.t TI) : Prop :=
  (0 <= tui.configModel.section m < 3)%Z /\
  (0 <= tui.configModel.selectedIdx m)%Z /\
  (tui.configModel.selectedIdx m <= Z.max 0 (tui.getMaxIndex m))%Z.

(** The provider rows of the config view are those of [providerDefs],
    by name and path, and in the provider section the cursor is on one
    of them. *)
Definition providerRows {TI} (m : tui.configModel.t TI) (w : World) : Prop :=
  map (fun p => (tui.Provider.Name p, tui.Provider.Path p)) (tui.configModel.providers m)
  = tui.providerDefs (HOME w) /\
  (tui.configModel.section m = 2%Z -> (0 <= tui.configModel.selectedIdx m < 6)%Z).

(** The classification of the specification (section 4.3), which the
    code does not compute: an entry of the provider directory is a
    managed link when it is a link that resolves to the central store's
    directory of the same name, and foreign otherwise (a regular file, a
    directory, a link to elsewhere). *)
Inductive LinkStatus := ManagedLinked | Foreign.

Definition classify (name : string) (node : Node) : LinkStatus :=
  match node with
  | Symlink (ToStore n) => if decide (n = name) then ManagedLinked else Foreign
  | _ => Foreign
  end.

(** ** Worlds used in the examples *)

Definition ledger_home : string := "/home/u".

(** A fresh system: nothing exists yet. *)
Definition fresh_world : World := mkWorld ledger_home 18 ∅ ∅.

(** A lock file that records skill [a], installed and updated on
    2024-01-01. *)
Definition ledger_old_entry : LockEntry.t :=
  LockEntry.mk "o/r" "github" "https://github.com/o/r.git" "" ""
               "2024-01-01T00:00:00Z" "2024-01-01T00:00:00Z".

Definition ledger_world : World :=
  mkWorld ledger_home 18
    (<["/home/u/.agents" := PDir mode_0755 ∅]>
     (<["/home/u/.agents/.skill-lock.json" :=
          PFile mode_0644 (Encoded (LockFile.mk 3 (Some {[ "a" := ledger_old_entry ]})))]> ∅))
    ∅.

(** A provider directory of mixed content: a managed link, a regular
    file, a subdirectory, and the platform's [.DS_Store]. *)
Definition mixed_entries : gmap string Node :=
  <["auth-jwt" := Symlink (ToStore "auth-jwt")]>
  (<["notes.txt" := RegFile]>
   (<["scratch" := SubDir ["a.md"]]>
    (<[".DS_Store" := RegFile]> ∅))).

Definition mixed_world : World :=
  mkWorld ledger_home 18 (<["/home/u/.claude/skills" := PDir mode_0755 mixed_entries]> ∅) ∅.

(** A provider directory that holds a link and has no permission bit set. *)
Definition unreadable_world : World :=
  mkWorld ledger_home 18
    (<["/home/u/.claude/skills" := PDir 0 {[ "auth-jwt" := Symlink (ToStore "auth-jwt") ]}]> ∅) ∅.


(** A provider that was never configured, next to a central store with
    two skills. *)
Definition store_entries : gmap string Node :=
  <["auth-jwt" := SubDir ["SKILL.md"]]>
  (<["react-best-practices" := SubDir ["SKILL.md"]]>
   (<["scratch" := SubDir ["SKILL.md"]]>
    (<[".DS_Store" := RegFile]> ∅))).

Definition unconfigured_world : World :=
  mkWorld ledger_home 18 (<["/home/u/.agents/skills" := PDir mode_0755 store_entries]> ∅) ∅.

Definition claude_unconfigured : tui.Provider.t :=
  tui.Provider.mk "claude" "/home/u/.claude/skills" false 0 false.

Definition claude_configured : tui.Provider.t :=
  tui.Provider.mk "claude" "/home/u/.claude/skills" true 0 true.

(** A configured provider whose directory holds, under the names of
    three skills, a regular file, a directory with a file in it, and a
    managed link. *)
Definition conflict_entries : gmap string Node :=
  <["react-best-practices" := RegFile]>
  (<["scratch" := SubDir ["a.md"]]>
   (<["auth-jwt" := Symlink (ToStore "auth-jwt")]> ∅)).

Definition conflict_world : World :=
  mkWorld ledger_home 18
    (<["/home/u/.agents/skills" := PDir mode_0755 store_entries]>
     (<["/home/u/.claude/skills" := PDir mode_0755 conflict_entries]> ∅)) ∅.

(** The same provider with a managed link for each of the three skills. *)
Definition linked_entries : gmap string Node :=
  <["react-best-practices" := Symlink (ToStore "react-best-practices")]>
  (<["scratch" := Symlink (ToStore "scratch")]>
   (<["auth-jwt" := Symlink (ToStore "auth-jwt")]> ∅)).

Definition linked_world : World :=
  mkWorld ledger_home 18
    (<["/home/u/.agents/skills" := PDir mode_0755 store_entries]>
     (<["/home/u/.claude/skills" := PDir mode_0755 linked_entries]> ∅)) ∅.

(** The plan that unlinks [scratch]. *)
Definition unlink_scratch : list tui.SkillEntry.t :=
  [tui.SkillEntry.mk "scratch" "_other" true false].

(** Skill names in two orders. *)
Definition names_in_order : list string :=
  ["auth-jwt"; "plain"; "react-best-practices"; "react-hooks"; "vue-testing"].
Definition names_shuffled : list string :=
  ["vue-testing"; "react-hooks"; "plain"; "auth-jwt"; "react-best-practices"].

(** A lock file whose bytes do not decode. *)
Definition corrupt_ledger_world : World :=
  mkWorld ledger_home 18
    (<["/home/u/.agents" := PDir mode_0755 ∅]>
     (<["/home/u/.agents/.skill-lock.json" := PFile mode_0644 Malformed]> ∅))
    ∅.

(** The manage view opened on the provider of [conflict_world]. *)
Definition manage_example : tui.manageModel.t :=
  tui.onSkillsLoaded (tui.loadSkillsForProvider claude_configured conflict_world)
    (tui.manageModel.mk claude_configured [] [] [] 0 true).

(** Search results of the two registries that share the name [auth]. *)
Definition skillsSh_results : list api.Skill.t :=
  [ api.Skill.mk "1" "auth" "better-auth/skills" "" 10 0 "skills.sh";
    api.Skill.mk "2" "mlx" "awni/mlx-skills" "" 5 0 "skills.sh" ].
Definition playbooks_results : list api.Skill.t :=
  [ api.Skill.mk "9" "auth" "someone/auth" "" 0 3 "playbooks.com";
    api.Skill.mk "8" "grep" "yoanbernabeu/grepai-skills" "" 0 1 "playbooks.com" ].

(** A text input that holds what was typed: every key appends its
    string. *)
#[local] Instance lineInput : tui.textinput.Ops string := {|
  tui.textinput.Value := fun s => s;
  tui.textinput.Reset := fun _ => EmptyString;
  tui.textinput.Focus := fun s => s;
  tui.textinput.Update := fun msg s =>
    match msg with tui.KeyMsg key => (s ++ key)%string | _ => s end
|}.

(** A provider directory that cannot be created: its path is a file. *)
Definition blocked_world : World :=
  mkWorld ledger_home 18 (<["/home/u/.cursor/skills" := PFile mode_0644 Malformed]> ∅) ∅.

(** The config view while "/" is being typed as a repository. *)
Definition typing_example : tui.configModel.t string :=
  tui.withInput (tui.withCursor (tui.newConfigModel EmptyString fresh_world) 1 0) true "/".

(** The config view with the cursor on the last repository. *)
Definition repos_example : tui.configModel.t string :=
  tui.withCursor (tui.newConfigModel EmptyString fresh_world) 1 2.

(** ** Facts on the string order *)

Lemma ascii_compare_refl (a : ascii) : Ascii.compare a a = Eq.
Proof. unfold Ascii.compare. apply N.compare_refl. Qed.

Lemma ascii_compare_trans (c : comparison) (a b d : ascii) :
  Ascii.compare a b = c -> Ascii.compare b d = c -> Ascii.compare a d = c.
Proof.
  unfold Ascii.compare. destruct c.
  - rewrite !N.compare_eq_iff. congruence.
  - rewrite !N.compare_lt_iff. apply N.lt_trans.
  - rewrite !N.compare_gt_iff. intros ? ?. eapply N.lt_trans; eauto.
Qed.

Lemma string_compare_refl (s : string) : String.compare s s = Eq.
Proof. induction s; simpl; [done|]. by rewrite ascii_compare_refl. Qed.

Lemma string_compare_lt_trans (a b d : string) :
  String.compare a b = Lt -> String.compare b d = Lt -> String.compare a d = Lt.
Proof.
  revert b d. induction a as [|x a IH]; intros [|y b] [|z d]; simpl; try done.
  destruct (Ascii.compare x y) eqn:Hxy; try done;
    destruct (Ascii.compare y z) eqn:Hyz; try done; intros H1 H2.
  - apply Ascii.compare_eq_iff in Hxy, Hyz. subst.
    rewrite ascii_compare_refl. eauto.
  - apply Ascii.compare_eq_iff in Hxy. subst. by rewrite Hyz.
  - apply Ascii.compare_eq_iff in Hyz. subst. by rewrite Hxy.
  - by rewrite (ascii_compare_trans Lt x y z).
Qed.

Lemma string_le_lt_or_eq (a b : string) : string_le a b <-> string_lt a b \/ a = b.
Proof.
  unfold string_le, string_lt, String.leb, String.ltb.
  destruct (String.compare a b) eqn:H; split; try done; auto.
  - intros _. right. by apply String.compare_eq_iff.
  - intros [?| ->]; [done|]. by rewrite string_compare_refl in H.
Qed.

Lemma string_lt_trans (a b d : string) : string_lt a b -> string_lt b d -> string_lt a d.
Proof.
  unfold string_lt, String.ltb. intros H1 H2.
  destruct (String.compare a b) eqn:Hab; try done.
  destruct (String.compare b d) eqn:Hbd; try done.
  by rewrite (string_compare_lt_trans a b d).
Qed.

Lemma string_lt_irrefl (a : string) : ~ string_lt a a.
Proof. unfold string_lt, String.ltb. by rewrite string_compare_refl. Qed.

Lemma string_lt_asym (a b : string) : string_lt a b -> ~ string_lt b a.
Proof. intros H1 H2. exact (string_lt_irrefl a (string_lt_trans _ _ _ H1 H2)). Qed.

#[global] Instance string_le_refl : Reflexive string_le.
Proof. intros a. apply string_le_lt_or_eq. by right. Qed.

#[global] Instance string_le_trans : Transitive string_le.
Proof.
  intros a b d. rewrite !string_le_lt_or_eq.
  intros [H1| ->] [H2| ->]; eauto using string_lt_trans.
Qed.

#[global] Instance string_le_antisym : AntiSymm (=) string_le.
Proof. intros a b. apply String.leb_antisym. Qed.

#[global] Instance string_le_total : Total string_le.
Proof. intros a b. apply String.leb_total. Qed.

Lemma string_lt_le (a b : string) : string_lt a b -> string_le a b.
Proof. intros. apply string_le_lt_or_eq. by left. Qed.

Lemma string_not_le_lt (a b : string) : ~ string_le a b -> string_lt b a.
Proof.
  intros H. destruct (string_le_total a b) as [|H']; [done|].
  apply string_le_lt_or_eq in H' as [?| ->]; [done|].
  destruct H. reflexivity.
Qed.

(** ** Facts on [Split] and [extractGroup] *)

Lemma Split_nonempty (s : string) (sep : ascii) : Split s sep <> [].
Proof.
  induction s as [|c s IH]; simpl; [done|].
  destruct (Ascii.eqb c sep); [done|]. by destruct (Split s sep).
Qed.

Lemma Split_head (s : string) (sep : ascii) :
  nth 0 (Split s sep) EmptyString = before_sep s sep.
Proof.
  induction s as [|c s IH]; simpl; [done|].
  destruct (Ascii.eqb c sep); [done|].
  destruct (Split s sep) eqn:E; [by destruct (Split_nonempty s sep)|].
  simpl in *. by rewrite IH.
Qed.

Lemma Split_length (s : string) (sep : ascii) :
  (2 <=? length (Split s sep))%nat = Contains s sep.
Proof.
  induction s as [|c s IH]; simpl; [done|].
  destruct (Ascii.eqb c sep) eqn:E; simpl.
  - pose proof (Split_nonempty s sep). by destruct (Split s sep).
  - destruct (Split s sep) eqn:E'; [by destruct (Split_nonempty s sep)|].
    simpl in *. done.
Qed.

Lemma extractGroup_eq (name : string) :
  extractGroup name =
  if Contains name "-"%char then before_sep name "-"%char else other_group.
Proof.
  unfold extractGroup. cbv zeta. rewrite Split_length, Split_head. done.
Qed.

(** ** Grouping: where the sentinel group sorts *)

(** C4 (as the code has it): a name without the separator [-] is put in
    the fixed group [_other]; a name with one is put in the group of the
    bytes before its first separator.  [_other] is compared bytewise like
    any group: it sorts after the empty group and after a group whose
    first byte is below [_] (a digit, an upper-case letter), and before
    a group whose first byte is above [_] (every lower-case letter). *)
Theorem extractGroup_sentinel (name : string) :
  (Contains name "-" = false -> extractGroup name = other_group) /\
  (Contains name "-" = true ->
   extractGroup name = before_sep name "-" /\
   (before_sep name "-" = EmptyString -> string_lt (extractGroup name) other_group) /\
   forall c rest, before_sep name "-" = String c rest ->
     (Ascii.ltb c "_" = true -> string_lt (extractGroup name) other_group) /\
     (Ascii.ltb "_" c = true -> string_lt other_group (extractGroup name))).
Proof.
  rewrite extractGroup_eq. split; intros ->; [done|].
  split; [done|]. split; [by intros ->|]. intros c rest ->.
  unfold string_lt, String.ltb, other_group, Ascii.ltb. simpl.
  split; intros H.
  - by destruct (Ascii.compare c "_").
  - by destruct (Ascii.compare "_" c).
Qed.

Lemma extractGroup_sentinel_witness :
  extractGroup "plain" = other_group /\
  string_lt other_group (extractGroup "react-best-practices") /\
  string_lt (extractGroup "Auth-jwt") other_group.
Proof.
  split; [|split].
  - apply (extractGroup_sentinel "plain"). reflexivity.
  - destruct (extractGroup_sentinel "react-best-practices") as [_ H].
    destruct (H eq_refl) as (_ & _ & H').
    apply (H' "r"%char "eact" eq_refl). reflexivity.
  - destruct (extractGroup_sentinel "Auth-jwt") as [_ H].
    destruct (H eq_refl) as (_ & _ & H').
    apply (H' "A"%char "uth" eq_refl). reflexivity.
Defined.

(** C4 fails as stated: [react-best-practices] has a separator, its group
    [react] sorts after [_other], and the grouped view lists the
    unclassified skill first. *)
Lemma extractGroup_sentinel_not_last :
  Contains "react-best-practices" "-" = true /\
  Contains "plain" "-" = false /\
  extractGroup "plain" = other_group /\
  string_lt other_group (extractGroup "react-best-practices") /\
  tui.groupedNames
    (tui.sortSkills (map (tui.entryFor ∅) ["react-best-practices"; "plain"]))
  = [("_other", ["plain"]); ("react", ["react-best-practices"])].
Proof. repeat split; vm_compute; reflexivity. Qed.

(** ** The lock ledger *)

Section LockLedger.
Import skill.

Variable s : Store.t.

Lemma ReadFile_missing (path : string) (w : World) :
  fs w !! path = None -> os.ReadFile path w = Err (PathError ENOENT).
Proof. unfold os.ReadFile. by intros ->. Qed.

(** A successful [WriteLockFile] leaves the encoded document at the
    lock path. *)
Lemma WriteLockFile_ok (lock : LockFile.t) (w : World) :
  fst (WriteLockFile s lock w) = None ->
  exists mode,
    fs (snd (WriteLockFile s lock w)) !! Store.LockFile s
    = Some (PFile mode (Encoded lock)).
Proof.
  unfold WriteLockFile. cbv zeta.
  destruct (os.MkdirAll _ _ w) as [[e|] w1]; [done|].
  unfold os.WriteFile.
  destruct (fs w1 !! Store.LockFile s) as [[m es|m c]|] eqn:E; simpl.
  - done.
  - destruct (writable m); [|done]. intros _. exists m. simpl.
    by rewrite lookup_insert_eq.
  - destruct (decide _); [done|]. intros _. eexists. simpl.
    by rewrite lookup_insert_eq.
Qed.

(** C7: with no file at the lock path, [ReadLockFile] returns the empty
    document of version 3 and no error; it returns an error exactly
    when reading fails for another reason, or the bytes do not decode. *)
Theorem ReadLockFile_missing_is_empty (w : World) :
  (fs w !! Store.LockFile s = None ->
   ReadLockFile s w = Ok (LockFile.mk 3 (Some ∅))) /\
  (forall err,
     ReadLockFile s w = Err err <->
     (os.ReadFile (Store.LockFile s) w = Err err /\ os.IsNotExist err = false) \/
     (os.ReadFile (Store.LockFile s) w = Ok Malformed /\ err = SyntaxError)).
Proof.
  unfold ReadLockFile. split.
  - intros H. by rewrite (ReadFile_missing _ _ H).
  - intros err. destruct (os.ReadFile _ w) as [[|doc]|e].
    + split; [intros [= <-]; by right|]. by intros [[? _]|[_ ->]].
    + split; [done|]. by intros [[? _]|[? _]].
    + destruct (os.IsNotExist e) eqn:E.
      * split; [done|]. intros [[[= ->] ?]|[? _]]; congruence.
      * split; [intros [= <-]; by left|]. by intros [[[= ->] _]|[? _]].
Qed.

(** C6 (as the code has it): when the lock document is read with a
    non-nil map and the write succeeds, [AddToLock] returns no error
    and leaves at the lock path the document with exactly the entry of
    [skillName] replaced; the new entry has [InstalledAt] and
    [UpdatedAt] both equal to the current time, whether or not an
    entry was there before. *)
Theorem AddToLock_upsert (skillName source now : string) (w : World)
    (lock : LockFile.t) (skills : gmap string LockEntry.t) :
  ReadLockFile s w = Ok lock ->
  LockFile.Skills lock = Some skills ->
  let entry :=
    LockEntry.mk source "github" ("https://github.com/" +:+ source +:+ ".git")
                 "" "" now now in
  let lock' := LockFile.mk (LockFile.Version lock) (Some (<[skillName := entry]> skills)) in
  fst (WriteLockFile s lock' w) = None ->
  exists w' mode,
    AddToLock s skillName source now w = Return None w' /\
    fs w' !! Store.LockFile s = Some (PFile mode (Encoded lock')) /\
    <[skillName := entry]> skills !! skillName = Some entry /\
    LockEntry.InstalledAt entry = now /\ LockEntry.UpdatedAt entry = now /\
    (forall other, other <> skillName ->
       <[skillName := entry]> skills !! other = skills !! other).
Proof.
  intros Hread Hskills entry lock' Hw.
  destruct (WriteLockFile_ok lock' w Hw) as [mode Hmode].
  exists (snd (WriteLockFile s lock' w)), mode.
  split; [|split; [done|split; [by rewrite lookup_insert_eq|]]].
  - unfold AddToLock. rewrite Hread, Hskills. fold entry. fold lock'.
    destruct (WriteLockFile s lock' w) as [e w'] eqn:E. simpl in *. by subst.
  - repeat split. intros other Hne. by rewrite lookup_insert_ne.
Qed.

End LockLedger.

Lemma AddToLock_upsert_witness :
  exists w' mode,
    skill.AddToLock (skill.NewStore ledger_world) "b" "o/r" "2025-06-01T00:00:00Z" ledger_world
    = skill.Return None w' /\
    fs w' !! skill.Store.LockFile (skill.NewStore ledger_world)
    = Some (PFile mode (Encoded (LockFile.mk 3 (Some
        (<["b" := LockEntry.mk "o/r" "github" "https://github.com/o/r.git" "" ""
                    "2025-06-01T00:00:00Z" "2025-06-01T00:00:00Z"]>
           {[ "a" := ledger_old_entry ]}))))).
Proof.
  destruct (AddToLock_upsert (skill.NewStore ledger_world) "b" "o/r"
              "2025-06-01T00:00:00Z" ledger_world
              (LockFile.mk 3 (Some {[ "a" := ledger_old_entry ]}))
              {[ "a" := ledger_old_entry ]} eq_refl eq_refl eq_refl)
    as (w' & mode & H1 & H2 & _).
  exists w', mode. split; [exact H1|exact H2].
Defined.

(** C6 fails as stated: re-recording skill [a] replaces its
    [InstalledAt] of 2024 by the current time. *)
Lemma AddToLock_resets_installedAt :
  (exists lock skills entry,
     skill.ReadLockFile (skill.NewStore ledger_world) ledger_world = Ok lock /\
     LockFile.Skills lock = Some skills /\ skills !! "a" = Some entry /\
     LockEntry.InstalledAt entry = "2024-01-01T00:00:00Z") /\
  (exists w' lock' skills' entry',
     skill.AddToLock (skill.NewStore ledger_world) "a" "o/r" "2025-06-01T00:00:00Z"
                     ledger_world = skill.Return None w' /\
     skill.ReadLockFile (skill.NewStore ledger_world) w' = Ok lock' /\
     LockFile.Skills lock' = Some skills' /\ skills' !! "a" = Some entry' /\
     LockEntry.InstalledAt entry' = "2025-06-01T00:00:00Z" /\
     LockEntry.InstalledAt entry' <> "2024-01-01T00:00:00Z").
Proof.
  split.
  - by eexists _, _, ledger_old_entry.
  - eexists _, _, _, _. split; [vm_compute; reflexivity|].
    split; [vm_compute; reflexivity|]. split; [reflexivity|].
    split; [vm_compute; reflexivity|]. split; [reflexivity|]. simpl. discriminate.
Qed.

Lemma ReadLockFile_missing_is_empty_witness :
  skill.ReadLockFile (skill.NewStore fresh_world)
                     fresh_world
  = Ok (LockFile.mk 3 (Some ∅)).
Proof.
  apply (ReadLockFile_missing_is_empty
           (skill.NewStore fresh_world) fresh_world).
  reflexivity.
Defined.

(** ** Listing the central store *)

Lemma ReadDir_missing (path : string) (w : World) :
  fs w !! path = None -> os.ReadDir path w = Err (PathError ENOENT).
Proof. unfold os.ReadDir. by intros ->. Qed.

(** C3 (as the code has it): [Store.ListInstalled] fails exactly when
    [os.ReadDir] of the central directory fails, with that error, and a
    missing directory is such a failure; the manage view's loader returns
    the empty slice and no error on every failure of that read, missing
    directory or not. *)
Theorem ListInstalled_fails_with_ReadDir (s : skill.Store.t) (w : World) :
  (forall err,
     skill.ListInstalled s w = Err err <->
     os.ReadDir (skill.Store.BaseDir s) w = Err err) /\
  (fs w !! skill.Store.BaseDir s = None ->
   skill.ListInstalled s w = Err (PathError ENOENT)) /\
  (forall p err,
     os.ReadDir (tui.skillsDir w) w = Err err -> tui.loadSkillsForProvider p w = []).
Proof.
  split; [|split].
  - intros err. unfold skill.ListInstalled.
    destruct (os.ReadDir _ w); split; congruence.
  - intros H. unfold skill.ListInstalled. by rewrite (ReadDir_missing _ _ H).
  - intros p err H. unfold tui.loadSkillsForProvider. by rewrite H.
Qed.

Lemma ListInstalled_fails_with_ReadDir_witness :
  skill.ListInstalled (skill.NewStore fresh_world)
                      fresh_world
  = Err (PathError ENOENT).
Proof.
  apply (ListInstalled_fails_with_ReadDir
           (skill.NewStore fresh_world) fresh_world).
  reflexivity.
Defined.

(** C3 fails as stated: on a fresh system, where the central directory
    does not exist, [Store.ListInstalled] returns an error and no list. *)
Lemma ListInstalled_missing_store_is_error :
  fs fresh_world
    !! skill.Store.BaseDir (skill.NewStore fresh_world) = None /\
  skill.ListInstalled (skill.NewStore fresh_world)
                      fresh_world
  = Err (PathError ENOENT) /\
  skill.ListInstalled (skill.NewStore fresh_world)
                      fresh_world
  <> Ok [].
Proof. repeat split; vm_compute; congruence. Qed.

(** ** Counting a provider's entries *)

Lemma incr_small (c : Z) : (0 <= c -> c + 1 < 2 ^ 63 -> incr c = c + 1)%Z.
Proof.
  intros H1 H2. unfold incr, wrap64.
  rewrite Z.mod_small by lia. lia.
Qed.

Lemma filter_all {A} (P : A -> Prop) `{forall x, Decision (P x)} (l : list A) :
  Forall P l -> filter P l = l.
Proof.
  induction 1 as [|x l Hx _ IH]; [done|].
  by rewrite filter_cons_True, IH.
Qed.

Lemma countEntries_eq (entries : list os.DirEntry) (c : Z) :
  (0 <= c)%Z -> (c + Z.of_nat (length entries) < 2 ^ 63)%Z ->
  provider.countEntries entries c
  = (c + Z.of_nat (length (filter (fun e => os.Name e <> ".DS_Store") entries)))%Z.
Proof.
  unfold provider.countEntries.
  revert c. induction entries as [|e entries IH]; intros c H0 Hlt; simpl in *.
  - lia.
  - destruct (decide (os.Name e <> ".DS_Store")) as [Hne|Heq].
    + rewrite filter_cons_True by done. rewrite incr_small by lia.
      rewrite IH by lia. simpl. lia.
    + rewrite filter_cons_False by done. apply IH; lia.
Qed.

(** The entries of a map other than key [k] are the entries of the map
    without [k]. *)
Lemma filter_name_size (es : gmap string Node) (k : string) :
  length (filter (fun e : os.DirEntry => os.Name e <> k) (map_to_list es))
  = size (delete k es).
Proof.
  assert (Hrest : filter (fun e : os.DirEntry => os.Name e <> k) (map_to_list (delete k es))
                  = map_to_list (delete k es)).
  { apply filter_all, Forall_forall. intros [i x] Hin%elem_of_map_to_list.
    unfold os.Name. simpl. intros ->. by rewrite lookup_delete_eq in Hin. }
  destruct (es !! k) as [x|] eqn:E.
  - rewrite <- (map_to_list_delete es k x E).
    rewrite filter_cons_False by (unfold os.Name; simpl; tauto).
    by rewrite Hrest, length_map_to_list.
  - rewrite delete_id in Hrest |- * by done.
    by rewrite Hrest, length_map_to_list.
Qed.

Lemma ReadDir_dir (path : string) (w : World) (mode : N) (es : gmap string Node) :
  fs w !! path = Some (PDir mode es) ->
  os.ReadDir path w =
  if readable mode then Ok (merge_sort os.entry_le (map_to_list es))
  else Err (PathError EACCES).
Proof. unfold os.ReadDir. by intros ->. Qed.

Lemma detect_count (kp : string * (string -> string)) (w : World) :
  provider.Provider.Configured (provider.detect kp w) = true ->
  provider.Provider.SkillsPath (provider.detect kp w) = snd kp (HOME w) /\
  exists mode es,
    fs w !! snd kp (HOME w) = Some (PDir mode es) /\
    ((Z.of_nat (size es) < 2 ^ 63)%Z ->
     provider.Provider.SkillCount (provider.detect kp w)
     = if readable mode then Z.of_nat (size (delete ".DS_Store" es)) else 0%Z).
Proof.
  unfold provider.detect, os.Stat. cbv zeta.
  destruct (fs w !! snd kp (HOME w)) as [[mode es|mode c]|] eqn:E; simpl; try done.
  intros _. split; [done|]. exists mode, es. split; [done|]. intros Hsz.
  rewrite (ReadDir_dir _ _ _ _ E). destruct (readable mode); [|done].
  assert (Hlen : length (merge_sort os.entry_le (map_to_list es)) = size es).
  { by rewrite merge_sort_Permutation, length_map_to_list. }
  rewrite countEntries_eq by lia.
  rewrite merge_sort_Permutation, filter_name_size. lia.
Qed.

(** C10 (as the code has it): for every provider that [DetectAll] or
    [Get] reports as configured, when its directory can be listed
    [SkillCount] is the number of the directory's entries other than
    [.DS_Store], whatever they are (regular files, subdirectories, links
    to anywhere); when the directory cannot be listed, [SkillCount] is 0. *)
Theorem SkillCount_counts_entries (w : World) (p : provider.Provider.t)
    (mode : N) (es : gmap string Node) :
  (In p (provider.DetectAll w) \/ exists name, provider.Get name w = Some p) ->
  provider.Provider.Configured p = true ->
  fs w !! provider.Provider.SkillsPath p = Some (PDir mode es) ->
  (Z.of_nat (size es) < 2 ^ 63)%Z ->
  provider.Provider.SkillCount p
  = if readable mode then Z.of_nat (size (delete ".DS_Store" es)) else 0%Z.
Proof.
  intros Hp Hc Hfs Hsz.
  assert (exists kp, p = provider.detect kp w) as [kp ->].
  { destruct Hp as [Hin|[name Hget]].
    - unfold provider.DetectAll in Hin. apply in_map_iff in Hin as (kp & <- & _). eauto.
    - unfold provider.Get in Hget. destruct (find _ _) as [kp|]; [|done].
      injection Hget as <-. eauto. }
  destruct (detect_count kp w Hc) as [Hpath (mode' & es' & Hfs' & H)].
  rewrite Hpath, Hfs' in Hfs. injection Hfs as -> ->. auto.
Qed.

Lemma SkillCount_counts_entries_witness :
  provider.Provider.SkillCount
    (provider.Provider.mk "claude" "/home/u/.claude/skills" true 3)
  = Z.of_nat (size (delete ".DS_Store" mixed_entries)).
Proof.
  apply (SkillCount_counts_entries mixed_world
           (provider.Provider.mk "claude" "/home/u/.claude/skills" true 3)
           mode_0755 mixed_entries).
  - left. vm_compute. left. reflexivity.
  - reflexivity.
  - reflexivity.
  - vm_compute. reflexivity.
Defined.

(** C10 fails as stated: a provider directory without read permission is
    reported configured with [SkillCount] 0, though it holds a link. *)
Lemma SkillCount_unreadable_is_zero :
  In (provider.Provider.mk "claude" "/home/u/.claude/skills" true 0)
     (provider.DetectAll unreadable_world) /\
  provider.Get "claude" unreadable_world
  = Some (provider.Provider.mk "claude" "/home/u/.claude/skills" true 0) /\
  fs unreadable_world !! "/home/u/.claude/skills"
  = Some (PDir 0 {[ "auth-jwt" := Symlink (ToStore "auth-jwt") ]}) /\
  size (delete ".DS_Store" ({[ "auth-jwt" := Symlink (ToStore "auth-jwt") ]} : gmap string Node)) = 1.
Proof.
  split; [|split; [|split]].
  - vm_compute. left. reflexivity.
  - vm_compute. reflexivity.
  - reflexivity.
  - vm_compute. reflexivity.
Qed.

(** ** The apply loop *)

Section Apply.
Import tui.

Variable p : Provider.t.

Lemma set_fs_id (w : World) : set_fs w (fs w) = w.
Proof. by destruct w. Qed.

Lemma set_fs_set_fs (w : World) (f g : gmap string PathState) :
  set_fs (set_fs w f) g = set_fs w g.
Proof. done. Qed.

(** A turn of the loop does nothing when the provider path is not a
    directory. *)
Lemma applyItem_no_dir (skill : SkillEntry.t) (w : World) :
  (forall mode es, fs w !! Provider.Path p <> Some (PDir mode es)) ->
  snd (applyItem p skill w) = w.
Proof.
  intros H. unfold applyItem, os.Symlink, os.Remove.
  destruct (actionOf skill); try done;
    destruct (fs w !! Provider.Path p) as [[mode es|mode c]|] eqn:E; try done;
    by destruct (H mode es).
Qed.

(** On a directory, a turn of the loop rewrites its entries by
    [itemEntries] and touches nothing else. *)
Lemma applyItem_dir (skill : SkillEntry.t) (w : World) (mode : N) (es : gmap string Node) :
  fs w !! Provider.Path p = Some (PDir mode es) ->
  snd (applyItem p skill w)
  = set_fs w (<[Provider.Path p := PDir mode (itemEntries mode skill es)]> (fs w)).
Proof.
  intros E.
  assert (Hid : forall es', es' = es ->
            w = set_fs w (<[Provider.Path p := PDir mode es']> (fs w))).
  { intros es' ->. by rewrite insert_id, set_fs_id. }
  unfold applyItem, itemEntries, entryAfter, canWrite, os.Symlink, os.Remove.
  cbv zeta. destruct (actionOf skill); rewrite ?E; simpl.
  - destruct (es !! SkillEntry.Name skill) as [x|] eqn:En.
    + destruct (searchable mode); simpl; apply Hid; by rewrite insert_id.
    + destruct (searchable mode); simpl; [|apply Hid; by rewrite delete_id].
      destruct (writable mode); simpl; [done|]. apply Hid. by rewrite delete_id.
  - destruct (es !! SkillEntry.Name skill) as [x|] eqn:En.
    + destruct (searchable mode); simpl.
      * destruct (writable mode); simpl.
        -- destruct x as [|[|c cs]|t]; simpl; try done.
           apply Hid. by rewrite insert_id.
        -- destruct x as [|[|c cs]|t]; simpl; apply Hid; by rewrite insert_id.
      * destruct x as [|[|c cs]|t]; simpl; apply Hid; by rewrite insert_id.
    + destruct (searchable mode); simpl; apply Hid; by rewrite delete_id.
  - apply Hid. destruct (es !! SkillEntry.Name skill) eqn:En;
      [by rewrite insert_id|by rewrite delete_id].
Qed.

Lemma applyItems_dir (skills : list SkillEntry.t) (w : World) (mode : N)
    (es : gmap string Node) :
  fs w !! Provider.Path p = Some (PDir mode es) ->
  applyItems p skills w
  = set_fs w (<[Provider.Path p :=
                 PDir mode (fold_left (fun es s => itemEntries mode s es) skills es)]>
                (fs w)).
Proof.
  unfold applyItems. revert w es.
  induction skills as [|s skills IH]; intros w es E; simpl.
  - by rewrite insert_id, set_fs_id.
  - rewrite (applyItem_dir s w mode es E).
    erewrite IH; [|simpl; by rewrite lookup_insert_eq].
    simpl. by rewrite set_fs_set_fs, insert_insert_eq.
Qed.

Lemma applyItems_no_dir (skills : list SkillEntry.t) (w : World) :
  (forall mode es, fs w !! Provider.Path p <> Some (PDir mode es)) ->
  applyItems p skills w = w.
Proof.
  intros H. unfold applyItems. induction skills as [|s skills IH]; simpl; [done|].
  by rewrite applyItem_no_dir.
Qed.

End Apply.

(** ** Applying to an unconfigured provider *)

Lemma ldiff_disjoint (a b : N) : N.land a b = 0%N -> N.ldiff a b = a.
Proof.
  intros H. apply N.bits_inj. intros n. rewrite N.ldiff_spec.
  pose proof (N.land_spec a b n) as Hn. rewrite H, N.bits_0 in Hn.
  destruct (N.testbit a n), (N.testbit b n); simpl in *; congruence.
Qed.

(** C9: for a provider flagged unconfigured whose directory does not
    exist and can be created, [applySkillChanges] first makes the
    directory, empty and with mode 0755 less the umask (0755 itself
    under a umask that clears none of these bits), and runs the loop on
    that world; the directory is there afterwards. *)
Theorem applySkillChanges_creates_dir (p : tui.Provider.t) (skills : list tui.SkillEntry.t)
    (w : World) :
  tui.Provider.Configured p = false ->
  fs w !! tui.Provider.Path p = None ->
  tui.Provider.Path p ∉ frozen w ->
  let mode := N.ldiff mode_0755 (umask w) in
  let w1 := set_fs w (<[tui.Provider.Path p := PDir mode ∅]> (fs w)) in
  os.MkdirAll (tui.Provider.Path p) mode_0755 w = (None, w1) /\
  tui.applySkillChanges p skills w = (tt, tui.applyItems p skills w1) /\
  (exists es,
     fs (snd (tui.applySkillChanges p skills w)) !! tui.Provider.Path p
     = Some (PDir mode es)) /\
  (N.land mode_0755 (umask w) = 0%N -> mode = mode_0755).
Proof.
  intros Hc Hnone Hfrozen mode w1.
  assert (Hmk : os.MkdirAll (tui.Provider.Path p) mode_0755 w = (None, w1)).
  { unfold os.MkdirAll. rewrite Hnone. by destruct (decide _). }
  assert (Happly : tui.applySkillChanges p skills w = (tt, tui.applyItems p skills w1)).
  { unfold tui.applySkillChanges. by rewrite Hc, Hmk. }
  split; [done|]. split; [done|]. split.
  - rewrite Happly. simpl.
    rewrite (applyItems_dir p skills w1 mode ∅) by (simpl; by rewrite lookup_insert_eq).
    eexists. simpl. by rewrite lookup_insert_eq.
  - apply ldiff_disjoint.
Qed.

Lemma applySkillChanges_creates_dir_witness :
  exists es,
    fs (snd (tui.applySkillChanges claude_unconfigured
               (tui.setSelected (fun _ => true)
                  (tui.loadSkillsForProvider claude_unconfigured unconfigured_world))
               unconfigured_world))
      !! "/home/u/.claude/skills"
    = Some (PDir mode_0755 es).
Proof.
  destruct (applySkillChanges_creates_dir claude_unconfigured
              (tui.setSelected (fun _ => true)
                 (tui.loadSkillsForProvider claude_unconfigured unconfigured_world))
              unconfigured_world eq_refl eq_refl)
    as (_ & _ & [es Hes] & _).
  - vm_compute. discriminate.
  - exists es. exact Hes.
Defined.

(** ** Failures inside the loop *)

Section Failures.
Import tui.

Variable p : Provider.t.

(** A call that fails changes nothing. *)
Lemma applyItem_failed (skill : SkillEntry.t) (w : World) (err : error) :
  fst (applyItem p skill w) = Some err -> snd (applyItem p skill w) = w.
Proof.
  unfold applyItem, os.Symlink, os.Remove.
  destruct (actionOf skill); [| |done];
    destruct (fs w !! Provider.Path p) as [[mode es|mode c]|]; try done;
    destruct (searchable mode); simpl; try done;
    destruct (es !! SkillEntry.Name skill) as [x|]; try done;
    destruct (writable mode); simpl; try done.
  by destruct x as [|[|c cs]|t].
Qed.

Lemma applyItems_app (l1 l2 : list SkillEntry.t) (w : World) :
  applyItems p (l1 ++ l2) w = applyItems p l2 (applyItems p l1 w).
Proof. unfold applyItems. by rewrite fold_left_app. Qed.

Lemma itemErrors_app (l1 l2 : list SkillEntry.t) (w : World) :
  itemErrors p (l1 ++ l2) w
  = itemErrors p l1 w ++ itemErrors p l2 (applyItems p l1 w).
Proof.
  revert w. induction l1 as [|s l1 IH]; intros w; simpl; [done|].
  by rewrite IH.
Qed.

Lemma itemErrors_length (skills : list SkillEntry.t) (w : World) :
  length (itemErrors p skills w) = length skills.
Proof.
  revert w. induction skills as [|s l IH]; intros w; simpl; [done|].
  by rewrite IH.
Qed.

(** C8 (as the code has it): the loop makes one call per item, in plan
    order, whatever the earlier calls returned.  An item whose call
    fails leaves the filesystem as it was, and the items after it are
    processed as if it were not in the plan.  The error values are
    discarded: [applySkillChanges] returns nothing. *)
Theorem apply_continues_after_failure (before rest : list SkillEntry.t)
    (skill : SkillEntry.t) (w : World) (err : error) :
  let w1 := snd (applySkillChanges p [] w) in
  fst (applyItem p skill (applyItems p before w1)) = Some err ->
  length (itemErrors p (before ++ skill :: rest) w1)
  = length (before ++ skill :: rest) /\
  itemErrors p (before ++ skill :: rest) w1
  = itemErrors p before w1 ++ Some err :: itemErrors p rest (applyItems p before w1) /\
  applySkillChanges p (before ++ skill :: rest) w
  = (tt, applyItems p rest (applyItems p before w1)) /\
  applySkillChanges p (before ++ skill :: rest) w
  = applySkillChanges p (before ++ rest) w.
Proof.
  intros w1 Hfail. pose proof (applyItem_failed _ _ _ Hfail) as Hsame.
  split; [apply itemErrors_length|]. split.
  - rewrite itemErrors_app. simpl. by rewrite Hfail, Hsame.
  - assert (H : applyItems p (before ++ skill :: rest) w1
                = applyItems p rest (applyItems p before w1)).
    { rewrite applyItems_app. unfold applyItems at 1. simpl.
      by rewrite Hsame. }
    unfold applySkillChanges. cbv zeta. fold w1.
    unfold applySkillChanges in w1. simpl in w1. fold w1.
    split; [by rewrite H|]. by rewrite H, applyItems_app.
Qed.

End Failures.

Lemma apply_continues_after_failure_witness :
  tui.itemErrors claude_configured
    (tui.setSelected (fun _ => false)
       (tui.loadSkillsForProvider claude_configured conflict_world))
    conflict_world
  = [Some (PathError ENOTEMPTY); None; None] /\
  tui.applySkillChanges claude_configured
    (tui.setSelected (fun _ => false)
       (tui.loadSkillsForProvider claude_configured conflict_world))
    conflict_world
  = tui.applySkillChanges claude_configured
      (tui.setSelected (fun _ => false)
         [tui.SkillEntry.mk "auth-jwt" "auth" true true;
          tui.SkillEntry.mk "react-best-practices" "react" true true])
      conflict_world.
Proof.
  destruct (apply_continues_after_failure claude_configured []
              [tui.SkillEntry.mk "auth-jwt" "auth" true false;
               tui.SkillEntry.mk "react-best-practices" "react" true false]
              (tui.SkillEntry.mk "scratch" "_other" true false)
              conflict_world (PathError ENOTEMPTY) eq_refl)
    as (_ & H1 & _ & H2).
  split; [exact H1|exact H2].
Defined.

(** C8 fails as stated: unlinking [scratch] fails where the entry is a
    directory with content and succeeds where it is a link, and the call
    returns the same (nothing) in both: no per-item outcome can be read
    off what [applySkillChanges] returns. *)
Lemma applySkillChanges_reports_nothing :
  tui.itemErrors claude_configured unlink_scratch conflict_world
  = [Some (PathError ENOTEMPTY)] /\
  tui.itemErrors claude_configured unlink_scratch linked_world = [None] /\
  fst (tui.applySkillChanges claude_configured unlink_scratch conflict_world)
  = fst (tui.applySkillChanges claude_configured unlink_scratch linked_world) /\
  ~ (exists outcomes : unit -> list (option error),
       forall p skills w,
         outcomes (fst (tui.applySkillChanges p skills w))
         = tui.itemErrors p skills (snd (tui.applySkillChanges p [] w))).
Proof.
  assert (H1 : tui.itemErrors claude_configured unlink_scratch conflict_world
               = [Some (PathError ENOTEMPTY)]) by (vm_compute; reflexivity).
  assert (H2 : tui.itemErrors claude_configured unlink_scratch linked_world = [None])
    by (vm_compute; reflexivity).
  split; [exact H1|]. split; [exact H2|]. split; [reflexivity|].
  intros [outcomes H].
  pose proof (H claude_configured unlink_scratch conflict_world) as Ha.
  pose proof (H claude_configured unlink_scratch linked_world) as Hb.
  change (outcomes tt = tui.itemErrors claude_configured unlink_scratch conflict_world) in Ha.
  change (outcomes tt = tui.itemErrors claude_configured unlink_scratch linked_world) in Hb.
  rewrite H1 in Ha. rewrite H2 in Hb. congruence.
Qed.

(** ** What the loop leaves under each name *)

Lemma lookup_itemEntries (mode : N) (s : tui.SkillEntry.t) (es : gmap string Node)
    (n : string) :
  itemEntries mode s es !! n
  = if decide (n = tui.SkillEntry.Name s)
    then entryAfter mode (tui.actionOf s) n (es !! n)
    else es !! n.
Proof.
  unfold itemEntries. cbv zeta. destruct (decide (n = tui.SkillEntry.Name s)) as [->|Hne].
  - destruct (entryAfter _ _ _ _) eqn:E.
    + by rewrite lookup_insert_eq.
    + by rewrite lookup_delete_eq.
  - destruct (entryAfter _ _ _ _) eqn:E.
    + by rewrite lookup_insert_ne.
    + by rewrite lookup_delete_ne.
Qed.

Lemma entryAfter_idemp (mode : N) (a : tui.Action) (n : string) (cur : option Node) :
  entryAfter mode a n (entryAfter mode a n cur) = entryAfter mode a n cur.
Proof.
  destruct a, cur as [[|[|c cs]|t]|]; simpl; try done; by destruct (canWrite mode).
Qed.

(** When every item's action is a function of its name, the loop leaves
    under each planned name what one turn for that name leaves, and
    every other name as it was. *)
Lemma lookup_fold_itemEntries (mode : N) (act : string -> tui.Action)
    (skills : list tui.SkillEntry.t) (es : gmap string Node) (n : string) :
  Forall (fun s => tui.actionOf s = act (tui.SkillEntry.Name s)) skills ->
  fold_left (fun es s => itemEntries mode s es) skills es !! n
  = if decide (n ∈ map tui.SkillEntry.Name skills)
    then entryAfter mode (act n) n (es !! n)
    else es !! n.
Proof.
  intros Hact. revert es. induction Hact as [|s skills Hs _ IH]; intros es.
  - simpl. done.
  - cbn [fold_left map]. rewrite IH, lookup_itemEntries, Hs.
    destruct (decide (n = tui.SkillEntry.Name s)) as [->|Hne].
    + rewrite (decide_True (P := _ ∈ _ :: _)) by left.
      case_decide; [apply entryAfter_idemp|done].
    + destruct (decide (n ∈ map tui.SkillEntry.Name skills)) as [Hin|Hnin].
      * rewrite decide_True by (by right). done.
      * rewrite decide_False; [done|]. by intros [?|?]%elem_of_cons.
Qed.

(** ** What the loader returns *)

Lemma map_fmap {A B} (f : A -> B) (l : list A) : map f l = f <$> l.
Proof. induction l as [|x l IH]; [done|]. csimpl. by rewrite <- IH. Qed.

Lemma elem_of_map {A B} (f : A -> B) (l : list A) (y : B) :
  y ∈ map f l <-> exists x, y = f x /\ x ∈ l.
Proof. rewrite map_fmap. apply list_elem_of_fmap. Qed.

Section Loader.
Import tui.

Lemma loader_omap_names (linked : gmap string bool) (entries : list os.DirEntry) :
  map SkillEntry.Name
    (omap (fun entry =>
             if os.IsDir entry && bool_decide (os.Name entry <> ".DS_Store")
             then Some (entryFor linked (os.Name entry)) else None) entries)
  = omap keptName entries.
Proof.
  induction entries as [|e entries IH]; [done|].
  cbn [omap list_omap]. unfold keptName at 1.
  destruct (os.IsDir e && bool_decide (os.Name e <> ".DS_Store")); simpl; by rewrite IH.
Qed.

(** The loaded names are those kept from the listing, up to order. *)
Lemma load_names (p : Provider.t) (w : World) (entries : list os.DirEntry) :
  os.ReadDir (skillsDir w) w = Ok entries ->
  map SkillEntry.Name (loadSkillsForProvider p w) ≡ₚ omap keptName entries.
Proof.
  intros H. unfold loadSkillsForProvider, sortSkills. rewrite H. cbv zeta.
  rewrite <- (loader_omap_names (linkedSkillsOf p w)). rewrite !map_fmap.
  by rewrite merge_sort_Permutation.
Qed.

(** Every loaded entry is the one [entryFor] builds for its name, and
    is not named [.DS_Store]. *)
Lemma load_elem (p : Provider.t) (w : World) (s : SkillEntry.t) :
  s ∈ loadSkillsForProvider p w ->
  s = entryFor (linkedSkillsOf p w) (SkillEntry.Name s) /\
  SkillEntry.Name s <> ".DS_Store".
Proof.
  unfold loadSkillsForProvider, sortSkills.
  destruct (os.ReadDir (skillsDir w) w) as [entries|]; [|by intros ?%elem_of_nil].
  cbv zeta. rewrite merge_sort_Permutation.
  intros (e & _ & He)%list_elem_of_omap.
  destruct (os.IsDir e); simpl in He; [|done].
  case_bool_decide as Hne; [|done]. injection He as <-. done.
Qed.

Lemma index_insert_true (m : gmap string bool) (k n : string) :
  index (<[k := true]> m) n = if decide (k = n) then true else index m n.
Proof.
  unfold index. destruct (decide (k = n)) as [->|Hne].
  - by rewrite lookup_insert_eq.
  - by rewrite lookup_insert_ne.
Qed.

Lemma index_fold_entries (entries : list os.DirEntry) (m0 : gmap string bool) (n : string) :
  index (fold_left
           (fun m e => if decide (os.Name e <> ".DS_Store") then <[os.Name e := true]> m else m)
           entries m0) n = true
  <-> index m0 n = true \/ (n ∈ map os.Name entries /\ n <> ".DS_Store").
Proof.
  revert m0. induction entries as [|e entries IH]; intros m0; cbn [fold_left map].
  - split; [by left|]. intros [?|[?%elem_of_nil _]]; done.
  - rewrite IH. rewrite elem_of_cons. destruct (decide (os.Name e <> ".DS_Store")) as [Hne|Heq].
    + rewrite index_insert_true. destruct (decide (os.Name e = n)) as [<-|Hn].
      * split; [intros _; right; split; [by left|done]|by left].
      * split; [intros [?|[? ?]]; [by left|right; split; [by right|done]]|].
        intros [?|[[?|?] ?]]; [by left|congruence|right; done].
    + apply dec_stable in Heq.
      split; [intros [?|[? ?]]; [by left|right; split; [by right|done]]|].
      intros [?|[[?|?] ?]]; [by left|congruence|right; done].
Qed.

Lemma elem_of_ReadDir_names (es : gmap string Node) (n : string) :
  n ∈ map os.Name (merge_sort os.entry_le (map_to_list es)) <-> is_Some (es !! n).
Proof.
  rewrite map_fmap, merge_sort_Permutation, list_elem_of_fmap. split.
  - intros ([k x] & -> & Hin%elem_of_map_to_list). by exists x.
  - intros [x Hx]. exists (n, x). split; [done|]. by apply elem_of_map_to_list.
Qed.

(** For a configured provider with a listable directory, the linked
    flag of a name says that the directory has an entry of that name
    (other than [.DS_Store]), of whatever kind. *)
Lemma index_linkedSkillsOf (p : Provider.t) (w : World) (mode : N)
    (es : gmap string Node) (n : string) :
  Provider.Configured p = true ->
  fs w !! Provider.Path p = Some (PDir mode es) ->
  readable mode = true ->
  index (linkedSkillsOf p w) n = true <-> is_Some (es !! n) /\ n <> ".DS_Store".
Proof.
  intros Hc Hfs Hr. unfold linkedSkillsOf.
  rewrite Hc, (ReadDir_dir _ _ _ _ Hfs), Hr.
  rewrite index_fold_entries, elem_of_ReadDir_names.
  unfold index at 1. rewrite lookup_empty. simpl.
  split; [by intros [?|?]|by right].
Qed.

End Loader.

(** ** Conflict safety *)

Section Conflicts.
Import tui.

Variable p : Provider.t.
Variable w : World.
Variable sel : string -> bool.

Lemma selected_elem (s : SkillEntry.t) :
  s ∈ setSelected sel (loadSkillsForProvider p w) ->
  s = SkillEntry.mk (SkillEntry.Name s) (extractGroup (SkillEntry.Name s))
        (index (linkedSkillsOf p w) (SkillEntry.Name s)) (sel (SkillEntry.Name s)) /\
  SkillEntry.Name s <> ".DS_Store".
Proof.
  unfold setSelected. intros (s0 & -> & Hs0)%elem_of_map.
  destruct (load_elem p w s0 Hs0) as [Heq Hne]. simpl. split; [|done].
  rewrite Heq at 2 3. done.
Qed.

Lemma selected_actions :
  Forall (fun s => actionOf s = actionByName (linkedSkillsOf p w) sel (SkillEntry.Name s))
         (setSelected sel (loadSkillsForProvider p w)).
Proof.
  apply Forall_forall. intros s Hs.
  destruct (selected_elem s Hs) as [Heq _]. unfold actionByName. by rewrite <- Heq.
Qed.

(** The provider directory after the apply, name by name. *)
Lemma apply_selected_lookup (mode : N) (es : gmap string Node) :
  Provider.Configured p = true ->
  fs w !! Provider.Path p = Some (PDir mode es) ->
  exists es',
    snd (applySkillChanges p (setSelected sel (loadSkillsForProvider p w)) w)
    = set_fs w (<[Provider.Path p := PDir mode es']> (fs w)) /\
    forall n,
      es' !! n
      = if decide (n ∈ map SkillEntry.Name (setSelected sel (loadSkillsForProvider p w)))
        then entryAfter mode (actionByName (linkedSkillsOf p w) sel n) n (es !! n)
        else es !! n.
Proof.
  intros Hc Hfs. eexists. split.
  - unfold applySkillChanges. rewrite Hc. simpl.
    apply (applyItems_dir p _ w mode es Hfs).
  - intros n. apply lookup_fold_itemEntries, selected_actions.
Qed.

(** C1 (as the code has it): take an entry of a configured, listable
  provider directory that is foreign.  Whatever the selection, the
  plan has no [CreateLink] for its name and the apply never puts
  anything else in its place: afterwards the entry is as it was, or
  gone.  It is as it was whenever the selection has the name
  selected.  When the name is a deselected skill, the plan has a
  [RemoveLink] for it, and the apply removes the entry unless it is a
  directory with content or the provider directory is not writable:
  the code does not tell a foreign entry from a managed link.  In
  these two cases, and when the name is no skill of the store, the
  entry stays as it was: the entry is gone in no other case. *)
Theorem foreign_entry_not_overwritten (mode : N) (es : gmap string Node)
    (n : string) (node : Node) :
  Provider.Configured p = true ->
  fs w !! Provider.Path p = Some (PDir mode es) ->
  readable mode = true ->
  es !! n = Some node ->
  classify n node = Foreign ->
  let skills := setSelected sel (loadSkillsForProvider p w) in
  exists es',
    snd (applySkillChanges p skills w)
    = set_fs w (<[Provider.Path p := PDir mode es']> (fs w)) /\
    ((n, CreateLink) ∉ planOf skills) /\
    (es' !! n = Some node \/ es' !! n = None) /\
    (sel n = true -> es' !! n = Some node) /\
    (sel n = false -> n ∈ map SkillEntry.Name skills ->
     ((n, RemoveLink) ∈ planOf skills) /\
     (canWrite mode = true -> (forall c cs, node <> SubDir (c :: cs)) ->
      es' !! n = None)) /\
    (canWrite mode = false -> es' !! n = Some node) /\
    (forall c cs, node = SubDir (c :: cs) -> es' !! n = Some node) /\
    (n ∉ map SkillEntry.Name skills -> es' !! n = Some node).
Proof.
  intros Hc Hfs Hr Hn _ skills.
  destruct (apply_selected_lookup mode es Hc Hfs) as (es' & Hw' & Hes').
  fold skills in Hw', Hes'. exists es'. split; [done|].
  specialize (Hes' n). rewrite Hn in Hes'.
  assert (Hact : n ∈ map SkillEntry.Name skills ->
                 actionByName (linkedSkillsOf p w) sel n
                 = if sel n then NoOp else RemoveLink).
  { intros (s & -> & Hs)%elem_of_map.
    destruct (selected_elem s Hs) as [_ Hne].
    assert (Hl : index (linkedSkillsOf p w) (SkillEntry.Name s) = true).
    { apply (index_linkedSkillsOf p w mode es _ Hc Hfs Hr). by split. }
    unfold actionByName, actionOf. simpl. rewrite Hl.
    by destruct (sel (SkillEntry.Name s)). }
  assert (Hplan : forall a, (n, a) ∈ planOf skills ->
                    a = if sel n then NoOp else RemoveLink).
  { intros a (s & [= -> ->] & Hs)%elem_of_map.
    pose proof selected_actions as Hall. rewrite Forall_forall in Hall.
    rewrite (Hall s Hs). apply Hact, elem_of_map. eauto. }
  split; [|split; [|split; [|split; [|split; [|split]]]]].
  - intros Hin%Hplan. by destruct (sel n).
  - case_decide as Hin; [|by left]. rewrite (Hact Hin) in Hes'.
    destruct (sel n); simpl in Hes'; [by left|].
    destruct node as [|[|c cs]|t]; simpl in Hes'; try (by left);
      destruct (canWrite mode); auto.
  - intros Hsel. case_decide as Hin; [|done]. rewrite (Hact Hin), Hsel in Hes'. done.
  - intros Hsel Hin. split.
    + apply elem_of_map in Hin as (s & -> & Hs). apply elem_of_map.
      exists s. split; [|done]. f_equal.
      pose proof selected_actions as Hall. rewrite Forall_forall in Hall.
      rewrite (Hall s Hs), Hact, Hsel; [done|]. apply elem_of_map. eauto.
    + intros Hcw Hnd. rewrite decide_True in Hes' by done.
      rewrite (Hact Hin), Hsel in Hes'. simpl in Hes'. rewrite Hcw in Hes'.
      destruct node as [|[|c cs]|t]; try done. by destruct (Hnd c cs).
  - intros Hcw. case_decide as Hin; [|done]. rewrite (Hact Hin) in Hes'.
    destruct (sel n); simpl in Hes'; [done|]. rewrite Hcw in Hes'.
    by destruct node as [|[|c cs]|t].
  - intros c cs ->. case_decide as Hin; [|done]. rewrite (Hact Hin) in Hes'.
    destruct (sel n); simpl in Hes'; [done|]. by destruct (canWrite mode).
  - intros Hnin. by rewrite decide_False in Hes'.
Qed.

End Conflicts.

(** What [Store.LinkToProvider] does to an entry that is in the way: it
    removes it, unless it is a directory with content, and links. *)
Lemma LinkToProvider_replaces (s : skill.Store.t) (w : World) (path n : string)
    (mode : N) (es : gmap string Node) (node : Node) :
  fs w !! path = Some (PDir mode es) ->
  canWrite mode = true ->
  es !! n = Some node ->
  (forall c cs, node <> SubDir (c :: cs)) ->
  skill.LinkToProvider s n path false w
  = (None, set_fs w (<[path := PDir mode (<[n := Symlink (skill.linkTarget s n w)]> es)]>
                       (fs w))).
Proof.
  intros Hfs Hcw Hn Hnd. unfold canWrite in Hcw.
  apply andb_true_iff in Hcw as [Hs Hw].
  unfold skill.LinkToProvider, os.MkdirAll, os.Remove, os.Symlink.
  rewrite Hfs. simpl. rewrite Hfs, Hs, Hn, Hw. simpl.
  assert (Hrm : (match node with
                 | SubDir (_ :: _) => (Some (PathError ENOTEMPTY), w)
                 | _ => (None, set_fs w (<[path := PDir mode (delete n es)]> (fs w)))
                 end) = (None, set_fs w (<[path := PDir mode (delete n es)]> (fs w)))).
  { destruct node as [|[|c cs]|t]; try done. by destruct (Hnd c cs). }
  rewrite Hrm. simpl. rewrite lookup_insert_eq, Hs, Hw, lookup_delete_eq. simpl.
  by rewrite insert_insert_eq, insert_delete_eq.
Qed.

Lemma foreign_entry_not_overwritten_witness :
  exists es',
    snd (tui.applySkillChanges claude_configured
           (tui.setSelected (fun _ => true)
              (tui.loadSkillsForProvider claude_configured conflict_world))
           conflict_world)
    = set_fs conflict_world
        (<["/home/u/.claude/skills" := PDir mode_0755 es']> (fs conflict_world)) /\
    es' !! "react-best-practices" = Some RegFile.
Proof.
  destruct (foreign_entry_not_overwritten claude_configured conflict_world
              (fun _ => true) mode_0755 conflict_entries "react-best-practices" RegFile
              eq_refl eq_refl eq_refl eq_refl eq_refl)
    as (es' & H1 & _ & _ & H2 & _).
  exists es'. split; [exact H1|]. apply H2. reflexivity.
Defined.

(** C1 fails as stated: [react-best-practices] in the provider directory
    is a regular file, hence foreign.  With nothing selected the plan has
    a [RemoveLink] for it and the apply deletes the file; and
    [Store.LinkToProvider] puts a link in its place. *)
Lemma foreign_file_removed :
  conflict_entries !! "react-best-practices" = Some RegFile /\
  classify "react-best-practices" RegFile = Foreign /\
  In ("react-best-practices", tui.RemoveLink)
     (tui.planOf (tui.setSelected (fun _ => false)
                    (tui.loadSkillsForProvider claude_configured conflict_world))) /\
  (exists es',
     fs (snd (tui.applySkillChanges claude_configured
                (tui.setSelected (fun _ => false)
                   (tui.loadSkillsForProvider claude_configured conflict_world))
                conflict_world)) !! "/home/u/.claude/skills"
     = Some (PDir mode_0755 es') /\
     es' !! "react-best-practices" = None) /\
  (exists es',
     fs (snd (skill.LinkToProvider (skill.NewStore conflict_world)
                "react-best-practices" "/home/u/.claude/skills" false conflict_world))
       !! "/home/u/.claude/skills"
     = Some (PDir mode_0755 es') /\
     es' !! "react-best-practices" = Some (Symlink (ToStore "react-best-practices"))).
Proof.
  split; [reflexivity|]. split; [reflexivity|]. split.
  - vm_compute. right. right. left. reflexivity.
  - split.
    + eexists. split; [vm_compute; reflexivity|]. vm_compute. reflexivity.
    + eexists. split; [vm_compute; reflexivity|]. vm_compute. reflexivity.
Qed.

(** ** Idempotence *)

Section Idempotence.
Import tui.

Variable p : Provider.t.

Lemma applyItems_all_NoOp (skills : list SkillEntry.t) (w : World) :
  Forall (fun s => actionOf s = NoOp) skills -> applyItems p skills w = w.
Proof.
  unfold applyItems. induction 1 as [|s l Hs _ IH]; simpl; [done|].
  unfold applyItem. by rewrite Hs.
Qed.

Lemma setSelected_names (sel : string -> bool) (skills : list SkillEntry.t) :
  map SkillEntry.Name (setSelected sel skills) = map SkillEntry.Name skills.
Proof. unfold setSelected. rewrite map_map. done. Qed.

(** Writing the provider directory leaves the listing of the central
    store as it was. *)
Lemma ReadDir_other (w : World) (path : string) (st : PathState) :
  Provider.Path p <> path ->
  os.ReadDir path (set_fs w (<[Provider.Path p := st]> (fs w))) = os.ReadDir path w.
Proof. intros Hne. unfold os.ReadDir. simpl. by rewrite lookup_insert_ne. Qed.

Lemma load_names_after (w : World) (st : PathState) :
  Provider.Path p <> skillsDir w ->
  map SkillEntry.Name
    (loadSkillsForProvider p (set_fs w (<[Provider.Path p := st]> (fs w))))
  ≡ₚ map SkillEntry.Name (loadSkillsForProvider p w).
Proof.
  intros Hne.
  pose proof (ReadDir_other w (skillsDir w) st Hne) as Hrd.
  destruct (os.ReadDir (skillsDir w) w) as [entries|err] eqn:E.
  - rewrite (load_names p w entries E).
    by apply load_names.
  - unfold loadSkillsForProvider.
    change (skillsDir (set_fs w (<[Provider.Path p := st]> (fs w)))) with (skillsDir w).
    by rewrite Hrd, E.
Qed.

(** C2 (as the code has it): for a configured provider whose directory
    can be listed and written and is not the central store, and a
    selection that deselects no directory with content: after the
    apply, reloading the skills and planning against the same
    selection gives [NoOp] for every skill, the same skills as before,
    and applying again changes nothing. *)
Theorem replan_after_apply_is_noop (w : World) (sel : string -> bool)
    (mode : N) (es : gmap string Node) :
  Provider.Configured p = true ->
  fs w !! Provider.Path p = Some (PDir mode es) ->
  readable mode = true ->
  canWrite mode = true ->
  Provider.Path p <> skillsDir w ->
  Forall (fun s => nonEmptyDir (es !! SkillEntry.Name s) = true ->
                   sel (SkillEntry.Name s) = true)
         (loadSkillsForProvider p w) ->
  let w' := snd (applySkillChanges p (setSelected sel (loadSkillsForProvider p w)) w) in
  let skills' := setSelected sel (loadSkillsForProvider p w') in
  Forall (fun item => snd item = NoOp) (planOf skills') /\
  map SkillEntry.Name skills' ≡ₚ map SkillEntry.Name (loadSkillsForProvider p w) /\
  applySkillChanges p skills' w' = (tt, w').
Proof.
  intros Hc Hfs Hr Hcw Hne Hdirs w' skills'.
  destruct (apply_selected_lookup p w sel mode es Hc Hfs) as (es' & Hw' & Hes').
  fold w' in Hw'.
  assert (Hfs' : fs w' !! Provider.Path p = Some (PDir mode es')).
  { rewrite Hw'. simpl. by rewrite lookup_insert_eq. }
  assert (Hnames : map SkillEntry.Name skills'
                   ≡ₚ map SkillEntry.Name (loadSkillsForProvider p w)).
  { unfold skills'. rewrite setSelected_names, Hw'. by apply load_names_after. }
  assert (Hnoop : Forall (fun s => actionOf s = NoOp) skills').
  { apply Forall_forall. intros s Hs.
    destruct (selected_elem p w' sel s Hs) as [Heq Hds].
    set (n := SkillEntry.Name s) in *.
    assert (Hin : n ∈ map SkillEntry.Name (loadSkillsForProvider p w)).
    { rewrite <- Hnames. apply elem_of_map. eauto. }
    specialize (Hes' n). rewrite setSelected_names, decide_True in Hes' by done.
    pose proof (index_linkedSkillsOf p w mode es n Hc Hfs Hr) as Hl.
    pose proof (index_linkedSkillsOf p w' mode es' n Hc Hfs' Hr) as Hl'.
    assert (Hdir : nonEmptyDir (es !! n) = true -> sel n = true).
    { apply elem_of_map in Hin as (s0 & Hn0 & Hs0).
      rewrite Forall_forall in Hdirs. rewrite Hn0. by apply Hdirs. }
    rewrite Heq. unfold actionOf. simpl.
    unfold actionByName, actionOf in Hes'. simpl in Hes'.
    destruct (index (linkedSkillsOf p w') n) eqn:El';
      destruct (sel n) eqn:Es; simpl; try done; exfalso.
    - (* still linked, though deselected *)
      destruct (proj1 Hl' eq_refl) as [[x' Hx'] _].
      destruct (es !! n) as [x|] eqn:Ex.
      + assert (index (linkedSkillsOf p w) n = true) as Hi
          by (apply Hl; split; [by eexists|done]).
        rewrite Hi in Hes'. simpl in Hes'. rewrite Hcw in Hes'.
        destruct x as [|[|c cs]|t]; try congruence.
        specialize (Hdir eq_refl). congruence.
      + destruct (index (linkedSkillsOf p w) n); simpl in Hes'; congruence.
    - (* still unlinked, though selected *)
      assert (es' !! n = None) as Hnone.
      { destruct (es' !! n) eqn:Ex'; [|done].
        assert (false = true); [|done].
        apply Hl'. split; [by eexists|done]. }
      destruct (es !! n) as [x|] eqn:Ex.
      + assert (index (linkedSkillsOf p w) n = true) as Hi
          by (apply Hl; split; [by eexists|done]).
        rewrite Hi in Hes'. simpl in Hes'. congruence.
      + destruct (index (linkedSkillsOf p w) n); simpl in Hes';
          rewrite ?Hcw in Hes'; try congruence.
        apply (f_equal is_Some) in Ex.
        destruct (proj1 Hl eq_refl) as [[x Hx] _]. congruence. }
  split; [|split; [done|]].
  - unfold planOf. apply Forall_forall. intros item (s & -> & Hs)%elem_of_map.
    simpl. rewrite Forall_forall in Hnoop. by apply Hnoop.
  - unfold applySkillChanges. rewrite Hc. simpl.
    by rewrite applyItems_all_NoOp.
Qed.

End Idempotence.

Lemma replan_after_apply_is_noop_witness :
  Forall (fun item => snd item = tui.NoOp)
    (tui.planOf
       (tui.setSelected (fun n => bool_decide (n <> "auth-jwt"))
          (tui.loadSkillsForProvider claude_configured
             (snd (tui.applySkillChanges claude_configured
                     (tui.setSelected (fun n => bool_decide (n <> "auth-jwt"))
                        (tui.loadSkillsForProvider claude_configured conflict_world))
                     conflict_world))))).
Proof.
  apply (replan_after_apply_is_noop claude_configured conflict_world
           (fun n => bool_decide (n <> "auth-jwt")) mode_0755 conflict_entries).
  - reflexivity.
  - reflexivity.
  - reflexivity.
  - reflexivity.
  - vm_compute. discriminate.
  - vm_compute. repeat (constructor; [intros H; first [reflexivity|discriminate H]|]).
    constructor.
Defined.

(** C2 fails as stated: [scratch] in the provider directory is a
    directory with content.  Deselected, it cannot be removed, so after
    the apply the reloaded state plans [RemoveLink] for it again. *)
Lemma replan_after_apply_not_noop :
  conflict_entries !! "scratch" = Some (SubDir ["a.md"]) /\
  tui.planOf
    (tui.setSelected (fun _ => false)
       (tui.loadSkillsForProvider claude_configured conflict_world))
  = [("scratch", tui.RemoveLink); ("auth-jwt", tui.RemoveLink);
     ("react-best-practices", tui.RemoveLink)] /\
  tui.planOf
    (tui.setSelected (fun _ => false)
       (tui.loadSkillsForProvider claude_configured
          (snd (tui.applySkillChanges claude_configured
                  (tui.setSelected (fun _ => false)
                     (tui.loadSkillsForProvider claude_configured conflict_world))
                  conflict_world))))
  = [("scratch", tui.RemoveLink); ("auth-jwt", tui.NoOp);
     ("react-best-practices", tui.NoOp)].
Proof. repeat split; vm_compute; reflexivity. Qed.

(** The manage view reloads with the provider value it was opened with.
    For a provider opened as unconfigured the apply makes the directory
    and the links, yet the reload reads nothing as linked and the same
    selection plans every link again. *)
Lemma unconfigured_reload_reads_unlinked :
  (exists es',
     fs (snd (tui.applySkillChanges claude_unconfigured
                (tui.setSelected (fun _ => true)
                   (tui.loadSkillsForProvider claude_unconfigured unconfigured_world))
                unconfigured_world)) !! "/home/u/.claude/skills"
     = Some (PDir mode_0755 es') /\
     es' !! "auth-jwt" = Some (Symlink (ToStore "auth-jwt"))) /\
  tui.planOf
    (tui.setSelected (fun _ => true)
       (tui.loadSkillsForProvider claude_unconfigured
          (snd (tui.applySkillChanges claude_unconfigured
                  (tui.setSelected (fun _ => true)
                     (tui.loadSkillsForProvider claude_unconfigured unconfigured_world))
                  unconfigured_world))))
  = [("scratch", tui.CreateLink); ("auth-jwt", tui.CreateLink);
     ("react-best-practices", tui.CreateLink)].
Proof.
  split.
  - eexists. split; vm_compute; reflexivity.
  - vm_compute. reflexivity.
Qed.

(** ** The order of the manage view *)

Lemma ltb_false_le (a b : string) : String.ltb a b = false <-> string_le b a.
Proof.
  unfold string_le, String.ltb, String.leb. rewrite (String.compare_antisym b a).
  destruct (String.compare a b); simpl; split; done.
Qed.

Lemma string_lt_ne (a b : string) : string_lt a b -> a <> b.
Proof. intros H ->. by apply string_lt_irrefl in H. Qed.

(** [skill_le] is the lexicographic order on group, then name. *)
Lemma skill_le_spec (a b : tui.SkillEntry.t) :
  tui.skill_le a b <->
  string_lt (tui.SkillEntry.Group a) (tui.SkillEntry.Group b) \/
  (tui.SkillEntry.Group a = tui.SkillEntry.Group b /\
   string_le (tui.SkillEntry.Name a) (tui.SkillEntry.Name b)).
Proof.
  unfold tui.skill_le, tui.less.
  destruct (decide (tui.SkillEntry.Group b <> tui.SkillEntry.Group a)) as [Hne|Heq].
  - rewrite ltb_false_le, string_le_lt_or_eq. split.
    + intros [?|?]; [by left|congruence].
    + intros [?|[? _]]; [by left|congruence].
  - apply dec_stable in Heq. rewrite ltb_false_le. split.
    + intros ?. by right.
    + intros [Hlt|[_ ?]]; [|done]. by apply string_lt_ne in Hlt.
Qed.

#[global] Instance skill_le_total : Total tui.skill_le.
Proof.
  intros a b. rewrite !skill_le_spec.
  destruct (decide (tui.SkillEntry.Group a = tui.SkillEntry.Group b)) as [Heq|Hne].
  - destruct (string_le_total (tui.SkillEntry.Name a) (tui.SkillEntry.Name b)); auto.
  - destruct (string_le_total (tui.SkillEntry.Group a) (tui.SkillEntry.Group b))
      as [[?|?]%string_le_lt_or_eq|[?|?]%string_le_lt_or_eq]; auto; congruence.
Qed.

#[global] Instance skill_le_trans : Transitive tui.skill_le.
Proof.
  intros a b c. rewrite !skill_le_spec.
  intros [H1|[H1 H1']] [H2|[H2 H2']].
  - left. by eapply string_lt_trans.
  - left. by rewrite <- H2.
  - left. by rewrite H1.
  - right. split; [congruence|]. by etrans.
Qed.

Lemma StronglySorted_filter {A} (R : relation A) (P : A -> Prop)
    `{forall x, Decision (P x)} (l : list A) :
  StronglySorted R l -> StronglySorted R (filter P l).
Proof.
  induction 1 as [|x l Hl IH Hx]; [constructor|].
  destruct (decide (P x)).
  - rewrite filter_cons_True by done. constructor; [done|].
    apply Forall_forall. intros y [_ Hy]%list_elem_of_filter.
    rewrite Forall_forall in Hx. by apply Hx.
  - by rewrite filter_cons_False.
Qed.

Lemma StronglySorted_strict (l : list string) :
  NoDup l -> StronglySorted string_le l -> StronglySorted string_lt l.
Proof.
  intros Hnd Hs. induction Hs as [|x l Hl IH Hx]; [constructor|].
  apply NoDup_cons in Hnd as [Hnin Hnd]. constructor; [by apply IH|].
  apply Forall_forall. intros y Hy. rewrite Forall_forall in Hx.
  destruct (proj1 (string_le_lt_or_eq x y) (Hx y Hy)) as [?| ->]; [done|].
  by destruct Hnin.
Qed.

(** Sorting is insensitive to the order of its input, on entries built
    from names. *)
Lemma sortSkills_perm (linked : gmap string bool) (names names' : list string) :
  names ≡ₚ names' ->
  tui.sortSkills (map (tui.entryFor linked) names)
  = tui.sortSkills (map (tui.entryFor linked) names').
Proof.
  intros Hperm. unfold tui.sortSkills.
  apply (StronglySorted_unique_strong tui.skill_le).
  - intros x1 x2. rewrite !merge_sort_Permutation.
    intros (n1 & -> & _)%elem_of_map (n2 & -> & _)%elem_of_map.
    rewrite !skill_le_spec. simpl.
    intros [Hlt|[He1 H1]] [Hlt'|[He2 H2]].
    + by destruct (string_lt_asym _ _ Hlt).
    + apply string_lt_ne in Hlt. congruence.
    + apply string_lt_ne in Hlt'. congruence.
    + by rewrite (string_le_antisym _ _ H1 H2).
  - apply StronglySorted_merge_sort; apply _.
  - apply StronglySorted_merge_sort; apply _.
  - rewrite !merge_sort_Permutation, !map_fmap. by rewrite Hperm.
Qed.

(** ** The grouped view *)

Section Grouping.
Import tui.

(** The loop that fills [groupMap] appends, under each group, the
    indices of its skills in slice order. *)
Lemma groupMap_fold_lookup (l : list (nat * SkillEntry.t))
    (gm0 : gmap string (list nat)) (g : string) :
  default []
    (fold_left
       (fun gm (ix : nat * SkillEntry.t) =>
          <[SkillEntry.Group (snd ix) :=
              default [] (gm !! SkillEntry.Group (snd ix)) ++ [fst ix]]> gm)
       l gm0 !! g)
  = default [] (gm0 !! g) ++ map fst (filter (ixInGroup g) l).
Proof.
  revert gm0. induction l as [|[i s] l IH]; intros gm0; cbn [fold_left].
  - by rewrite filter_nil, app_nil_r.
  - rewrite IH. simpl. destruct (decide (SkillEntry.Group s = g)) as [Heq|Hne].
    + rewrite filter_cons_True by done. subst g.
      rewrite lookup_insert_eq. simpl. by rewrite <- app_assoc.
    + rewrite filter_cons_False by done. by rewrite lookup_insert_ne.
Qed.

Lemma groupMap_indices (skills : list SkillEntry.t) (g : string) :
  default [] (groupMapOf skills !! g)
  = map fst (filter (ixInGroup g) (zip (seq 0 (length skills)) skills)).
Proof. unfold groupMapOf. by rewrite groupMap_fold_lookup, lookup_empty. Qed.

(** The names at a group's indices are the names of the slice's skills
    of that group, in slice order. *)
Lemma names_at_indices (pre l : list SkillEntry.t) (g : string) :
  omap (fun i => SkillEntry.Name <$> (pre ++ l) !! i)
       (map fst (filter (ixInGroup g) (zip (seq (length pre) (length l)) l)))
  = map SkillEntry.Name (filter (inGroup g) l).
Proof.
  revert pre. induction l as [|s l IH]; intros pre; [done|].
  cbn [length seq zip zip_with].
  assert (Hrest : omap (fun i => SkillEntry.Name <$> (pre ++ s :: l) !! i)
                       (map fst (filter (ixInGroup g) (zip (seq (S (length pre)) (length l)) l)))
                  = map SkillEntry.Name (filter (inGroup g) l)).
  { specialize (IH (pre ++ [s])). rewrite length_app, Nat.add_1_r in IH.
    by rewrite <- app_assoc in IH. }
  destruct (decide (SkillEntry.Group s = g)) as [Heq|Hne].
  - rewrite !filter_cons_True by done. cbn [map omap list_omap fst].
    rewrite list_lookup_middle by done. simpl. f_equal. exact Hrest.
  - rewrite !filter_cons_False by done. exact Hrest.
Qed.

Lemma groupedNames_eq (skills : list SkillEntry.t) :
  groupedNames skills
  = map (fun g => (g, map SkillEntry.Name (filter (inGroup g) skills)))
        (groupNamesOf (groupMapOf skills)).
Proof.
  unfold groupedNames, buildDisplayList. cbv zeta. cbn [fst]. rewrite map_map.
  apply map_ext. intros g. cbn [SkillGroup.Name SkillGroup.Skills]. f_equal.
  rewrite groupMap_indices. apply (names_at_indices [] skills g).
Qed.

Lemma perm_of_eq {A} (l1 l2 : list A) : l1 = l2 -> l1 ≡ₚ l2.
Proof. by intros ->. Qed.

Lemma groupMap_fold_dom (l : list (nat * SkillEntry.t))
    (gm0 : gmap string (list nat)) (g : string) :
  is_Some
    (fold_left
       (fun gm (ix : nat * SkillEntry.t) =>
          <[SkillEntry.Group (snd ix) :=
              default [] (gm !! SkillEntry.Group (snd ix)) ++ [fst ix]]> gm)
       l gm0 !! g)
  <-> is_Some (gm0 !! g) \/ exists s, s ∈ l.*2 /\ SkillEntry.Group s = g.
Proof.
  revert gm0. induction l as [|[i s] l IH]; intros gm0; cbn [fold_left].
  - split; [by left|]. intros [?|(s & Hs%elem_of_nil & _)]; done.
  - rewrite IH. csimpl. destruct (decide (SkillEntry.Group s = g)) as [Heq|Hne].
    + subst g. rewrite lookup_insert_eq. split.
      * intros _. right. exists s. split; [by left|done].
      * intros _. left. by eexists.
    + rewrite lookup_insert_ne by done. split.
      * intros [?|(s' & Hs' & Hg)]; [by left|]. right. exists s'. split; [by right|done].
      * intros [?|(s' & [->|Hs']%elem_of_cons & Hg)]; [by left|done|].
        right. by exists s'.
Qed.

(** The groups listed are the groups of the skills. *)
Lemma elem_of_groupNames (skills : list SkillEntry.t) (g : string) :
  g ∈ groupNamesOf (groupMapOf skills) <-> exists s, s ∈ skills /\ SkillEntry.Group s = g.
Proof.
  assert (Hdom : is_Some (groupMapOf skills !! g)
                 <-> exists s, s ∈ skills /\ SkillEntry.Group s = g).
  { unfold groupMapOf. rewrite groupMap_fold_dom, lookup_empty.
    rewrite snd_zip by (by rewrite length_seq). split.
    - intros [[? ?]|?]; done.
    - by right. }
  rewrite <- Hdom. unfold groupNamesOf.
  rewrite merge_sort_Permutation, elem_of_map. split.
  - intros ([k ixs] & -> & Hin%elem_of_map_to_list). by eexists.
  - intros [ixs Hixs]. exists (g, ixs). split; [done|]. by apply elem_of_map_to_list.
Qed.

Lemma groupNames_NoDup (skills : list SkillEntry.t) :
  NoDup (groupNamesOf (groupMapOf skills)).
Proof.
  unfold groupNamesOf. rewrite merge_sort_Permutation, map_fmap.
  apply NoDup_fst_map_to_list.
Qed.

Lemma groupNames_sorted (skills : list SkillEntry.t) :
  StronglySorted string_lt (groupNamesOf (groupMapOf skills)).
Proof.
  apply StronglySorted_strict; [apply groupNames_NoDup|].
  apply StronglySorted_merge_sort; apply _.
Qed.

(** Each skill falls in exactly one of the listed groups. *)
Lemma concat_one_group (gs : list string) (g0 : string) (x : string)
    (F : string -> list string) :
  NoDup gs ->
  concat (map (fun g => (if decide (g0 = g) then [x] else []) ++ F g) gs)
  ≡ₚ (if decide (g0 ∈ gs) then [x] else []) ++ concat (map F gs).
Proof.
  induction 1 as [|g gs Hnin Hnd IH]; [done|]. cbn [map concat]. rewrite IH.
  destruct (decide (g0 = g)) as [->|Hne].
  - rewrite (decide_True (P := g ∈ g :: gs)) by left.
    rewrite (decide_False (P := g ∈ gs)) by done. simpl. done.
  - destruct (decide (g0 ∈ gs)) as [Hin|Hnin'].
    + rewrite (decide_True (P := g0 ∈ g :: gs)) by (by right). simpl.
      by rewrite Permutation_middle.
    + rewrite (decide_False (P := g0 ∈ g :: gs)); [done|].
      by intros [?|?]%elem_of_cons.
Qed.

Lemma concat_groups (gs : list string) (skills : list SkillEntry.t) :
  NoDup gs ->
  Forall (fun s => SkillEntry.Group s ∈ gs) skills ->
  concat (map (fun g => map SkillEntry.Name (filter (inGroup g) skills)) gs)
  ≡ₚ map SkillEntry.Name skills.
Proof.
  intros Hnd. induction 1 as [|s skills Hs _ IH].
  - induction gs as [|g gs IHg]; [done|]. apply NoDup_cons in Hnd as [_ Hnd].
    cbn [map concat]. rewrite filter_nil. simpl. by apply IHg.
  - trans (concat (map (fun g => (if decide (SkillEntry.Group s = g)
                                  then [SkillEntry.Name s] else [])
                                 ++ map SkillEntry.Name (filter (inGroup g) skills)) gs)).
    + apply perm_of_eq. f_equal. apply map_ext. intros g.
      destruct (decide (SkillEntry.Group s = g)) as [Heq|Hne].
      * by rewrite filter_cons_True.
      * by rewrite filter_cons_False.
    + rewrite concat_one_group by done. rewrite decide_True by done.
      cbn [map app]. by rewrite IH.
Qed.

Lemma sortedNames_in_group (skills : list SkillEntry.t) (g : string) :
  StronglySorted skill_le skills ->
  StronglySorted string_le (map SkillEntry.Name (filter (inGroup g) skills)).
Proof.
  intros Hs. apply (StronglySorted_filter _ (inGroup g)) in Hs.
  assert (Hg : Forall (inGroup g) (filter (inGroup g) skills)).
  { apply Forall_forall. by intros s [? _]%list_elem_of_filter. }
  induction Hs as [|s l Hl IH Hle]; [constructor|].
  apply Forall_cons in Hg as [Hgs Hgl]. cbn [map]. constructor; [by apply IH|].
  rewrite map_fmap. apply Forall_fmap, Forall_forall. intros s' Hs'. simpl.
  rewrite Forall_forall in Hle, Hgl.
  destruct (proj1 (skill_le_spec s s') (Hle s' Hs')) as [Hlt|[_ ?]]; [|done].
  apply string_lt_ne in Hlt. unfold inGroup in *. specialize (Hgl s' Hs'). congruence.
Qed.

(** The loader sorts the entries built for the names it keeps. *)
Lemma load_as_names (p : Provider.t) (w : World) (entries : list os.DirEntry) :
  os.ReadDir (skillsDir w) w = Ok entries ->
  loadSkillsForProvider p w
  = sortSkills (map (entryFor (linkedSkillsOf p w)) (omap keptName entries)).
Proof.
  intros H. unfold loadSkillsForProvider. rewrite H. cbv zeta. f_equal. clear H.
  induction entries as [|e entries IH]; [done|].
  cbn [omap list_omap]. unfold keptName at 1.
  destruct (os.IsDir e && bool_decide (os.Name e <> ".DS_Store")); simpl; by rewrite IH.
Qed.

(** C5: whatever the order of the input names, the grouped view lists
    the groups in strictly ascending order and, within each group, the
    names in ascending order; it lists every input name; and it is the
    same for every permutation of the input. *)
Theorem grouped_view_sorted (linked : gmap string bool) (names names' : list string) :
  let view := groupedNames (sortSkills (map (entryFor linked) names)) in
  StronglySorted string_lt (map fst view) /\
  Forall (fun g => StronglySorted string_le (snd g)) view /\
  concat (map snd view) ≡ₚ names /\
  (names ≡ₚ names' ->
   groupedNames (sortSkills (map (entryFor linked) names')) = view).
Proof.
  intros view. unfold view. rewrite groupedNames_eq.
  set (skills := sortSkills (map (entryFor linked) names)).
  split; [|split; [|split]].
  - rewrite map_map. simpl. rewrite map_id. apply groupNames_sorted.
  - apply Forall_forall. intros [g ns] (g' & [= -> ->] & _)%elem_of_map. simpl.
    apply sortedNames_in_group. apply StronglySorted_merge_sort; apply _.
  - rewrite map_map. simpl. rewrite concat_groups.
    + unfold skills, sortSkills. rewrite !map_fmap, merge_sort_Permutation.
      rewrite <- list_fmap_compose. simpl.
      apply perm_of_eq. clear. induction names; csimpl; congruence.
    + apply groupNames_NoDup.
    + apply Forall_forall. intros s Hs. apply elem_of_groupNames. eauto.
  - intros Hperm. rewrite <- groupedNames_eq. unfold skills.
    by rewrite (sortSkills_perm linked names names' Hperm).
Qed.

End Grouping.

Lemma grouped_view_sorted_witness :
  tui.groupedNames (tui.sortSkills (map (tui.entryFor ∅) names_shuffled))
  = tui.groupedNames (tui.sortSkills (map (tui.entryFor ∅) names_in_order)).
Proof.
  apply (grouped_view_sorted ∅ names_in_order names_shuffled).
  unfold names_in_order, names_shuffled.
  apply (bool_decide_unpack _). vm_compute. reflexivity.
Defined.

(** The view of the shuffled names, computed. *)
Lemma grouped_view_example :
  tui.groupedNames (tui.sortSkills (map (tui.entryFor ∅) names_shuffled))
  = [("_other", ["plain"]); ("auth", ["auth-jwt"]);
     ("react", ["react-best-practices"; "react-hooks"]); ("vue", ["vue-testing"])].
Proof. vm_compute. reflexivity. Qed.

(** ** Paths on the way to a path *)

Lemma onTheWay_refl (path : string) : onTheWay path path = true.
Proof.
  unfold onTheWay. induction path as [|c path IH]; [done|]. simpl.
  by destruct (ascii_dec c c).
Qed.

Lemma onTheWay_ne (a b : string) : onTheWay a b = false -> a <> b.
Proof. intros H ->. by rewrite onTheWay_refl in H. Qed.

(** ** Package [provider]: listing and configuring *)

Lemma detected_is_detect (w : World) (p : provider.Provider.t) :
  (In p (provider.DetectAll w) \/ exists name, provider.Get name w = Some p) ->
  exists kp, p = provider.detect kp w.
Proof.
  intros [Hin|[name Hget]].
  - unfold provider.DetectAll in Hin. apply in_map_iff in Hin as (kp & <- & _). eauto.
  - unfold provider.Get in Hget. destruct (find _ _) as [kp|]; [|done].
    injection Hget as <-. eauto.
Qed.

Lemma ReadDir_sorted (path : string) (w : World) (entries : list os.DirEntry) :
  os.ReadDir path w = Ok entries ->
  StronglySorted string_lt (map os.Name entries).
Proof.
  unfold os.ReadDir. destruct (fs w !! path) as [[mode es|mode c]|]; try done.
  destruct (readable mode); [|done]. intros [= <-].
  apply StronglySorted_strict.
  - rewrite map_fmap, merge_sort_Permutation. apply NoDup_fst_map_to_list.
  - assert (Hs : StronglySorted os.entry_le (merge_sort os.entry_le (map_to_list es))).
    { apply Sorted_StronglySorted.
      - intros a b c. unfold os.entry_le. apply string_le_trans.
      - apply Sorted_merge_sort. intros a b. unfold os.entry_le. apply string_le_total. }
    induction Hs as [|e l Hl IH He]; [constructor|].
    cbn [map]. constructor; [done|].
    rewrite map_fmap. by apply Forall_fmap.
Qed.

Lemma StronglySorted_lt_filter_map (entries : list os.DirEntry) (P : os.DirEntry -> Prop)
    `{forall e, Decision (P e)} :
  StronglySorted string_lt (map os.Name entries) ->
  StronglySorted string_lt (map os.Name (filter P entries)).
Proof.
  induction entries as [|e l IH]; [done|]. cbn [map]. intros Hs.
  apply StronglySorted_inv in Hs as [Hl He].
  destruct (decide (P e)).
  - rewrite filter_cons_True by done. cbn [map]. constructor; [by apply IH|].
    apply Forall_forall. intros n (e' & -> & [_ He']%list_elem_of_filter)%elem_of_map.
    rewrite Forall_forall in He. apply He, elem_of_map. eauto.
  - rewrite filter_cons_False by done. by apply IH.
Qed.

(** X1: The names [ListSkills] returns for a detected, configured provider
    are as many as its [SkillCount]; they are strictly ascending and
    none is [.DS_Store].  When the listing fails, [SkillCount] is 0. *)
Theorem ListSkills_matches_SkillCount (w : World) (p : provider.Provider.t)
    (mode : N) (es : gmap string Node) :
  (In p (provider.DetectAll w) \/ exists name, provider.Get name w = Some p) ->
  provider.Provider.Configured p = true ->
  fs w !! provider.Provider.SkillsPath p = Some (PDir mode es) ->
  (Z.of_nat (size es) < 2 ^ 63)%Z ->
  match provider.ListSkills p w with
  | Ok names =>
      provider.Provider.SkillCount p = Z.of_nat (length names) /\
      (".DS_Store" ∉ names) /\
      StronglySorted string_lt names /\
      (forall n, n ∈ names <-> is_Some (es !! n) /\ n <> ".DS_Store")
  | Err err => provider.Provider.SkillCount p = 0%Z /\ readable mode = false
  end.
Proof.
  intros Hp Hc Hfs Hsz.
  pose proof (SkillCount_counts_entries w p mode es Hp Hc Hfs Hsz) as Hcount.
  unfold provider.ListSkills. rewrite Hc. simpl.
  pose proof (ReadDir_sorted (provider.Provider.SkillsPath p) w) as Hsorted.
  rewrite (ReadDir_dir _ _ _ _ Hfs) in Hsorted |- *.
  destruct (readable mode); [|done].
  specialize (Hsorted _ eq_refl). split; [|split; [|split]].
  - rewrite Hcount. f_equal. rewrite length_map.
    by rewrite merge_sort_Permutation, filter_name_size.
  - intros (e & He & [Hne _]%list_elem_of_filter)%elem_of_map. by destruct Hne.
  - by apply StronglySorted_lt_filter_map.
  - intros n. rewrite <- elem_of_ReadDir_names. rewrite !elem_of_map. split.
    + intros (e & -> & [Hne He]%list_elem_of_filter). split; [eauto|done].
    + intros [(e & -> & He) Hne]. exists e. split; [done|]. by apply list_elem_of_filter.
Qed.

Lemma ListSkills_matches_SkillCount_witness :
  match provider.ListSkills
          (provider.Provider.mk "claude" "/home/u/.claude/skills" true 3) mixed_world with
  | Ok names =>
      3%Z = Z.of_nat (length names) /\
      (".DS_Store" ∉ names) /\
      StronglySorted string_lt names /\
      (forall n, n ∈ names <-> is_Some (mixed_entries !! n) /\ n <> ".DS_Store")
  | Err err => 3%Z = 0%Z /\ readable mode_0755 = false
  end.
Proof.
  apply (ListSkills_matches_SkillCount mixed_world
           (provider.Provider.mk "claude" "/home/u/.claude/skills" true 3)
           mode_0755 mixed_entries).
  - left. vm_compute. left. reflexivity.
  - reflexivity.
  - reflexivity.
  - vm_compute. reflexivity.
Defined.

Lemma Configure_eq (p : provider.Provider.t) (w : World) :
  provider.Configure p w =
  let p' := provider.Provider.mk (provider.Provider.Name p)
              (provider.Provider.SkillsPath p) true (provider.Provider.SkillCount p) in
  match fs w !! provider.Provider.SkillsPath p with
  | Some (PDir _ _) => (None, p', w)
  | Some (PFile _ _) => (Some (PathError ENOTDIR), p, w)
  | None =>
      if decide (provider.Provider.SkillsPath p ∈ frozen w)
      then (Some (PathError EACCES), p, w)
      else (None, p',
            set_fs w (<[provider.Provider.SkillsPath p :=
                          PDir (N.ldiff mode_0755 (umask w)) ∅]> (fs w)))
  end.
Proof.
  unfold provider.Configure, os.MkdirAll.
  destruct (fs w !! provider.Provider.SkillsPath p) as [[mode es|mode c]|]; try done.
  by destruct (decide _).
Qed.

Lemma detect_eq (kp : string * (string -> string)) (w : World) :
  provider.Provider.SkillsPath (provider.detect kp w) = snd kp (HOME w) /\
  (provider.Provider.Configured (provider.detect kp w) = true <->
   exists mode es, fs w !! snd kp (HOME w) = Some (PDir mode es)).
Proof.
  unfold provider.detect, os.Stat. cbv zeta.
  destruct (fs w !! snd kp (HOME w)) as [[mode es|mode c]|]; cbn [provider.Provider.SkillsPath
    provider.Provider.Configured]; (split; [done|]); split; try done; eauto.
  - by intros (? & ? & ?).
  - by intros (? & ? & ?).
Qed.

(** X2: [Configure] of a detected provider succeeds exactly when its path is
    a directory already, or is missing and can be created.  After a
    success the returned value is flagged configured, a fresh detection
    in the new world agrees, configuring again changes nothing, a
    directory that was there is left as it was, and nothing is touched
    but the directory and the paths on the way to it. *)
Theorem Configure_then_detected (kp : string * (string -> string)) (w : World) :
  let p := provider.detect kp w in
  let path := snd kp (HOME w) in
  (fst (fst (provider.Configure p w)) = None <->
   (exists mode es, fs w !! path = Some (PDir mode es)) \/
   (fs w !! path = None /\ path ∉ frozen w)) /\
  (fst (fst (provider.Configure p w)) = None ->
   let p' := snd (fst (provider.Configure p w)) in
   let w' := snd (provider.Configure p w) in
   provider.Provider.Configured p' = true /\
   provider.Provider.Configured (provider.detect kp w') = true /\
   provider.Configure p' w' = (None, p', w') /\
   (provider.Provider.Configured p = true -> w' = w) /\
   (forall other, onTheWay other path = false -> fs w' !! other = fs w !! other)).
Proof.
  intros p path.
  destruct (detect_eq kp w) as [Hpath Hconf]. fold p path in Hpath, Hconf.
  rewrite (Configure_eq p w). cbv zeta. rewrite Hpath.
  destruct (fs w !! path) as [[mode es|mode c]|] eqn:E; cbn [fst snd].
  - split; [split; [eauto|done]|]. intros _.
    split; [done|]. split; [by apply detect_eq; eauto|].
    split; [|done]. rewrite Configure_eq. cbv zeta.
    cbn [provider.Provider.SkillsPath]. by rewrite E.
  - split; [|done]. split; [done|]. intros [(? & ? & ?)|[? _]]; done.
  - destruct (decide (path ∈ frozen w)) as [Hf|Hf]; cbn [fst snd].
    + split; [|done]. split; [done|]. intros [(? & ? & ?)|[_ ?]]; done.
    + split; [split; [by right|done]|]. intros _.
      split; [done|]. split; [|split; [|split]].
      * apply detect_eq. cbn [HOME set_fs fs]. fold path.
        rewrite lookup_insert_eq. eauto.
      * rewrite Configure_eq. cbv zeta.
        cbn [provider.Provider.SkillsPath fs set_fs]. by rewrite lookup_insert_eq.
      * intros Hc. apply Hconf in Hc as (? & ? & ?). done.
      * intros other Hne%onTheWay_ne. cbn [fs set_fs]. by rewrite lookup_insert_ne.
Qed.

Lemma Configure_then_detected_witness :
  provider.Provider.Configured
    (provider.detect ("claude", fun h => filepath_Join [h; ".claude"; "skills"])
       (snd (provider.Configure
               (provider.detect ("claude", fun h => filepath_Join [h; ".claude"; "skills"])
                  unconfigured_world)
               unconfigured_world)))
  = true.
Proof.
  destruct (Configure_then_detected
              ("claude", fun h => filepath_Join [h; ".claude"; "skills"])
              unconfigured_world) as [_ H].
  apply H. reflexivity.
Defined.

(** X3: The status view's own detection loop reports, provider by provider,
    what the [provider] package reports: the same name, path, configured
    flag and count; and it flags as synced exactly the configured ones. *)
Theorem detectProviders_agrees (w : World) :
  map (fun p => (tui.Provider.Name p, tui.Provider.Path p,
                 tui.Provider.Configured p, tui.Provider.SkillCount p))
      (tui.detectProviders w)
  = map (fun p => (provider.Provider.Name p, provider.Provider.SkillsPath p,
                   provider.Provider.Configured p, provider.Provider.SkillCount p))
        (provider.DetectAll w) /\
  Forall (fun p => tui.Provider.Synced p = tui.Provider.Configured p)
         (tui.detectProviders w).
Proof.
  unfold tui.detectProviders, provider.DetectAll, tui.providerDefs,
    provider.KnownProviders, provider.detect.
  cbn [map fst snd]. cbv beta. split.
  - repeat (apply (f_equal2 cons); [by destruct (os.Stat _ w) as [[|]|]|]). done.
  - repeat (constructor; [by destruct (os.Stat _ w) as [[|]|]|]). constructor.
Qed.

(** ** Package [skill]: linking and unlinking *)

Section Linking.
Variable s : skill.Store.t.

Lemma set_fs_insert_id (w : World) (path : string) (st : PathState) :
  fs w !! path = Some st -> set_fs w (<[path := st]> (fs w)) = w.
Proof. intros H. by rewrite insert_id, set_fs_id. Qed.

Lemma Remove_dir (w : World) (path n : string) (mode : N) (es : gmap string Node) :
  fs w !! path = Some (PDir mode es) ->
  os.Remove path n w =
  match es !! n with
  | None => (Some (PathError (if searchable mode then ENOENT else EACCES)), w)
  | Some x =>
      if canWrite mode
      then (if nonEmptyDir (Some x) then (Some (PathError ENOTEMPTY), w)
            else (None, set_fs w (<[path := PDir mode (delete n es)]> (fs w))))
      else (Some (PathError EACCES), w)
  end.
Proof.
  intros Hfs. unfold os.Remove, canWrite. rewrite Hfs.
  destruct (searchable mode), (es !! n) as [x|], (writable mode); try done;
    by destruct x as [|[|c cs]|t].
Qed.

Lemma Symlink_dir (w : World) (t : LinkTarget) (path n : string) (mode : N)
    (es : gmap string Node) :
  fs w !! path = Some (PDir mode es) ->
  os.Symlink t path n w =
  match es !! n with
  | Some _ => (Some (PathError (if searchable mode then EEXIST else EACCES)), w)
  | None =>
      if canWrite mode
      then (None, set_fs w (<[path := PDir mode (<[n := Symlink t]> es)]> (fs w)))
      else (Some (PathError EACCES), w)
  end.
Proof.
  intros Hfs. unfold os.Symlink, canWrite. rewrite Hfs.
  by destruct (searchable mode), (es !! n) as [x|], (writable mode).
Qed.

Lemma linkTarget_set_fs (w : World) (n : string) (fs' : gmap string PathState) :
  skill.linkTarget s n (set_fs w fs') = skill.linkTarget s n w.
Proof. done. Qed.

Lemma LinkToProvider_dir (w : World) (path n : string) (relFails : bool) (mode : N)
    (es : gmap string Node) :
  fs w !! path = Some (PDir mode es) ->
  skill.LinkToProvider s n path relFails w =
  if relFails then (Some RelError, snd (os.Remove path n w))
  else if canWrite mode && negb (nonEmptyDir (es !! n))
       then (None, set_fs w (<[path := PDir mode
                                         (<[n := Symlink (skill.linkTarget s n w)]> es)]>
                               (fs w)))
       else (Some (PathError (if searchable mode
                              then match es !! n with Some _ => EEXIST | None => EACCES end
                              else EACCES)), w).
Proof.
  intros Hfs. unfold skill.LinkToProvider, os.MkdirAll. rewrite Hfs. cbv zeta.
  destruct relFails; [done|].
  rewrite (Remove_dir w path n mode es Hfs).
  destruct (es !! n) as [x|] eqn:Hn.
  - destruct (canWrite mode) eqn:Hcw.
    + destruct (nonEmptyDir (Some x)) eqn:Hd; cbn [snd andb negb].
      * rewrite (Symlink_dir w _ path n mode es Hfs), Hn.
        unfold canWrite in Hcw. apply andb_true_iff in Hcw as [-> _]. done.
      * erewrite Symlink_dir; [|cbn [fs set_fs]; by rewrite lookup_insert_eq].
        rewrite lookup_delete_eq, Hcw. cbn [fs set_fs].
        by rewrite insert_insert_eq, insert_delete_eq.
    + cbn [snd andb]. by rewrite (Symlink_dir w _ path n mode es Hfs), Hn.
  - cbn [snd nonEmptyDir negb]. rewrite andb_true_r.
    rewrite (Symlink_dir w _ path n mode es Hfs), Hn.
    destruct (canWrite mode) eqn:Hcw; [done|].
    unfold canWrite in Hcw. by destruct (searchable mode).
Qed.

(** What [os.Remove] leaves of a directory. *)
Lemma Remove_dir_lookup (w : World) (path n : string) (mode : N) (es : gmap string Node) :
  fs w !! path = Some (PDir mode es) ->
  exists es',
    fs (snd (os.Remove path n w)) !! path = Some (PDir mode es') /\
    (forall other, other <> n -> es' !! other = es !! other) /\
    es' !! n = (if canWrite mode && negb (nonEmptyDir (es !! n)) then None else es !! n) /\
    (forall q, q <> path -> fs (snd (os.Remove path n w)) !! q = fs w !! q).
Proof.
  intros Hfs. rewrite (Remove_dir w path n mode es Hfs).
  destruct (es !! n) as [x|] eqn:Hn.
  - destruct (canWrite mode); cbn [andb]; [|by exists es].
    destruct (nonEmptyDir (Some x)); cbn [negb snd]; [by exists es|].
    eexists. cbn [fs set_fs]. rewrite lookup_insert_eq. split; [done|].
    split; [by intros; rewrite lookup_delete_ne|].
    split; [by rewrite lookup_delete_eq|]. by intros; rewrite lookup_insert_ne.
  - exists es. cbn [snd]. repeat split; try done. rewrite Hn. by destruct (_ && _).
Qed.

(** X4: [LinkToProvider] on an existing provider directory, for a name
    that is a path element.  It succeeds exactly when [filepath.Rel] has
    no error, the directory can be searched and written and the name
    does not hold a directory with content; the name then holds the link
    to the store's skill.  When it fails on the directory or on the
    entry, the entry is as it was; when it fails on [filepath.Rel], the
    entry that was in the way is already removed.  In every case the
    other entries are as before, as is every path that is neither on
    the way to the provider's nor under it. *)
Theorem LinkToProvider_outcome (w : World) (path n : string) (relFails : bool)
    (mode : N) (es : gmap string Node) :
  fs w !! path = Some (PDir mode es) ->
  isElement n = true ->
  let r := skill.LinkToProvider s n path relFails w in
  (fst r = None <->
   relFails = false /\ canWrite mode = true /\ nonEmptyDir (es !! n) = false) /\
  (exists es',
     fs (snd r) !! path = Some (PDir mode es') /\
     (forall other, other <> n -> es' !! other = es !! other) /\
     (fst r = None -> es' !! n = Some (Symlink (skill.linkTarget s n w))) /\
     (fst r <> None -> relFails = false -> es' !! n = es !! n) /\
     (relFails = true ->
      fst r = Some RelError /\
      es' !! n = if canWrite mode && negb (nonEmptyDir (es !! n)) then None
                 else es !! n)) /\
  (forall q, onTheWay q path = false -> onTheWay path q = false ->
             fs (snd r) !! q = fs w !! q).
Proof.
  intros Hfs _ r. unfold r. rewrite (LinkToProvider_dir w path n relFails mode es Hfs).
  destruct relFails.
  - cbn [fst snd]. split; [split; [done|by intros [? _]]|].
    destruct (Remove_dir_lookup w path n mode es Hfs) as (es' & H1 & H2 & H3 & H4).
    split.
    + exists es'. repeat split; try done.
    + intros q Hq _. apply H4. by apply onTheWay_ne.
  - destruct (canWrite mode); destruct (nonEmptyDir (es !! n)); cbn [andb negb fst snd];
      (split; [split; [by intros; try split|by intros (? & ? & ?)]|]);
      (split; [|try done]);
      try (exists es; by repeat split).
    + eexists. cbn [fs set_fs]. rewrite lookup_insert_eq. split; [done|].
      split; [by intros; rewrite lookup_insert_ne|].
      split; [by rewrite lookup_insert_eq|]. by split.
    + intros q Hq _. cbn [fs set_fs]. rewrite lookup_insert_ne; [done|].
      intros <-. by rewrite onTheWay_refl in Hq.
Qed.

(** X5: On a provider directory that can be written, for a path element
    that has no entry and with no error of [filepath.Rel]: linking and
    unlinking again gives back the world as it was; unlinking once more
    is an error ([ENOENT]) and changes nothing; and linking twice is
    linking once. *)
Theorem Link_Unlink_round_trip (w : World) (path n : string) (mode : N)
    (es : gmap string Node) :
  fs w !! path = Some (PDir mode es) ->
  es !! n = None ->
  canWrite mode = true ->
  isElement n = true ->
  let w1 := snd (skill.LinkToProvider s n path false w) in
  fst (skill.LinkToProvider s n path false w) = None /\
  skill.UnlinkFromProvider s n path w1 = (None, w) /\
  skill.UnlinkFromProvider s n path w = (Some (PathError ENOENT), w) /\
  skill.LinkToProvider s n path false w1 = (None, w1).
Proof.
  intros Hfs Hn Hcw _ w1. unfold w1.
  rewrite (LinkToProvider_dir w path n false mode es Hfs), Hcw, Hn.
  cbn [nonEmptyDir negb andb fst snd].
  pose proof Hcw as Hcw'. unfold canWrite in Hcw'. apply andb_true_iff in Hcw' as [Hs Hw].
  split; [done|]. split; [|split].
  - unfold skill.UnlinkFromProvider, os.Remove. cbn [fs set_fs].
    rewrite lookup_insert_eq, Hs, lookup_insert_eq, Hw. cbn [negb].
    rewrite insert_insert_eq, delete_insert_eq, (delete_id es n Hn).
    by rewrite set_fs_set_fs, (set_fs_insert_id w path _ Hfs).
  - unfold skill.UnlinkFromProvider, os.Remove. by rewrite Hfs, Hs, Hn.
  - erewrite LinkToProvider_dir; [|cbn [fs set_fs]; by rewrite lookup_insert_eq].
    rewrite Hcw, lookup_insert_eq. cbn [nonEmptyDir negb andb fs set_fs].
    rewrite linkTarget_set_fs. by rewrite !insert_insert_eq.
Qed.

End Linking.

Lemma LinkToProvider_outcome_witness :
  exists es',
    fs (snd (skill.LinkToProvider (skill.NewStore conflict_world) "react-best-practices"
               "/home/u/.claude/skills" true conflict_world))
      !! "/home/u/.claude/skills"
    = Some (PDir mode_0755 es') /\
    es' !! "react-best-practices" = None.
Proof.
  destruct (LinkToProvider_outcome (skill.NewStore conflict_world) conflict_world
              "/home/u/.claude/skills" "react-best-practices" true
              mode_0755 conflict_entries eq_refl eq_refl)
    as (_ & (es' & H1 & _ & _ & _ & H2) & _).
  exists es'. split; [exact H1|]. apply H2. reflexivity.
Defined.

Lemma Link_Unlink_round_trip_witness :
  skill.UnlinkFromProvider (skill.NewStore conflict_world) "vue-testing"
    "/home/u/.claude/skills"
    (snd (skill.LinkToProvider (skill.NewStore conflict_world) "vue-testing"
            "/home/u/.claude/skills" false conflict_world))
  = (None, conflict_world).
Proof.
  apply (Link_Unlink_round_trip (skill.NewStore conflict_world) conflict_world
           "/home/u/.claude/skills" "vue-testing" mode_0755 conflict_entries);
    reflexivity.
Defined.

(** X6: [LinkToProvider] for a path element on a path that is not yet a
    directory.  On a regular file it fails with [ENOTDIR] and changes
    nothing.  Where nothing can be created it fails and the path is
    still missing.  Where the directory can be created it is there
    afterwards, with 0755 less the umask: it holds the link and nothing
    else when the call succeeds, which it does exactly when
    [filepath.Rel] has no error and the umask leaves the directory
    searchable and writable; otherwise the call fails and leaves the new
    directory behind, empty. *)
Theorem LinkToProvider_new_dir (s : skill.Store.t) (w : World) (path n : string)
    (relFails : bool) :
  isElement n = true ->
  let r := skill.LinkToProvider s n path relFails w in
  (forall mode c, fs w !! path = Some (PFile mode c) ->
     r = (Some (PathError ENOTDIR), w)) /\
  (fs w !! path = None -> path ∈ frozen w ->
     fst r <> None /\ fs (snd r) !! path = None) /\
  (fs w !! path = None -> path ∉ frozen w ->
   let mode := N.ldiff mode_0755 (umask w) in
   (fst r = None <-> relFails = false /\ canWrite mode = true) /\
   fs (snd r) !! path
   = Some (PDir mode (if decide (fst r = None)
                      then {[ n := Symlink (skill.linkTarget s n w) ]} else ∅))).
Proof.
  intros _ r. unfold r. split; [|split].
  - intros mode c Hfs. unfold skill.LinkToProvider, os.MkdirAll. by rewrite Hfs.
  - intros Hfs Hf. unfold skill.LinkToProvider, os.MkdirAll. rewrite Hfs.
    by rewrite decide_True.
  - intros Hfs Hf. set (mode := N.ldiff mode_0755 (umask w)).
    unfold skill.LinkToProvider, os.MkdirAll. rewrite Hfs.
    rewrite decide_False by done. cbv zeta. fold mode.
    set (w1 := set_fs w (<[path := PDir mode ∅]> (fs w))).
    assert (Hfs1 : fs w1 !! path = Some (PDir mode ∅)).
    { unfold w1. cbn [fs set_fs]. by rewrite lookup_insert_eq. }
    rewrite (Remove_dir w1 path n _ _ Hfs1), lookup_empty. cbn [snd].
    destruct relFails.
    + cbn [fst snd]. split; [split; [done|by intros [? _]]|].
      by rewrite decide_False.
    + rewrite (Symlink_dir w1 _ path n _ _ Hfs1), lookup_empty.
      destruct (canWrite mode); cbn [fst snd].
      * split; [done|]. rewrite decide_True by done.
        unfold w1. cbn [fs set_fs]. by rewrite lookup_insert_eq, insert_empty.
      * split; [split; [done|by intros [_ ?]]|]. by rewrite decide_False.
Qed.

Lemma LinkToProvider_new_dir_witness :
  fs (snd (skill.LinkToProvider (skill.NewStore unconfigured_world) "auth-jwt"
             "/home/u/.claude/skills" true unconfigured_world))
    !! "/home/u/.claude/skills"
  = Some (PDir (N.ldiff mode_0755 (umask unconfigured_world)) ∅).
Proof.
  destruct (LinkToProvider_new_dir (skill.NewStore unconfigured_world) unconfigured_world
              "/home/u/.claude/skills" "auth-jwt" true eq_refl)
    as (_ & _ & H).
  destruct H as [_ H].
  - reflexivity.
  - vm_compute. discriminate.
  - exact H.
Defined.

(** ** Package [skill]: recording in the lock file *)

Section Recording.
Variable s : skill.Store.t.

(** X8: A lock file that cannot be read or decoded is never overwritten:
    [AddToLock] returns the error and leaves the world as it was.  On a
    document whose skills map is nil it panics. *)
Theorem AddToLock_bad_lock_file (skillName source now : string) (w : World) :
  (forall mode, fs w !! skill.Store.LockFile s = Some (PFile mode Malformed) ->
     readable mode = true ->
     skill.AddToLock s skillName source now w = skill.Return (Some SyntaxError) w) /\
  (forall mode c, fs w !! skill.Store.LockFile s = Some (PFile mode c) ->
     readable mode = false ->
     skill.AddToLock s skillName source now w
     = skill.Return (Some (PathError EACCES)) w) /\
  (forall mode es, fs w !! skill.Store.LockFile s = Some (PDir mode es) ->
     skill.AddToLock s skillName source now w
     = skill.Return (Some (PathError EISDIR)) w) /\
  (forall mode v, fs w !! skill.Store.LockFile s
                  = Some (PFile mode (Encoded (LockFile.mk v None))) ->
     readable mode = true ->
     skill.AddToLock s skillName source now w = skill.Panic).
Proof.
  unfold skill.AddToLock, skill.ReadLockFile, os.ReadFile.
  split; [|split; [|split]].
  - intros mode -> ->. done.
  - intros mode c -> ->. done.
  - intros mode es ->. done.
  - intros mode v -> ->. done.
Qed.

Lemma AddToLock_inv (skillName source now : string) (w w' : World) :
  skill.AddToLock s skillName source now w = skill.Return None w' ->
  exists lock skills,
    skill.ReadLockFile s w = Ok lock /\
    LockFile.Skills lock = Some skills /\
    skill.WriteLockFile s
      (LockFile.mk (LockFile.Version lock)
         (Some (<[skillName := newLockEntry source now]> skills))) w
    = (None, w').
Proof.
  unfold skill.AddToLock.
  destruct (skill.ReadLockFile s w) as [lock|err]; [|done].
  destruct (LockFile.Skills lock) as [skills|] eqn:Hs; [|done].
  fold (newLockEntry source now).
  destruct (skill.WriteLockFile s _ w) as [e w1] eqn:E.
  intros [= -> ->]. eauto.
Qed.

(** X9: Two recordings in a row accumulate: after both succeed, the lock
    file holds the document that was there (the empty version 3 one on a
    fresh system) with the first entry and then the second put in, under
    the version it had. *)
Theorem AddToLock_twice (a srcA t1 b srcB t2 : string) (w w1 w2 : World) :
  skill.AddToLock s a srcA t1 w = skill.Return None w1 ->
  skill.AddToLock s b srcB t2 w1 = skill.Return None w2 ->
  exists v skills0 mode,
    skill.ReadLockFile s w = Ok (LockFile.mk v (Some skills0)) /\
    fs w2 !! skill.Store.LockFile s
    = Some (PFile mode
              (Encoded (LockFile.mk v
                 (Some (<[b := newLockEntry srcB t2]>
                          (<[a := newLockEntry srcA t1]> skills0)))))).
Proof.
  intros (lock & skills0 & Hr & Hs & Hw)%AddToLock_inv
         (lock1 & skills1 & Hr1 & Hs1 & Hw1)%AddToLock_inv.
  destruct lock as [v sk]. cbn [LockFile.Skills LockFile.Version] in *. subst sk.
  exists v, skills0.
  match type of Hw with skill.WriteLockFile _ ?l _ = _ =>
    pose proof (WriteLockFile_ok s l w) as H end.
  rewrite Hw in H.
  destruct (H eq_refl) as [m Hm]. cbn [snd] in Hm.
  unfold skill.ReadLockFile, os.ReadFile in Hr1. rewrite Hm in Hr1.
  destruct (readable m); [|done]. injection Hr1 as <-.
  cbn [LockFile.Skills LockFile.Version] in *. injection Hs1 as <-.
  match type of Hw1 with skill.WriteLockFile _ ?l _ = _ =>
    pose proof (WriteLockFile_ok s l w1) as H1 end.
  rewrite Hw1 in H1.
  destruct (H1 eq_refl) as [m1 Hm1]. cbn [snd] in Hm1. eauto.
Qed.

End Recording.

Lemma AddToLock_bad_lock_file_witness :
  skill.AddToLock (skill.NewStore corrupt_ledger_world) "a" "o/r" "2025-06-01T00:00:00Z"
    corrupt_ledger_world
  = skill.Return (Some SyntaxError) corrupt_ledger_world.
Proof.
  apply (AddToLock_bad_lock_file (skill.NewStore corrupt_ledger_world) "a" "o/r"
           "2025-06-01T00:00:00Z" corrupt_ledger_world) with (mode := mode_0644);
    reflexivity.
Defined.

Lemma AddToLock_twice_witness :
  exists v skills0 mode,
    skill.ReadLockFile (skill.NewStore fresh_world) fresh_world
    = Ok (LockFile.mk v (Some skills0)) /\
    fs (snd (skill.WriteLockFile (skill.NewStore fresh_world)
               (LockFile.mk 3 (Some (<["b" := newLockEntry "o/r" "t2"]>
                                       (<["a" := newLockEntry "o/r" "t1"]> ∅))))
               (snd (skill.WriteLockFile (skill.NewStore fresh_world)
                       (LockFile.mk 3 (Some (<["a" := newLockEntry "o/r" "t1"]> ∅)))
                       fresh_world))))
      !! skill.Store.LockFile (skill.NewStore fresh_world)
    = Some (PFile mode
              (Encoded (LockFile.mk v
                 (Some (<["b" := newLockEntry "o/r" "t2"]>
                          (<["a" := newLockEntry "o/r" "t1"]> skills0)))))).
Proof.
  apply (AddToLock_twice (skill.NewStore fresh_world) "a" "o/r" "t1" "b" "o/r" "t2"
           fresh_world
           (snd (skill.WriteLockFile (skill.NewStore fresh_world)
                   (LockFile.mk 3 (Some (<["a" := newLockEntry "o/r" "t1"]> ∅)))
                   fresh_world))).
  - vm_compute. reflexivity.
  - vm_compute. reflexivity.
Defined.

(** ** What an apply leaves alone *)

Section ApplyFrame.
Import tui.

Lemma MkdirAll_frame (path : string) (perm : N) (w : World) :
  HOME (snd (os.MkdirAll path perm w)) = HOME w /\
  umask (snd (os.MkdirAll path perm w)) = umask w /\
  frozen (snd (os.MkdirAll path perm w)) = frozen w /\
  (forall q, q <> path -> fs (snd (os.MkdirAll path perm w)) !! q = fs w !! q) /\
  (forall mode es, fs w !! path = Some (PDir mode es) ->
     snd (os.MkdirAll path perm w) = w).
Proof.
  unfold os.MkdirAll.
  destruct (fs w !! path) as [[mode es|mode c]|]; cbn [snd]; try done.
  destruct (decide _); cbn [snd]; try done.
  repeat split; try done. intros q Hne. cbn [fs set_fs]. by rewrite lookup_insert_ne.
Qed.

Lemma applyItems_frame (p : Provider.t) (skills : list SkillEntry.t) (w : World) :
  HOME (applyItems p skills w) = HOME w /\
  umask (applyItems p skills w) = umask w /\
  frozen (applyItems p skills w) = frozen w /\
  (forall q, q <> Provider.Path p -> fs (applyItems p skills w) !! q = fs w !! q).
Proof.
  destruct (fs w !! Provider.Path p) as [[mode es|mode c]|] eqn:E.
  - rewrite (applyItems_dir p skills w mode es E). repeat split; try done.
    intros q Hne. cbn [fs set_fs]. by rewrite lookup_insert_ne.
  - rewrite applyItems_no_dir; [done|]. intros ? ?. by rewrite E.
  - rewrite applyItems_no_dir; [done|]. intros ? ?. by rewrite E.
Qed.

Lemma applySkillChanges_snd (p : Provider.t) (skills : list SkillEntry.t) (w : World) :
  snd (applySkillChanges p skills w)
  = applyItems p skills
      (if negb (Provider.Configured p)
       then snd (os.MkdirAll (Provider.Path p) mode_0755 w) else w).
Proof. done. Qed.

(** X10: For a plan whose names are path elements, as the names read
    from a directory are, and whatever the provider value and the world:
    an apply touches nothing but the provider's directory, what is under
    it and the directories on the way to it.  Every other path is as
    before, as are the environment's [HOME] and the umask.  In
    particular the central store, when its path is neither on the way
    to the provider's nor under it, lists the same skills afterwards. *)
Theorem applySkillChanges_frame (p : Provider.t) (skills : list SkillEntry.t) (w : World) :
  Forall (fun s => isElement (SkillEntry.Name s) = true) skills ->
  let w' := snd (applySkillChanges p skills w) in
  HOME w' = HOME w /\ umask w' = umask w /\
  (forall q, onTheWay q (Provider.Path p) = false ->
             onTheWay (Provider.Path p) q = false ->
             fs w' !! q = fs w !! q) /\
  (onTheWay (skillsDir w) (Provider.Path p) = false ->
   onTheWay (Provider.Path p) (skillsDir w) = false ->
   skill.ListInstalled (skill.NewStore w') w' = skill.ListInstalled (skill.NewStore w) w).
Proof.
  intros _ w'. unfold w'. rewrite applySkillChanges_snd.
  set (w1 := if negb (Provider.Configured p)
             then snd (os.MkdirAll (Provider.Path p) mode_0755 w) else w).
  assert (H1 : HOME w1 = HOME w /\ umask w1 = umask w /\ frozen w1 = frozen w /\
               (forall q, q <> Provider.Path p -> fs w1 !! q = fs w !! q)).
  { unfold w1. destruct (negb (Provider.Configured p)); [|done].
    destruct (MkdirAll_frame (Provider.Path p) mode_0755 w) as (? & ? & ? & ? & _). done. }
  destruct H1 as (Hh & Hu & Hf & Hq).
  destruct (applyItems_frame p skills w1) as (Hh' & Hu' & Hf' & Hq').
  assert (Hfs : forall q, q <> Provider.Path p ->
                  fs (applyItems p skills w1) !! q = fs w !! q).
  { intros q Hne. by rewrite Hq', Hq. }
  split; [congruence|]. split; [congruence|]. split.
  - intros q Hne%onTheWay_ne _. by apply Hfs.
  - intros Hne%onTheWay_ne _. unfold skill.ListInstalled, skill.NewStore, os.ReadDir.
    cbn [skill.Store.BaseDir]. rewrite Hh', Hh. by rewrite Hfs.
Qed.

(** The entries of the provider directory under a plan that never
    removes, and under one that never creates. *)
Lemma fold_itemEntries_no_remove (mode : N) (skills : list SkillEntry.t)
    (es : gmap string Node) (n : string) :
  Forall (fun s => actionOf s <> RemoveLink) skills ->
  fold_left (fun es s => itemEntries mode s es) skills es !! n = es !! n \/
  (es !! n = None /\
   fold_left (fun es s => itemEntries mode s es) skills es !! n
   = Some (Symlink (ToStore n))).
Proof.
  intros Hall. revert es. induction Hall as [|s skills Hs _ IH]; intros es; [by left|].
  cbn [fold_left].
  assert (Hstep : itemEntries mode s es !! n = es !! n \/
                  (es !! n = None /\
                   itemEntries mode s es !! n = Some (Symlink (ToStore n)))).
  { rewrite lookup_itemEntries. destruct (decide (n = SkillEntry.Name s)) as [->|]; [|by left].
    destruct (actionOf s); [|done|by left]. cbn [entryAfter].
    destruct (es !! SkillEntry.Name s); [by left|].
    destruct (canWrite mode); [by right|by left]. }
  destruct (IH (itemEntries mode s es)) as [H|[H1 H2]].
  - rewrite H. exact Hstep.
  - destruct Hstep as [H|[H _]]; [right; by rewrite <- H|]. right. done.
Qed.

Lemma fold_itemEntries_no_create (mode : N) (skills : list SkillEntry.t)
    (es : gmap string Node) (n : string) :
  Forall (fun s => actionOf s <> CreateLink) skills ->
  fold_left (fun es s => itemEntries mode s es) skills es !! n = es !! n \/
  fold_left (fun es s => itemEntries mode s es) skills es !! n = None.
Proof.
  intros Hall. revert es. induction Hall as [|s skills Hs _ IH]; intros es; [by left|].
  cbn [fold_left].
  assert (Hstep : itemEntries mode s es !! n = es !! n \/
                  itemEntries mode s es !! n = None).
  { rewrite lookup_itemEntries. destruct (decide (n = SkillEntry.Name s)) as [->|]; [|by left].
    destruct (actionOf s); [done| |by left]. cbn [entryAfter].
    destruct (es !! SkillEntry.Name s) as [[|[|c cs]|t]|]; try (by left);
      destruct (canWrite mode); auto. }
  destruct (IH (itemEntries mode s es)) as [H|H].
  - rewrite H. exact Hstep.
  - by right.
Qed.

Lemma applySkillChanges_on_dir (p : Provider.t) (skills : list SkillEntry.t) (w : World)
    (mode : N) (es : gmap string Node) :
  fs w !! Provider.Path p = Some (PDir mode es) ->
  snd (applySkillChanges p skills w)
  = set_fs w (<[Provider.Path p :=
                 PDir mode (fold_left (fun es s => itemEntries mode s es) skills es)]>
                (fs w)).
Proof.
  intros Hfs. rewrite applySkillChanges_snd.
  assert ((if negb (Provider.Configured p)
           then snd (os.MkdirAll (Provider.Path p) mode_0755 w) else w) = w) as ->.
  { destruct (negb (Provider.Configured p)); [|done].
    by apply (MkdirAll_frame (Provider.Path p) mode_0755 w) with (mode := mode) (es := es). }
  by apply applyItems_dir.
Qed.

(** X11: After the key [a] (select all), enter removes nothing: every entry
    of the provider directory is still there, unchanged, and what is new
    is a managed link.  After the key [n] (select none), enter creates
    nothing: every entry is as it was, or gone. *)
Theorem select_all_none_then_enter (m : manageModel.t) (w : World) (mode : N)
    (es : gmap string Node) :
  fs w !! Provider.Path (manageModel.provider m) = Some (PDir mode es) ->
  (exists mA esA,
     updateSelect KeyAll m = Some mA /\
     fs (snd (onEnter mA w)) !! Provider.Path (manageModel.provider m)
     = Some (PDir mode esA) /\
     forall n, esA !! n = es !! n \/
               (es !! n = None /\ esA !! n = Some (Symlink (ToStore n)))) /\
  (exists mN esN,
     updateSelect KeyNone m = Some mN /\
     fs (snd (onEnter mN w)) !! Provider.Path (manageModel.provider m)
     = Some (PDir mode esN) /\
     forall n, esN !! n = es !! n \/ esN !! n = None).
Proof.
  intros Hfs. split.
  - eexists _, _. split; [done|]. unfold onEnter. cbv zeta. cbn [snd withSkills
      manageModel.provider manageModel.skills].
    rewrite (applySkillChanges_on_dir _ _ w mode es Hfs). cbn [fs set_fs].
    rewrite lookup_insert_eq. split; [done|]. intros n.
    apply fold_itemEntries_no_remove. unfold setSelected.
    apply Forall_forall. intros s (s0 & -> & _)%elem_of_map.
    unfold actionOf. cbn [SkillEntry.Selected SkillEntry.Linked]. by destruct (SkillEntry.Linked s0).
  - eexists _, _. split; [done|]. unfold onEnter. cbv zeta. cbn [snd withSkills
      manageModel.provider manageModel.skills].
    rewrite (applySkillChanges_on_dir _ _ w mode es Hfs). cbn [fs set_fs].
    rewrite lookup_insert_eq. split; [done|]. intros n.
    apply fold_itemEntries_no_create. unfold setSelected.
    apply Forall_forall. intros s (s0 & -> & _)%elem_of_map.
    unfold actionOf. cbn [SkillEntry.Selected SkillEntry.Linked]. by destruct (SkillEntry.Linked s0).
Qed.

End ApplyFrame.

Lemma applySkillChanges_frame_witness :
  let w' := snd (tui.applySkillChanges claude_configured
                   (tui.setSelected (fun _ => false)
                      (tui.loadSkillsForProvider claude_configured conflict_world))
                   conflict_world) in
  skill.ListInstalled (skill.NewStore w') w'
  = skill.ListInstalled (skill.NewStore conflict_world) conflict_world.
Proof.
  destruct (applySkillChanges_frame claude_configured
              (tui.setSelected (fun _ => false)
                 (tui.loadSkillsForProvider claude_configured conflict_world))
              conflict_world) as (_ & _ & _ & H).
  - apply (bool_decide_unpack _). vm_compute. reflexivity.
  - apply H; reflexivity.
Defined.

(** ** The manage view: groups and the display list *)

Section DisplayList.
Import tui.

Lemma concat_one_key {B} (gs : list string) (g0 : string) (x : B)
    (F : string -> list B) :
  NoDup gs ->
  concat (map (fun g => (if decide (g0 = g) then [x] else []) ++ F g) gs)
  ≡ₚ (if decide (g0 ∈ gs) then [x] else []) ++ concat (map F gs).
Proof.
  induction 1 as [|g gs Hnin Hnd IH]; [done|]. cbn [map concat]. rewrite IH.
  destruct (decide (g0 = g)) as [->|Hne].
  - rewrite (decide_True (P := g ∈ g :: gs)) by left.
    rewrite (decide_False (P := g ∈ gs)) by done. simpl. done.
  - destruct (decide (g0 ∈ gs)) as [Hin|Hnin'].
    + rewrite (decide_True (P := g0 ∈ g :: gs)) by (by right). simpl.
      by rewrite Permutation_middle.
    + rewrite (decide_False (P := g0 ∈ g :: gs)); [done|].
      by intros [?|?]%elem_of_cons.
Qed.

(** Splitting a list by a key and putting the parts together again
    loses and repeats nothing. *)
Lemma concat_by_key {A B} (key : A -> string) (f : A -> B) (gs : list string)
    (l : list A) :
  NoDup gs ->
  Forall (fun x => key x ∈ gs) l ->
  concat (map (fun g => map f (filter (fun x => key x = g) l)) gs) ≡ₚ map f l.
Proof.
  intros Hnd. induction 1 as [|x l Hx _ IH].
  - induction gs as [|g gs IHg]; [done|]. apply NoDup_cons in Hnd as [_ Hnd].
    cbn [map concat]. rewrite filter_nil. simpl. by apply IHg.
  - trans (concat (map (fun g => (if decide (key x = g) then [f x] else [])
                                 ++ map f (filter (fun x => key x = g) l)) gs)).
    + apply perm_of_eq. f_equal. apply map_ext. intros g.
      destruct (decide (key x = g)) as [Heq|Hne].
      * by rewrite filter_cons_True.
      * by rewrite filter_cons_False.
    + rewrite concat_one_key by done. rewrite decide_True by done.
      cbn [map app]. by rewrite IH.
Qed.

Lemma elem_of_zip_seq {A} (l : list A) (k i : nat) (x : A) :
  (i, x) ∈ zip (seq k (length l)) l <-> k <= i /\ l !! (i - k) = Some x.
Proof.
  revert k. induction l as [|y l IH]; intros k; cbn [length seq zip zip_with].
  - split; [by intros ?%elem_of_nil|]. by intros [_ ?].
  - rewrite elem_of_cons, IH. split.
    + intros [[= -> ->]|[Hle Hl]].
      * split; [lia|]. by rewrite Nat.sub_diag.
      * split; [lia|]. by replace (i - k) with (S (i - S k)) by lia.
    + intros [Hle Hl]. destruct (decide (i = k)) as [->|Hne].
      * left. rewrite Nat.sub_diag in Hl. by injection Hl as ->.
      * right. split; [lia|]. by replace (i - k) with (S (i - S k)) in Hl by lia.
Qed.

(** The indices [buildDisplayList] files under group [g]. *)
Lemma group_indices (skills : list SkillEntry.t) (g : string) (i : nat) :
  i ∈ default [] (groupMapOf skills !! g) <->
  exists s, skills !! i = Some s /\ SkillEntry.Group s = g.
Proof.
  rewrite groupMap_indices, elem_of_map. split.
  - intros ([i' s] & -> & [Hg Hin]%list_elem_of_filter).
    apply elem_of_zip_seq in Hin as [_ Hl]. rewrite Nat.sub_0_r in Hl.
    exists s. by split.
  - intros (s & Hl & Hg). exists (i, s). split; [done|].
    apply list_elem_of_filter. split; [done|].
    apply elem_of_zip_seq. split; [lia|]. by rewrite Nat.sub_0_r.
Qed.

Lemma buildDisplayList_groups (skills : list SkillEntry.t) :
  fst (buildDisplayList skills)
  = map (fun g => SkillGroup.mk g (default [] (groupMapOf skills !! g)))
        (groupNamesOf (groupMapOf skills)).
Proof. done. Qed.

Lemma length_concat_map {A B} (f : A -> list B) (l : list A) :
  length (concat (map f l)) = list_sum (map (fun x => length (f x)) l).
Proof. induction l as [|x l IH]; [done|]. cbn. by rewrite length_app, IH. Qed.

Lemma length_flat_map_header {A B} (h : A -> B) (f : A -> list B) (l : list A) :
  length (flat_map (fun x => h x :: f x) l) = length l + length (concat (map f l)).
Proof.
  induction l as [|x l IH]; [done|]. cbn. rewrite !length_app, IH. lia.
Qed.

(** X12: What [buildDisplayList] builds: its groups split the indices of the
    skills, each index in exactly one group; no group is empty and each
    index of a group points at a skill of that group; the display list
    has one row per group and one per skill; a group row points at its
    group and a skill row at a skill. *)
Theorem buildDisplayList_partition (skills : list SkillEntry.t) :
  let groups := fst (buildDisplayList skills) in
  let displayList := snd (buildDisplayList skills) in
  concat (map SkillGroup.Skills groups) ≡ₚ seq 0 (length skills) /\
  Forall (fun g =>
            SkillGroup.Skills g <> [] /\
            Forall (fun i => exists s, skills !! i = Some s /\
                                       SkillEntry.Group s = SkillGroup.Name g)
                   (SkillGroup.Skills g))
         groups /\
  length displayList = length groups + length skills /\
  Forall (fun item =>
            if displayItem.isGroup item
            then exists g, groups !! displayItem.groupIdx item = Some g /\
                           SkillGroup.Name g = displayItem.groupName item
            else displayItem.skillIdx item < length skills)
         displayList.
Proof.
  intros groups displayList.
  set (gs := groupNamesOf (groupMapOf skills)).
  set (idxOf := fun g => default [] (groupMapOf skills !! g)).
  assert (Hgroups : groups = map (fun g => SkillGroup.mk g (idxOf g)) gs) by done.
  assert (Hconcat : concat (map idxOf gs) ≡ₚ seq 0 (length skills)).
  { trans (map fst (zip (seq 0 (length skills)) skills)).
    - rewrite <- (concat_by_key (fun ix => SkillEntry.Group (snd ix)) fst gs).
      + apply perm_of_eq. f_equal. apply map_ext. intros g. unfold idxOf.
        by rewrite groupMap_indices.
      + apply groupNames_NoDup.
      + apply Forall_forall. intros [i s] [_ Hl]%elem_of_zip_seq.
        apply elem_of_groupNames. exists s. split; [|done].
        by eapply list_elem_of_lookup_2.
    - apply perm_of_eq. rewrite map_fmap. apply fst_zip. by rewrite length_seq. }
  split; [|split; [|split]].
  - rewrite Hgroups, map_map. exact Hconcat.
  - rewrite Hgroups. apply Forall_forall. intros g (g' & -> & Hg')%elem_of_map.
    cbn [SkillGroup.Skills SkillGroup.Name]. split.
    + apply elem_of_groupNames in Hg' as (s & [i Hi]%list_elem_of_lookup_1 & Hs).
      assert (i ∈ idxOf g') as Hin by (apply group_indices; eauto).
      intros Hnil. rewrite Hnil in Hin. by apply elem_of_nil in Hin.
    + apply Forall_forall. intros i Hi. by apply group_indices.
  - unfold displayList, buildDisplayList. cbv zeta. cbn [snd]. fold gs.
    rewrite (length_flat_map_header
               (fun g : nat * string => displayItem.mk true (fst g) 0 (snd g))
               (fun g : nat * string =>
                  map (fun skillIdx => displayItem.mk false 0 skillIdx (snd g))
                      (default [] (groupMapOf skills !! snd g)))).
    rewrite length_zip, length_seq, Nat.min_id.
    rewrite Hgroups, length_map. f_equal.
    trans (length (concat (map idxOf gs))); [|by rewrite Hconcat, length_seq].
    rewrite !length_concat_map. f_equal.
    assert (Hz : forall (k : nat) (l : list string),
              map (fun x : nat * string =>
                     length (map (fun skillIdx => displayItem.mk false 0 skillIdx (snd x))
                                 (default [] (groupMapOf skills !! snd x))))
                  (zip (seq k (length l)) l)
              = map (fun x => length (idxOf x)) l).
    { intros k l. revert k. induction l as [|y l IHl]; intros k; [done|].
      cbn [length seq zip zip_with map snd]. rewrite length_map. f_equal. apply IHl. }
    apply Hz.
  - unfold displayList, buildDisplayList. cbv zeta. cbn [snd]. fold gs.
    apply Forall_forall. intros item Hitem.
    apply list_elem_of_In, in_flat_map in Hitem as ([gi g] & Hin & Hitem).
    apply list_elem_of_In, elem_of_zip_seq in Hin as [_ Hl]. rewrite Nat.sub_0_r in Hl.
    cbn [fst snd] in Hitem. destruct Hitem as [<-|Hitem].
    + cbn [displayItem.isGroup displayItem.groupIdx displayItem.groupName].
      exists (SkillGroup.mk g (idxOf g)). split; [|done].
      rewrite Hgroups, map_fmap, list_lookup_fmap, Hl. done.
    + apply list_elem_of_In, elem_of_map in Hitem as (i & -> & Hi).
      cbn [displayItem.isGroup displayItem.skillIdx].
      apply group_indices in Hi as (s & Hs & _). by eapply lookup_lt_Some.
Qed.

End DisplayList.

(** ** The manage view: selecting *)

Section Selecting.
Import tui.

Lemma setSelectedAt_Some (skills : list SkillEntry.t) (i : nat) (v : bool) :
  i < length skills ->
  exists skills',
    setSelectedAt skills i v = Some skills' /\
    length skills' = length skills /\
    forall j, skills' !! j
              = (fun s => if decide (j = i) then withSelected s v else s) <$> skills !! j.
Proof.
  intros Hi. destruct (lookup_lt_is_Some_2 skills i Hi) as [s Hs].
  unfold setSelectedAt. rewrite Hs. eexists. split; [done|].
  split; [by rewrite length_insert|]. intros j.
  destruct (decide (j = i)) as [->|Hne].
  - rewrite list_lookup_insert_eq by done. by rewrite Hs.
  - rewrite list_lookup_insert_ne by done. by destruct (skills !! j).
Qed.

Lemma setSelectedAll_Some (skills : list SkillEntry.t) (idxs : list nat) (v : bool) :
  Forall (fun i => i < length skills) idxs ->
  exists skills',
    setSelectedAll skills idxs v = Some skills' /\
    length skills' = length skills /\
    forall j, skills' !! j
              = (fun s => if decide (j ∈ idxs) then withSelected s v else s) <$> skills !! j.
Proof.
  revert skills. induction idxs as [|i idxs IH]; intros skills Hall.
  - exists skills. split; [done|]. split; [done|]. intros j.
    destruct (skills !! j) as [s|]; [|done]. cbn.
    by rewrite decide_False by apply not_elem_of_nil.
  - apply Forall_cons in Hall as [Hi Hall]. cbn [setSelectedAll].
    destruct (setSelectedAt_Some skills i v Hi) as (sk1 & -> & Hlen1 & Hl1).
    destruct (IH sk1) as (sk2 & -> & Hlen2 & Hl2); [by rewrite Hlen1|].
    exists sk2. split; [done|]. split; [congruence|]. intros j.
    rewrite Hl2, Hl1. destruct (skills !! j) as [s|]; [|done]. cbn.
    f_equal. destruct (decide (j = i)) as [->|Hne].
    + rewrite (decide_True (P := i ∈ i :: idxs)) by left.
      by destruct (decide (i ∈ idxs)).
    + destruct (decide (j ∈ idxs)) as [Hin|Hnin].
      * by rewrite (decide_True (P := j ∈ i :: idxs)) by (by right).
      * rewrite (decide_False (P := j ∈ i :: idxs)); [done|].
        by intros [?|?]%elem_of_cons.
Qed.

(** On indices that all hold the same flag [v]. *)
Lemma allSelected_uniform (skills : list SkillEntry.t) (idxs : list nat) (v : bool) :
  Forall (fun i => exists s, skills !! i = Some s /\ SkillEntry.Selected s = v) idxs ->
  allSelected skills idxs = Some (match idxs with [] => true | _ => v end).
Proof.
  induction 1 as [|i idxs (s & Hs & Hv) Hall IH]; [done|].
  cbn [allSelected]. rewrite Hs, Hv. destruct v; cbn [negb]; [|done].
  rewrite IH. by destruct idxs.
Qed.

Lemma selectedFlags_uniform (skills : list SkillEntry.t) (idxs : list nat) (v hs hu : bool) :
  Forall (fun i => exists s, skills !! i = Some s /\ SkillEntry.Selected s = v) idxs ->
  selectedFlags skills idxs hs hu
  = Some (match idxs with [] => (hs, hu) | _ => (hs || v, hu || negb v) end).
Proof.
  intros Hall. revert hs hu. induction Hall as [|i idxs (s & Hs & Hv) Hall IH];
    intros hs hu; [done|].
  cbn [selectedFlags]. rewrite Hs, Hv. destruct v; rewrite IH; destruct idxs; cbn;
    by rewrite ?orb_true_r, ?orb_false_r.
Qed.

(** X13: [toggleGroup] on a group with valid indices and at least one skill:
    it does not panic, it writes to every skill of the group the
    negation of "all selected" and to no other skill, so that afterwards
    the group is all selected exactly when it was not before, and is
    never partly selected. *)
Theorem toggleGroup_flips (m : manageModel.t) (groupIdx : nat) (group : SkillGroup.t) :
  manageModel.groups m !! groupIdx = Some group ->
  Forall (fun i => i < length (manageModel.skills m)) (SkillGroup.Skills group) ->
  SkillGroup.Skills group <> [] ->
  exists allSel m',
    isGroupAllSelected m groupIdx = Some allSel /\
    toggleGroup m groupIdx = Some m' /\
    isGroupAllSelected m' groupIdx = Some (negb allSel) /\
    isGroupPartialSelected m' groupIdx = Some false /\
    (forall j, manageModel.skills m' !! j
               = (fun s => if decide (j ∈ SkillGroup.Skills group)
                           then withSelected s (negb allSel) else s)
                 <$> manageModel.skills m !! j) /\
    manageModel.groups m' = manageModel.groups m /\
    manageModel.displayList m' = manageModel.displayList m /\
    manageModel.selectedIdx m' = manageModel.selectedIdx m.
Proof.
  intros Hg Hvalid Hne.
  assert (Hall : exists allSel, allSelected (manageModel.skills m) (SkillGroup.Skills group)
                                = Some allSel).
  { induction Hvalid as [|i idxs Hi _ IH]; [by eexists|].
    destruct (lookup_lt_is_Some_2 _ i Hi) as [s Hs]. cbn [allSelected]. rewrite Hs.
    destruct (negb (SkillEntry.Selected s)); [by eexists|].
    destruct idxs; [by eexists|]. by apply IH. }
  destruct Hall as [allSel Hall].
  destruct (setSelectedAll_Some _ _ (negb allSel) Hvalid) as (sk' & Hset & Hlen & Hl).
  exists allSel, (withSkills m sk').
  assert (Hallm : isGroupAllSelected m groupIdx = Some allSel).
  { unfold isGroupAllSelected. by rewrite Hg. }
  assert (Hunif : Forall (fun i => exists s, sk' !! i = Some s /\
                                             SkillEntry.Selected s = negb allSel)
                         (SkillGroup.Skills group)).
  { apply Forall_forall. intros i Hi. rewrite Hl.
    rewrite Forall_forall in Hvalid.
    destruct (lookup_lt_is_Some_2 _ i (Hvalid i Hi)) as [s Hs]. rewrite Hs. cbn.
    rewrite decide_True by done. by eexists. }
  split; [done|]. split; [unfold toggleGroup; by rewrite Hg, Hallm, Hset|].
  split; [|split; [|done]].
  - unfold isGroupAllSelected. cbn [withSkills manageModel.groups manageModel.skills].
    rewrite Hg, (allSelected_uniform _ _ _ Hunif). by destruct (SkillGroup.Skills group).
  - unfold isGroupPartialSelected. cbn [withSkills manageModel.groups manageModel.skills].
    rewrite Hg, (selectedFlags_uniform _ _ _ _ _ Hunif).
    destruct (SkillGroup.Skills group); [done|]. by destruct allSel.
Qed.

Lemma allSelected_true_flags (skills : list SkillEntry.t) (idxs : list nat) (hs hu : bool) :
  allSelected skills idxs = Some true ->
  selectedFlags skills idxs hs hu
  = Some (match idxs with [] => hs | _ => true end, hu).
Proof.
  revert hs. induction idxs as [|i idxs IH]; intros hs; [done|].
  cbn [allSelected selectedFlags]. destruct (skills !! i) as [s|]; [|done].
  destruct (SkillEntry.Selected s); cbn [negb]; [|done].
  intros H. rewrite (IH true H). by destruct idxs.
Qed.

Lemma allSelected_None_flags (skills : list SkillEntry.t) (idxs : list nat) (hs hu : bool) :
  allSelected skills idxs = None -> selectedFlags skills idxs hs hu = None.
Proof.
  revert hs hu. induction idxs as [|i idxs IH]; intros hs hu; [done|].
  cbn [allSelected selectedFlags]. destruct (skills !! i) as [s|]; [|done].
  destruct (SkillEntry.Selected s); cbn [negb]; [|done]. apply IH.
Qed.

Lemma flags_unselected (skills : list SkillEntry.t) (idxs : list nat) (hs hu a : bool) :
  selectedFlags skills idxs hs hu = Some (a, true) ->
  hu = true \/ allSelected skills idxs = Some false.
Proof.
  revert hs hu. induction idxs as [|i idxs IH]; intros hs hu.
  - cbn. intros [= _ ->]. by left.
  - cbn [allSelected selectedFlags]. destruct (skills !! i) as [s|]; [|done].
    destruct (SkillEntry.Selected s); cbn [negb]; [|by right]. apply IH.
Qed.

(** X14: A group is never both all selected and partly selected; and where
    [isGroupAllSelected] panics on a bad index, so does
    [isGroupPartialSelected] (which, unlike it, reads every index even
    after an unselected skill). *)
Theorem all_and_partial_exclusive (m : manageModel.t) (groupIdx : nat) :
  (isGroupAllSelected m groupIdx = Some true ->
   isGroupPartialSelected m groupIdx = Some false) /\
  (isGroupPartialSelected m groupIdx = Some true ->
   isGroupAllSelected m groupIdx = Some false) /\
  (isGroupAllSelected m groupIdx = None -> isGroupPartialSelected m groupIdx = None).
Proof.
  unfold isGroupAllSelected, isGroupPartialSelected.
  destruct (manageModel.groups m !! groupIdx) as [group|]; [|done].
  split; [|split].
  - intros H. rewrite (allSelected_true_flags _ _ false false H).
    by destruct (SkillGroup.Skills group).
  - destruct (selectedFlags _ _ false false) as [[a b]|] eqn:E; [|done].
    intros [= Hab]. apply andb_true_iff in Hab as [-> ->].
    by destruct (flags_unselected _ _ _ _ _ E).
  - intros H. by rewrite (allSelected_None_flags _ _ false false H).
Qed.

End Selecting.

Section SelectKeys.
Import tui.

Lemma zip_seq_groups (l : list SkillEntry.t) (k : nat) :
  map (fun ix : nat * SkillEntry.t => (fst ix, SkillEntry.Group (snd ix)))
      (zip (seq k (length l)) l)
  = zip (seq k (length l)) (map SkillEntry.Group l).
Proof.
  revert k. induction l as [|s l IH]; intros k; [done|].
  cbn [length seq zip zip_with map fst snd]. f_equal. apply IH.
Qed.

Lemma groupMap_fold_ext (l1 l2 : list (nat * SkillEntry.t)) (gm0 : gmap string (list nat)) :
  map (fun ix : nat * SkillEntry.t => (fst ix, SkillEntry.Group (snd ix))) l1
  = map (fun ix : nat * SkillEntry.t => (fst ix, SkillEntry.Group (snd ix))) l2 ->
  fold_left
    (fun gm (ix : nat * SkillEntry.t) =>
       <[SkillEntry.Group (snd ix) :=
           default [] (gm !! SkillEntry.Group (snd ix)) ++ [fst ix]]> gm) l1 gm0
  = fold_left
      (fun gm (ix : nat * SkillEntry.t) =>
         <[SkillEntry.Group (snd ix) :=
             default [] (gm !! SkillEntry.Group (snd ix)) ++ [fst ix]]> gm) l2 gm0.
Proof.
  revert l2 gm0. induction l1 as [|[i1 s1] l1 IH]; intros [|[i2 s2] l2] gm0; try done.
  cbn [map fst snd fold_left]. intros [= -> Hg Hrest]. rewrite Hg. by apply IH.
Qed.

(** The groups and the display list depend on the skills' groups only. *)
Lemma buildDisplayList_ext (l1 l2 : list SkillEntry.t) :
  map SkillEntry.Group l1 = map SkillEntry.Group l2 ->
  buildDisplayList l1 = buildDisplayList l2.
Proof.
  intros H.
  assert (Hlen : length l1 = length l2).
  { by rewrite <- (length_map SkillEntry.Group l1), H, length_map. }
  assert (Hgm : groupMapOf l1 = groupMapOf l2).
  { unfold groupMapOf. apply groupMap_fold_ext.
    by rewrite !zip_seq_groups, H, Hlen. }
  unfold buildDisplayList. by rewrite Hgm.
Qed.

Lemma map_field_preserved {B} (proj : SkillEntry.t -> B) (l l' : list SkillEntry.t)
    (g : nat -> SkillEntry.t -> SkillEntry.t) :
  (forall j, l' !! j = g j <$> l !! j) ->
  (forall j s, proj (g j s) = proj s) ->
  map proj l' = map proj l.
Proof.
  intros Hl Hp. rewrite !map_fmap. apply list_eq. intros j.
  rewrite !list_lookup_fmap, Hl. destruct (l !! j) as [s|]; [|done].
  cbn. by rewrite Hp.
Qed.

Lemma at_int_Some {A} (l : list A) (i : Z) :
  (0 <= i)%Z -> (i < Z.of_nat (length l))%Z -> exists x, at_int l i = Some x /\ x ∈ l.
Proof.
  intros H0 Hlt. unfold at_int. rewrite (proj2 (Z.ltb_ge i 0)) by done.
  destruct (lookup_lt_is_Some_2 l (Z.to_nat i)) as [x Hx]; [lia|].
  exists x. split; [done|]. by eapply list_elem_of_lookup_2.
Qed.

(** X15: On a model whose groups and display list are those of its skills,
    with the cursor not negative, the selection keys never panic; they
    write [Selected] fields only (names, groups, linked flags, cursor and
    provider are as before), so the model stays consistent. *)
Theorem updateSelect_safe (key : SelectKey) (m : manageModel.t) :
  consistent m ->
  (0 <= manageModel.selectedIdx m)%Z ->
  exists m',
    updateSelect key m = Some m' /\
    consistent m' /\
    map SkillEntry.Name (manageModel.skills m') = map SkillEntry.Name (manageModel.skills m) /\
    map SkillEntry.Group (manageModel.skills m') = map SkillEntry.Group (manageModel.skills m) /\
    map SkillEntry.Linked (manageModel.skills m') = map SkillEntry.Linked (manageModel.skills m) /\
    manageModel.selectedIdx m' = manageModel.selectedIdx m /\
    manageModel.provider m' = manageModel.provider m.
Proof.
  intros [Hgroups Hdisplay] Hidx.
  assert (Hkeep : forall skills',
             map SkillEntry.Name skills' = map SkillEntry.Name (manageModel.skills m) ->
             map SkillEntry.Group skills' = map SkillEntry.Group (manageModel.skills m) ->
             map SkillEntry.Linked skills' = map SkillEntry.Linked (manageModel.skills m) ->
             consistent (withSkills m skills') /\
             map SkillEntry.Name (manageModel.skills (withSkills m skills'))
             = map SkillEntry.Name (manageModel.skills m) /\
             map SkillEntry.Group (manageModel.skills (withSkills m skills'))
             = map SkillEntry.Group (manageModel.skills m) /\
             map SkillEntry.Linked (manageModel.skills (withSkills m skills'))
             = map SkillEntry.Linked (manageModel.skills m) /\
             manageModel.selectedIdx (withSkills m skills') = manageModel.selectedIdx m /\
             manageModel.provider (withSkills m skills') = manageModel.provider m).
  { intros skills' Hn Hg Hl. split; [|done].
    unfold consistent. cbn [withSkills manageModel.groups manageModel.displayList
      manageModel.skills]. by rewrite (buildDisplayList_ext _ _ Hg). }
  assert (Hsel : forall sel,
             map SkillEntry.Name (setSelected sel (manageModel.skills m))
             = map SkillEntry.Name (manageModel.skills m) /\
             map SkillEntry.Group (setSelected sel (manageModel.skills m))
             = map SkillEntry.Group (manageModel.skills m) /\
             map SkillEntry.Linked (setSelected sel (manageModel.skills m))
             = map SkillEntry.Linked (manageModel.skills m)).
  { intros sel. unfold setSelected. by rewrite !map_map. }
  destruct key; cbn [updateSelect].
  - destruct (buildDisplayList_partition (manageModel.skills m)) as (_ & Hg & _ & Hd).
    cbv zeta in Hg, Hd. rewrite <- Hgroups in Hg, Hd. rewrite <- Hdisplay in Hd.
    destruct ((0 <? _)%Z && (_ <? _)%Z) eqn:Hguard; [|by exists m].
    apply andb_true_iff in Hguard as [_ Hlt%Z.ltb_lt].
    destruct (at_int_Some _ _ Hidx Hlt) as (item & -> & Hitem).
    rewrite Forall_forall in Hd. specialize (Hd item Hitem).
    destruct (displayItem.isGroup item).
    + destruct Hd as (g & Hgi & _).
      rewrite Forall_forall in Hg.
      destruct (Hg g (list_elem_of_lookup_2 _ _ _ Hgi)) as [Hne Hvalid].
      destruct (toggleGroup_flips m (displayItem.groupIdx item) g Hgi) as
        (allSel & m' & _ & Htog & _ & _ & Hl & Hg' & Hd' & Hi'); [|done|].
      { eapply Forall_impl; [exact Hvalid|]. intros i (s & Hs & _).
        by eapply lookup_lt_Some. }
      exists m'. split; [done|].
      unfold toggleGroup in Htog. rewrite Hgi in Htog.
      destruct (isGroupAllSelected m _); [|done].
      destruct (setSelectedAll _ _ _) as [sk'|]; [|done]. injection Htog as <-.
      cbn [withSkills manageModel.skills] in Hl.
      apply Hkeep; (eapply map_field_preserved; [exact Hl|]);
        intros j s; cbn beta; by destruct (decide _).
    + destruct (lookup_lt_is_Some_2 _ _ Hd) as [s Hs]. rewrite Hs.
      destruct (setSelectedAt_Some _ _ (negb (SkillEntry.Selected s)) Hd)
        as (sk' & -> & _ & Hl).
      exists (withSkills m sk'). split; [done|].
      apply Hkeep; (eapply map_field_preserved; [exact Hl|]);
        intros j s'; cbn beta; by destruct (decide _).
  - eexists. split; [done|]. apply Hkeep; apply Hsel.
  - eexists. split; [done|]. apply Hkeep; apply Hsel.
Qed.

(** A freshly loaded model is consistent, with the cursor on the first
    row. *)
Lemma onSkillsLoaded_consistent (skills : list SkillEntry.t) (m : manageModel.t) :
  consistent (onSkillsLoaded skills m) /\
  manageModel.selectedIdx (onSkillsLoaded skills m) = 0%Z.
Proof. done. Qed.

End SelectKeys.

Lemma select_all_none_then_enter_witness :
  exists mN esN,
    tui.updateSelect tui.KeyNone manage_example = Some mN /\
    fs (snd (tui.onEnter mN conflict_world)) !! "/home/u/.claude/skills"
    = Some (PDir mode_0755 esN) /\
    forall n, esN !! n = conflict_entries !! n \/ esN !! n = None.
Proof.
  destruct (select_all_none_then_enter manage_example conflict_world mode_0755
              conflict_entries eq_refl) as [_ H].
  exact H.
Defined.

Lemma toggleGroup_flips_witness :
  exists allSel m',
    tui.isGroupAllSelected manage_example 1 = Some allSel /\
    tui.toggleGroup manage_example 1 = Some m' /\
    tui.isGroupAllSelected m' 1 = Some (negb allSel) /\
    tui.isGroupPartialSelected m' 1 = Some false.
Proof.
  destruct (toggleGroup_flips manage_example 1 (tui.SkillGroup.mk "auth" [1]))
    as (allSel & m' & H1 & H2 & H3 & H4 & _).
  - reflexivity.
  - vm_compute. repeat constructor.
  - discriminate.
  - exists allSel, m'. exact (conj H1 (conj H2 (conj H3 H4))).
Defined.

Lemma all_and_partial_exclusive_witness :
  tui.isGroupPartialSelected manage_example 1 = Some false.
Proof.
  apply (all_and_partial_exclusive manage_example 1). reflexivity.
Defined.

Lemma updateSelect_safe_witness :
  exists m',
    tui.updateSelect tui.KeySpace manage_example = Some m' /\
    consistent m' /\
    map tui.SkillEntry.Name (tui.manageModel.skills m')
    = map tui.SkillEntry.Name (tui.manageModel.skills manage_example).
Proof.
  destruct (updateSelect_safe tui.KeySpace manage_example) as (m' & H1 & H2 & H3 & _).
  - split; reflexivity.
  - vm_compute. discriminate.
  - exists m'. exact (conj H1 (conj H2 H3)).
Defined.

(** ** Truncating for display *)

Section Truncating.
Import tui.

Lemma length_substring_0 (s : string) (n : nat) :
  n <= String.length s -> String.length (substring 0 n s) = n.
Proof.
  revert n. induction s as [|c s IH]; intros [|n]; cbn; try done; try lia.
  intros H. rewrite IH; [done|lia].
Qed.

Lemma length_string_app (a b : string) :
  String.length (a +:+ b) = String.length a + String.length b.
Proof. induction a as [|c a IH]; simpl; [done|]. f_equal. exact IH. Qed.

Lemma wrap64_small (z : Z) : (- 2 ^ 63 <= z < 2 ^ 63)%Z -> wrap64 z = z.
Proof. intros H. unfold wrap64. rewrite Z.mod_small by lia. lia. Qed.

Lemma slice_to_Some (s : string) (hi : Z) :
  (0 <= hi <= len s)%Z ->
  slice_to s hi = Some (substring 0 (Z.to_nat hi) s) /\
  len (substring 0 (Z.to_nat hi) s) = hi.
Proof.
  intros [H0 H1]. unfold slice_to.
  rewrite (proj2 (Z.leb_le 0 hi) H0), (proj2 (Z.leb_le hi (len s)) H1).
  split; [done|]. unfold len in *. rewrite length_substring_0; lia.
Qed.

(** X16: [truncateStr] never panics.  It returns [s] itself when [maxLen] is
    not positive or [s] has at most [maxLen] bytes; otherwise the result
    has exactly [maxLen] bytes: the first [maxLen] bytes of [s] when
    [maxLen <= 3], else the first [maxLen - 3] bytes followed by three
    dots. *)
Theorem truncateStr_length (s : string) (maxLen : Z) :
  (maxLen < 2 ^ 63)%Z ->
  exists r,
    truncateStr s maxLen = Some r /\
    ((maxLen <= 0 \/ len s <= maxLen)%Z -> r = s) /\
    ((0 < maxLen < len s)%Z ->
     len r = maxLen /\
     ((maxLen <= 3)%Z -> r = substring 0 (Z.to_nat maxLen) s) /\
     ((3 < maxLen)%Z -> r = substring 0 (Z.to_nat (maxLen - 3)) s +:+ "...")).
Proof.
  intros Hmax. unfold truncateStr.
  destruct (Z.leb_spec maxLen 0) as [H0|H0]; cbn [orb].
  { exists s. split; [done|]. split; [done|]. lia. }
  destruct (Z.leb_spec (len s) maxLen) as [Hl|Hl].
  { exists s. split; [done|]. split; [done|]. lia. }
  destruct (Z.leb_spec maxLen 3) as [H3|H3].
  - destruct (slice_to_Some s maxLen) as [-> Hlen]; [lia|].
    eexists. split; [done|]. split; [lia|]. intros _. split; [done|]. split; [done|lia].
  - rewrite wrap64_small by lia.
    destruct (slice_to_Some s (maxLen - 3)) as [-> Hlen]; [lia|].
    eexists. split; [done|]. split; [lia|]. intros _. split; [|split; [lia|done]].
    unfold len in *. rewrite length_string_app. cbn. lia.
Qed.

Lemma truncateStr_length_witness :
  exists r,
    truncateStr "react-best-practices" 10 = Some r /\
    len r = 10%Z /\ r = "react-b...".
Proof.
  destruct (truncateStr_length "react-best-practices" 10) as (r & H1 & _ & H2).
  - reflexivity.
  - exists r. split; [exact H1|].
    destruct H2 as (Hlen & _ & H3); [vm_compute; split; reflexivity|].
    split; [exact Hlen|]. apply H3. reflexivity.
Defined.

(** X17: [truncate], the search view's copy without the test on a
    non-positive [maxLen], panics exactly on a negative [maxLen].  The
    two agree for every positive [maxLen]; at 0 [truncate] returns the
    empty string where [truncateStr] returns [s]. *)
Theorem truncate_panics_on_negative (s : string) (maxLen : Z) :
  (maxLen < 2 ^ 63)%Z ->
  (truncate s maxLen = None <-> (maxLen < 0)%Z) /\
  ((0 < maxLen)%Z -> truncate s maxLen = truncateStr s maxLen) /\
  truncate s 0 = Some EmptyString /\
  truncateStr s 0 = Some s.
Proof.
  intros Hmax. split; [|split; [|split]].
  - unfold truncate. unfold len at 1.
    destruct (Z.leb_spec (Z.of_nat (String.length s)) maxLen) as [Hl|Hl].
    { split; [done|]. lia. }
    destruct (Z.leb_spec maxLen 3) as [H3|H3].
    + unfold slice_to. destruct (Z.leb_spec 0 maxLen) as [H0|H0]; cbn [andb].
      * rewrite (proj2 (Z.leb_le maxLen (len s))) by (unfold len; lia).
        split; [done|lia].
      * done.
    + rewrite wrap64_small by lia.
      destruct (slice_to_Some s (maxLen - 3)) as [-> _]; [unfold len; lia|].
      split; [done|lia].
  - intros H0. unfold truncate, truncateStr.
    by rewrite (proj2 (Z.leb_gt maxLen 0) H0).
  - unfold truncate. destruct s as [|c s]; [done|]. done.
  - done.
Qed.

Lemma truncate_panics_on_negative_witness :
  truncate "react-best-practices" (-1) = None.
Proof.
  apply (truncate_panics_on_negative "react-best-practices" (-1)); reflexivity.
Defined.

End Truncating.

(** ** Package [api]: merging search results *)

Section Merging.
Import api.

Lemma dedup_snoc (l : list Skill.t) (s : Skill.t) (acc : gmap string bool * list Skill.t) :
  fold_left dedupStep (l ++ [s]) acc = dedupStep (fold_left dedupStep l acc) s.
Proof. by rewrite fold_left_app. Qed.

(** What the loop has built after the skills [l]. *)
Lemma dedup_invariant (l : list Skill.t) :
  let acc := fold_left dedupStep l (∅, []) in
  (forall n, default false (fst acc !! n) = true <-> n ∈ map Skill.Name (snd acc)) /\
  NoDup (map Skill.Name (snd acc)) /\
  (forall n, n ∈ map Skill.Name (snd acc) <-> n ∈ map Skill.Name l) /\
  snd acc `sublist_of` l /\
  (forall x, x ∈ snd acc ->
     exists l1 l2, l = l1 ++ x :: l2 /\ Skill.Name x ∉ map Skill.Name l1) /\
  (NoDup (map Skill.Name l) -> snd acc = l).
Proof.
  induction l as [|s l IH] using rev_ind.
  - cbn. repeat split; try done; try constructor.
    + by intros ?%elem_of_nil.
    + by intros ? ?%elem_of_nil.
  - cbv zeta in *. rewrite dedup_snoc.
    destruct IH as (Hseen & Hnd & Hnames & Hsub & Hfirst & Hall).
    set (acc := fold_left dedupStep l (∅, [])) in *.
    unfold dedupStep. rewrite !map_fmap, fmap_app, <- !map_fmap. cbn [fmap list_fmap].
    destruct (default false (fst acc !! Skill.Name s)) eqn:E; cbn [negb fst snd].
    + assert (Hin : Skill.Name s ∈ map Skill.Name (snd acc)) by by apply Hseen.
      split; [done|]. split; [done|]. split; [|split; [|split]].
      * intros n. rewrite elem_of_app, list_elem_of_singleton, Hnames. split; [by left|].
        intros [?| ->]; [done|]. by apply Hnames.
      * by apply sublist_inserts_r.
      * intros x Hx. destruct (Hfirst x Hx) as (l1 & l2 & -> & Hn).
        exists l1, (l2 ++ [s]). by rewrite <- app_assoc.
      * intros Hnd'. apply NoDup_app in Hnd' as (_ & Hdis & _).
        destruct (Hdis (Skill.Name s)); [by apply Hnames|by left].
    + assert (Hnin : Skill.Name s ∉ map Skill.Name (snd acc)).
      { intros Hin%Hseen. congruence. }
      split; [|split; [|split; [|split; [|split]]]].
      * intros n. rewrite !map_fmap, fmap_app, <- !map_fmap. cbn [fmap list_fmap].
        rewrite elem_of_app, list_elem_of_singleton.
        destruct (decide (Skill.Name s = n)) as [->|Hne].
        -- rewrite lookup_insert_eq. cbn. split; [by right|done].
        -- rewrite lookup_insert_ne by done. rewrite Hseen. split; [by left|].
           intros [?|?]; [done|congruence].
      * rewrite !map_fmap, fmap_app, <- !map_fmap. cbn [fmap list_fmap].
        apply NoDup_app. split; [done|]. split; [|apply NoDup_singleton].
        intros n Hn ->%list_elem_of_singleton. done.
      * intros n. rewrite !map_fmap, fmap_app, <- !map_fmap. cbn [fmap list_fmap].
        rewrite !elem_of_app, Hnames. done.
      * by apply sublist_app.
      * intros x [Hx| ->%list_elem_of_singleton]%elem_of_app.
        -- destruct (Hfirst x Hx) as (l1 & l2 & -> & Hn).
           exists l1, (l2 ++ [s]). by rewrite <- app_assoc.
        -- exists l, []. split; [done|]. by rewrite <- Hnames.
      * intros Hnd'. apply NoDup_app in Hnd' as (Hndl & _ & _). by rewrite Hall.
Qed.

Lemma dedup_extends (l : list Skill.t) (acc : gmap string bool * list Skill.t) :
  exists ext, snd (fold_left dedupStep l acc) = snd acc ++ ext.
Proof.
  revert acc. induction l as [|s l IH]; intros acc; [exists []; by rewrite app_nil_r|].
  cbn [fold_left]. destruct (IH (dedupStep acc s)) as [ext ->].
  unfold dedupStep. destruct (negb _); cbn [snd]; [|by eexists].
  exists (s :: ext). by rewrite <- app_assoc.
Qed.

(** X18: [SearchAll] never returns an error, whatever the two searches
    returned.  Its result has no two skills of the same name and the
    names of all skills found; it keeps, in order, the first skill found
    under each name, so a skill of skills.sh wins over one of
    playbooks.com; and skills.sh results of distinct names come first,
    complete and in their order. *)
Theorem SearchAll_dedup (skillsSh playbooks : option (list Skill.t)) :
  let all := default [] skillsSh ++ default [] playbooks in
  let out := fst (SearchAll skillsSh playbooks) in
  snd (SearchAll skillsSh playbooks) = None /\
  NoDup (map Skill.Name out) /\
  (forall n, n ∈ map Skill.Name out <-> n ∈ map Skill.Name all) /\
  out `sublist_of` all /\
  (forall x, x ∈ out ->
     exists l1 l2, all = l1 ++ x :: l2 /\ Skill.Name x ∉ map Skill.Name l1) /\
  (NoDup (map Skill.Name (default [] skillsSh)) ->
   exists rest, out = default [] skillsSh ++ rest).
Proof.
  intros all out.
  assert (Hout : out = snd (fold_left dedupStep all (∅, []))).
  { unfold out, all, SearchAll. by destruct skillsSh, playbooks. }
  destruct (dedup_invariant all) as (_ & Hnd & Hnames & Hsub & Hfirst & _).
  cbv zeta in *. rewrite <- Hout in *.
  split; [done|]. split; [done|]. split; [done|]. split; [done|]. split; [done|].
  intros Hnd1. rewrite Hout. unfold all. rewrite fold_left_app.
  destruct (dedup_invariant (default [] skillsSh)) as (_ & _ & _ & _ & _ & Hall).
  cbv zeta in Hall.
  destruct (dedup_extends (default [] playbooks)
              (fold_left dedupStep (default [] skillsSh) (∅, []))) as [ext ->].
  exists ext. by rewrite (Hall Hnd1).
Qed.

End Merging.

(** ** Package [config] *)

Section Configuration.
Import config.

Lemma hasRepo_spec (repos : list string) (repo : string) :
  hasRepo repos repo = true <-> repo ∈ repos.
Proof.
  induction repos as [|r repos IH]; cbn [hasRepo].
  - split; [done|]. by intros ?%elem_of_nil.
  - rewrite elem_of_cons. destruct (String.eqb_spec r repo) as [->|Hne].
    + split; [by left|done].
    + rewrite IH. split; [by right|]. intros [?|?]; [congruence|done].
Qed.

(** X19: [AddRepo] makes the repository a member, once: a list without
    repetitions stays so, adding again changes nothing, and the
    repositories already there keep their places. *)
Theorem AddRepo_once (c : Config.t) (repo : string) :
  let c' := AddRepo c repo in
  repo ∈ Config.Repos c' /\
  (exists ext, Config.Repos c' = Config.Repos c ++ ext) /\
  (forall r, r ∈ Config.Repos c' <-> r ∈ Config.Repos c \/ r = repo) /\
  (NoDup (Config.Repos c) -> NoDup (Config.Repos c')) /\
  AddRepo c' repo = c' /\
  (repo ∈ Config.Repos c -> c' = c) /\
  Config.Registries c' = Config.Registries c /\
  Config.Providers c' = Config.Providers c.
Proof.
  intros c'. unfold c', AddRepo.
  destruct (hasRepo (Config.Repos c) repo) eqn:E.
  - pose proof (proj1 (hasRepo_spec _ _) E) as Hin.
    split; [done|]. split; [exists []; by rewrite app_nil_r|].
    split; [intros r; split; [by left|by intros [?| ->]]|].
    split; [done|]. split; [by rewrite E|]. done.
  - assert (Hnin : repo ∉ Config.Repos c).
    { intros Hin%hasRepo_spec. congruence. }
    cbn [Config.Repos Config.Registries Config.Providers].
    split; [apply elem_of_app; right; by left|]. split; [by eexists|].
    split; [intros r; by rewrite elem_of_app, list_elem_of_singleton|].
    split.
    { intros Hnd. apply NoDup_app. split; [done|]. split; [|apply NoDup_singleton].
      intros r Hr ->%list_elem_of_singleton. done. }
    split; [|done].
    assert (hasRepo (Config.Repos c ++ [repo]) repo = true) as ->; [|done].
    apply hasRepo_spec, elem_of_app. right. by left.
Qed.

Lemma removeFirst_absent (repos : list string) (repo : string) :
  repo ∉ repos -> removeFirst repos repo = repos.
Proof.
  induction repos as [|r repos IH]; [done|]. intros Hnin. cbn [removeFirst].
  destruct (String.eqb_spec r repo) as [->|Hne]; [by destruct Hnin; left|].
  rewrite IH; [done|]. intros ?. apply Hnin. by right.
Qed.

Lemma removeFirst_first (l1 l2 : list string) (repo : string) :
  repo ∉ l1 -> removeFirst (l1 ++ repo :: l2) repo = l1 ++ l2.
Proof.
  induction l1 as [|r l1 IH]; intros Hnin; cbn [removeFirst app].
  - by rewrite String.eqb_refl.
  - destruct (String.eqb_spec r repo) as [->|Hne]; [by destruct Hnin; left|].
    rewrite IH; [done|]. intros ?. apply Hnin. by right.
Qed.

(** X20: [RemoveRepo] cuts out the first occurrence of the repository and
    nothing else; a repository that is not listed leaves the
    configuration as it was; on a list without repetitions the
    repository is gone afterwards; and removing what [AddRepo] has just
    added gives back the configuration. *)
Theorem RemoveRepo_first (c : Config.t) (repo : string) :
  (repo ∉ Config.Repos c -> RemoveRepo c repo = c) /\
  (forall l1 l2, Config.Repos c = l1 ++ repo :: l2 -> repo ∉ l1 ->
     Config.Repos (RemoveRepo c repo) = l1 ++ l2) /\
  (NoDup (Config.Repos c) -> repo ∉ Config.Repos (RemoveRepo c repo)) /\
  (repo ∉ Config.Repos c -> RemoveRepo (AddRepo c repo) repo = c) /\
  Config.Registries (RemoveRepo c repo) = Config.Registries c /\
  Config.Providers (RemoveRepo c repo) = Config.Providers c.
Proof.
  split; [|split; [|split; [|split]]]; try done.
  - intros Hnin. unfold RemoveRepo. rewrite removeFirst_absent by done. by destruct c.
  - intros l1 l2 Heq Hnin. unfold RemoveRepo. cbn [Config.Repos].
    rewrite Heq. by apply removeFirst_first.
  - intros Hnd Hin.
    destruct (decide (repo ∈ Config.Repos c)) as [Hc|Hc].
    + apply list_elem_of_split in Hc as (l1 & l2 & Heq).
      rewrite Heq in Hnd. apply NoDup_app in Hnd as (_ & Hdis & Hnd2).
      apply NoDup_cons in Hnd2 as [Hn2 _].
      assert (Hn1 : repo ∉ l1) by (intros H1; apply (Hdis repo H1); by left).
      unfold RemoveRepo in Hin. cbn [Config.Repos] in Hin.
      rewrite Heq, removeFirst_first in Hin by done.
      apply elem_of_app in Hin as [?|?]; done.
    + unfold RemoveRepo in Hin. cbn [Config.Repos] in Hin.
      by rewrite removeFirst_absent in Hin.
  - intros Hnin. unfold AddRepo.
    assert (hasRepo (Config.Repos c) repo = false) as ->.
    { destruct (hasRepo _ _) eqn:E; [|done]. by apply hasRepo_spec in E. }
    unfold RemoveRepo. cbn [Config.Repos Config.Registries Config.Providers].
    rewrite removeFirst_first by done. rewrite app_nil_r. by destruct c.
Qed.

Lemma enableFirst_names (regs : list Registry.t) (name : string) (e : bool) :
  map Registry.Name (enableFirst regs name e) = map Registry.Name regs /\
  map Registry.URL (enableFirst regs name e) = map Registry.URL regs.
Proof.
  induction regs as [|r regs [IH1 IH2]]; [done|]. cbn [enableFirst].
  destruct (String.eqb (Registry.Name r) name); cbn [map Registry.Name Registry.URL];
    [done|]. by rewrite IH1, IH2.
Qed.

Lemma enableFirst_first (l1 l2 : list Registry.t) (r : Registry.t) (e : bool) :
  Registry.Name r ∉ map Registry.Name l1 ->
  enableFirst (l1 ++ r :: l2) (Registry.Name r) e
  = l1 ++ Registry.mk (Registry.Name r) (Registry.URL r) e :: l2.
Proof.
  induction l1 as [|r1 l1 IH]; intros Hnin; cbn [enableFirst app].
  - by rewrite String.eqb_refl.
  - destruct (String.eqb_spec (Registry.Name r1) (Registry.Name r)) as [Heq|Hne].
    + destruct Hnin. cbn [map]. rewrite Heq. by left.
    + rewrite IH; [done|]. intros ?. apply Hnin. cbn [map]. by right.
Qed.

Lemma enableFirst_absent (regs : list Registry.t) (name : string) (e : bool) :
  name ∉ map Registry.Name regs -> enableFirst regs name e = regs.
Proof.
  induction regs as [|r regs IH]; [done|]. intros Hnin. cbn [enableFirst].
  destruct (String.eqb_spec (Registry.Name r) name) as [Heq|Hne].
  - destruct Hnin. cbn [map]. rewrite Heq. by left.
  - rewrite IH; [done|]. intros ?. apply Hnin. cbn [map]. by right.
Qed.

(** X21: [EnableRegistry] writes the flag of the first registry of that name
    and of no other; names, addresses and order stay; an unknown name
    changes nothing.  When names are unique, a registry that was
    disabled is not among the enabled ones and one that was enabled is. *)
Theorem EnableRegistry_first (c : Config.t) (name : string) (e : bool) :
  map Registry.Name (Config.Registries (EnableRegistry c name e))
  = map Registry.Name (Config.Registries c) /\
  map Registry.URL (Config.Registries (EnableRegistry c name e))
  = map Registry.URL (Config.Registries c) /\
  (forall l1 r l2, Config.Registries c = l1 ++ r :: l2 ->
     Registry.Name r = name -> name ∉ map Registry.Name l1 ->
     Config.Registries (EnableRegistry c name e)
     = l1 ++ Registry.mk (Registry.Name r) (Registry.URL r) e :: l2) /\
  (name ∉ map Registry.Name (Config.Registries c) -> EnableRegistry c name e = c) /\
  (NoDup (map Registry.Name (Config.Registries c)) ->
   forall r, r ∈ GetEnabledRegistries (EnableRegistry c name e) ->
     Registry.Name r = name -> e = true).
Proof.
  split; [apply enableFirst_names|]. split; [apply enableFirst_names|].
  split; [|split].
  - intros l1 r l2 Heq <- Hnin. unfold EnableRegistry. cbn [Config.Registries].
    rewrite Heq. by apply enableFirst_first.
  - intros Hnin. unfold EnableRegistry. rewrite enableFirst_absent by done. by destruct c.
  - intros Hnd r [Hen Hin]%list_elem_of_filter Hname.
    cbn [EnableRegistry Config.Registries] in Hin.
    destruct (decide (name ∈ map Registry.Name (Config.Registries c))) as [Hc|Hc].
    + apply elem_of_map in Hc as (r0 & Hn0 & Hr0).
      apply list_elem_of_split in Hr0 as (l1 & l2 & Heq).
      rewrite Heq, !map_fmap, fmap_app, <- !map_fmap in Hnd. cbn [map] in Hnd.
      apply NoDup_app in Hnd as (_ & Hdis & Hnd2).
      apply NoDup_cons in Hnd2 as [Hn2 _].
      assert (Hn1 : Registry.Name r0 ∉ map Registry.Name l1).
      { intros H1. apply (Hdis _ H1). by left. }
      rewrite Heq, Hn0, enableFirst_first in Hin by done.
      apply elem_of_app in Hin as [Hin|[->|Hin]%elem_of_cons].
      * destruct Hn1. rewrite <- Hn0, <- Hname. apply elem_of_map. eauto.
      * done.
      * destruct Hn2. rewrite <- Hn0, <- Hname. apply elem_of_map. eauto.
    + rewrite enableFirst_absent in Hin by done.
      destruct Hc. rewrite <- Hname. apply elem_of_map. eauto.
Qed.

(** X22: [EnableProvider] never adds a provider: an unknown name changes
    nothing.  For a known one it writes the flag and keeps the path, and
    touches no other provider.  [GetEnabledProviders] is exactly the
    enabled part of the map, so a provider just disabled is not in it. *)
Theorem EnableProvider_known_only (c : Config.t) (name : string) (e : bool) :
  (Config.Providers c !! name = None -> EnableProvider c name e = c) /\
  (forall p, Config.Providers c !! name = Some p ->
     Config.Providers (EnableProvider c name e) !! name
     = Some (ProviderConfig.mk e (ProviderConfig.Path p))) /\
  (forall other, other <> name ->
     Config.Providers (EnableProvider c name e) !! other = Config.Providers c !! other) /\
  (forall n p, GetEnabledProviders c !! n = Some p <->
               Config.Providers c !! n = Some p /\ ProviderConfig.Enabled p = true) /\
  GetEnabledProviders (EnableProvider c name false) !! name = None /\
  Config.Repos (EnableProvider c name e) = Config.Repos c /\
  Config.Registries (EnableProvider c name e) = Config.Registries c.
Proof.
  assert (Hget : forall c' n p, GetEnabledProviders c' !! n = Some p <->
                   Config.Providers c' !! n = Some p /\ ProviderConfig.Enabled p = true).
  { intros c' n p. unfold GetEnabledProviders. by rewrite map_lookup_filter_Some. }
  unfold EnableProvider.
  destruct (Config.Providers c !! name) as [p0|] eqn:E.
  - split; [done|]. split; [intros p [= <-]; cbn; by rewrite lookup_insert_eq|].
    split; [intros other Hne; cbn; by rewrite lookup_insert_ne|].
    split; [apply Hget|]. split; [|done].
    destruct (GetEnabledProviders _ !! name) as [q|] eqn:Eq; [|done].
    apply Hget in Eq as [Hq He]. cbn in Hq. rewrite lookup_insert_eq in Hq.
    injection Hq as <-. done.
  - split; [done|]. split; [done|]. split; [done|]. split; [apply Hget|].
    split; [|done].
    destruct (GetEnabledProviders c !! name) as [q|] eqn:Eq; [|done].
    apply Hget in Eq as [Hq _]. congruence.
Qed.

End Configuration.

Lemma SearchAll_dedup_witness :
  exists rest,
    fst (api.SearchAll (Some skillsSh_results) (Some playbooks_results))
    = skillsSh_results ++ rest.
Proof.
  apply (SearchAll_dedup (Some skillsSh_results) (Some playbooks_results)).
  apply (bool_decide_unpack _). vm_compute. reflexivity.
Defined.

Lemma AddRepo_once_witness :
  config.AddRepo (config.DefaultConfig fresh_world) "better-auth/skills"
  = config.DefaultConfig fresh_world.
Proof.
  apply (AddRepo_once (config.DefaultConfig fresh_world) "better-auth/skills").
  apply (bool_decide_unpack _). vm_compute. reflexivity.
Defined.

Lemma RemoveRepo_first_witness :
  config.RemoveRepo (config.AddRepo (config.DefaultConfig fresh_world) "o/r") "o/r"
  = config.DefaultConfig fresh_world.
Proof.
  apply (RemoveRepo_first (config.DefaultConfig fresh_world) "o/r").
  apply (bool_decide_unpack _). vm_compute. reflexivity.
Defined.

Lemma EnableRegistry_first_witness :
  config.EnableRegistry (config.DefaultConfig fresh_world) "unknown" false
  = config.DefaultConfig fresh_world.
Proof.
  apply (EnableRegistry_first (config.DefaultConfig fresh_world) "unknown" false).
  apply (bool_decide_unpack _). vm_compute. reflexivity.
Defined.

Lemma EnableProvider_known_only_witness :
  config.EnableProvider (config.DefaultConfig fresh_world) "vscode" true
  = config.DefaultConfig fresh_world.
Proof.
  apply (EnableProvider_known_only (config.DefaultConfig fresh_world) "vscode" true).
  reflexivity.
Defined.

(** * The status view *)

Section StatusView.

Lemma length_detectProviders (w : World) : length (tui.detectProviders w) = 6%nat.
Proof. unfold tui.detectProviders. by rewrite length_map. Qed.

Lemma decr_small (c : Z) : (0 < c -> c < 2 ^ 63 -> tui.decr c = c - 1)%Z.
Proof. intros H1 H2. unfold tui.decr. apply wrap64_small. lia. Qed.

Lemma statusUpdate_cursor (msg : tui.Msg) (m : tui.statusModel.t) :
  fromLoader msg -> statusCursorOk m -> statusCursorOk (fst (tui.statusUpdate msg m)).
Proof.
  intros Hmsg Hm. destruct m as [ps total idx loading err].
  unfold statusCursorOk in *. cbn [tui.statusModel.providers tui.statusModel.selectedIdx] in Hm.
  destruct msg as [ps' total'|e| |key|]; cbn [tui.statusUpdate fst]; try done.
  - destruct Hmsg as [w Hw]. injection Hw as -> _.
    cbn [tui.statusModel.providers tui.statusModel.selectedIdx]. right.
    split; [apply length_detectProviders|]. lia.
  - cbn [tui.statusModel.providers tui.statusModel.selectedIdx tui.statusModel.totalSkills
         tui.statusModel.loading tui.statusModel.err].
    repeat (match goal with |- context [if tui.keyIn ?k ?l then _ else _] =>
              destruct (tui.keyIn k l) end); cbn [fst]; try done.
    + destruct (Z.ltb_spec 0 idx); [|done].
      cbn [tui.statusModel.providers tui.statusModel.selectedIdx].
      rewrite decr_small by lia. lia.
    + destruct (Z.ltb_spec idx (Z.of_nat (length ps) - 1)); [|done].
      cbn [tui.statusModel.providers tui.statusModel.selectedIdx].
      destruct Hm as [[-> ->]|[Hlen Hidx]]; [simpl in *; lia|].
      rewrite incr_small by lia. right. split; [done|lia].
Qed.

Lemma runStatus_cursor (msgs : list tui.Msg) :
  Forall fromLoader msgs -> statusCursorOk (runStatus msgs).
Proof.
  unfold runStatus.
  assert (H0 : statusCursorOk tui.newStatusModel) by (by left).
  revert H0. generalize tui.newStatusModel.
  induction msgs as [|msg msgs IH]; intros m Hm Hall; [done|].
  inversion_clear Hall. simpl. apply IH; [|done]. by apply statusUpdate_cursor.
Qed.

(** X23: in every run of the status view whose provider lists come from
    [loadProviders], the closures returned for "enter", "m" and "c" index
    the providers inside their bounds: running them never panics, and
    what they send is a provider of the model. *)
Theorem status_open_never_panics (msgs : list tui.Msg) (msg : tui.Msg)
    (mc : tui.statusModel.t) :
  Forall fromLoader msgs ->
  snd (tui.statusUpdate msg (runStatus msgs)) = tui.OpenManageCmd mc \/
  snd (tui.statusUpdate msg (runStatus msgs)) = tui.OpenConfigCmd mc ->
  mc = runStatus msgs /\
  exists p, tui.selectedProvider mc = Some p /\ p ∈ tui.statusModel.providers mc.
Proof.
  intros Hall Hcmd. pose proof (runStatus_cursor msgs Hall) as Hm.
  set (m := runStatus msgs) in *. clearbody m.
  assert (Hopen : mc = m /\ tui.statusModel.providers m <> []).
  { destruct msg as [ps' total'|e| |key|]; cbn [tui.statusUpdate snd] in Hcmd;
      try (by destruct Hcmd).
    repeat (match type of Hcmd with context [if tui.keyIn ?k ?l then _ else _] =>
              destruct (tui.keyIn k l) end); cbn [snd] in Hcmd;
      try (by destruct Hcmd).
    - destruct (tui.statusModel.providers m); simpl in Hcmd; [by destruct Hcmd|].
      destruct Hcmd as [Hc|Hc]; by inversion Hc.
    - destruct (tui.statusModel.providers m); simpl in Hcmd; [by destruct Hcmd|].
      destruct Hcmd as [Hc|Hc]; by inversion Hc. }
  destruct Hopen as [-> Hne]. split; [done|].
  destruct Hm as [[Hnil _]|[Hlen Hidx]]; [done|].
  unfold tui.selectedProvider. apply at_int_Some; lia.
Qed.

Lemma status_open_never_panics_witness :
  exists p, tui.selectedProvider
              (runStatus [tui.loadProviders fresh_world; tui.KeyMsg "down";
                          tui.KeyMsg "up"; tui.KeyMsg "k"]) = Some p.
Proof.
  destruct (status_open_never_panics
              [tui.loadProviders fresh_world; tui.KeyMsg "down"; tui.KeyMsg "up";
               tui.KeyMsg "k"]
              (tui.KeyMsg "enter")
              (runStatus [tui.loadProviders fresh_world; tui.KeyMsg "down";
                          tui.KeyMsg "up"; tui.KeyMsg "k"]))
    as [_ (p & Hp & _)].
  - repeat constructor. by exists fresh_world.
  - left. reflexivity.
  - by exists p.
Defined.

Lemma count_dirs (entries : list os.DirEntry) (c : Z) :
  (0 <= c)%Z -> (c + Z.of_nat (length entries) < 2 ^ 63)%Z ->
  fold_left (fun c e => if os.IsDir e then incr c else c) entries c
  = (c + Z.of_nat (length (filter (fun e => os.IsDir e = true) entries)))%Z.
Proof.
  revert c. induction entries as [|e entries IH]; intros c H0 Hlt; simpl in *.
  - lia.
  - destruct (os.IsDir e) eqn:E.
    + rewrite filter_cons_True by done. rewrite incr_small by lia.
      rewrite IH by lia. simpl. lia.
    + rewrite filter_cons_False by (by rewrite E). apply IH; lia.
Qed.

(** X24: the total the status view shows is the number of skills the
    store lists, and 0 when the store cannot be listed: the error that
    [ListInstalled] returns is not reported by [loadProviders]. *)
Theorem loadProviders_total (w : World) :
  (forall mode es, fs w !! tui.skillsDir w = Some (PDir mode es) ->
                   (Z.of_nat (size es) < 2 ^ 63)%Z) ->
  tui.loadProviders w
  = tui.providersLoadedMsg (tui.detectProviders w)
      match skill.ListInstalled (skill.NewStore w) w with
      | Ok names => Z.of_nat (length names)
      | Err _ => 0%Z
      end.
Proof.
  intros Hsize. unfold tui.loadProviders, skill.ListInstalled. cbv zeta. f_equal.
  change (skill.Store.BaseDir (skill.NewStore w)) with (tui.skillsDir w).
  unfold os.ReadDir.
  destruct (fs w !! tui.skillsDir w) as [[mode es|mode c]|] eqn:E; try done.
  destruct (readable mode); [|done].
  rewrite count_dirs; [by rewrite length_map| lia |].
  rewrite merge_sort_Permutation, length_map_to_list.
  specialize (Hsize _ _ eq_refl). lia.
Qed.

Lemma loadProviders_total_witness :
  tui.loadProviders unconfigured_world
  = tui.providersLoadedMsg (tui.detectProviders unconfigured_world)
      match skill.ListInstalled (skill.NewStore unconfigured_world) unconfigured_world with
      | Ok names => Z.of_nat (length names)
      | Err _ => 0%Z
      end.
Proof.
  apply (loadProviders_total unconfigured_world).
  intros mode es H. vm_compute in H. injection H as _ <-. vm_compute. reflexivity.
Defined.

End StatusView.

(** * The config view *)

Ltac cfg_simpl :=
  cbn [tui.withInput tui.withDirty tui.withRepos tui.withCursor tui.withRegistries
       tui.withProviders tui.configModel.registries tui.configModel.repos
       tui.configModel.providers tui.configModel.section tui.configModel.selectedIdx
       tui.configModel.addingRepo tui.configModel.textInput tui.configModel.dirty
       Z.eqb Pos.eqb].

Ltac cfg_step :=
  eexists _, _, _; (split; [reflexivity|]); cfg_simpl;
  try vm_compute wrap64; cbn [Z.rem Z.quotrem Z.eqb Pos.eqb fst snd];
  repeat split; try done; try lia.

Ltac cfg_done := solve [cfg_step].

(** Decide the [case] a concrete key selects. *)
Ltac key_cases :=
  repeat match goal with
         | |- context [tui.keyIn ?k ?l] =>
             let b := eval vm_compute in (tui.keyIn k l) in
             change (tui.keyIn k l) with b; cbv iota
         end.

Section ConfigView.

Context {TI : Type} `{!tui.textinput.Ops TI}.

Lemma cutAt_Some {A} (l : list A) (i : Z) :
  (0 <= i < Z.of_nat (length l))%Z ->
  exists x, l !! Z.to_nat i = Some x /\
            tui.cutAt l i = Some (take (Z.to_nat i) l ++ drop (S (Z.to_nat i)) l) /\
            l = take (Z.to_nat i) l ++ x :: drop (S (Z.to_nat i)) l /\
            length l = S (length (take (Z.to_nat i) l ++ drop (S (Z.to_nat i)) l)).
Proof.
  intros Hi. unfold tui.cutAt.
  rewrite (proj2 (Z.leb_le 0 i)), (proj2 (Z.ltb_lt i _)) by lia. simpl.
  destruct (lookup_lt_is_Some_2 l (Z.to_nat i)) as [x Hx]; [lia|].
  exists x. split; [done|]. split; [done|].
  split.
  - by rewrite <- (take_drop_middle l (Z.to_nat i) x Hx) at 1.
  - rewrite <- (take_drop_middle l (Z.to_nat i) x Hx) at 1.
    rewrite !length_app. simpl. lia.
Qed.

Lemma cutAt_None {A} (l : list A) (i : Z) :
  ~ (0 <= i < Z.of_nat (length l))%Z -> tui.cutAt l i = None.
Proof.
  intros Hi. unfold tui.cutAt.
  destruct (Z.leb_spec 0 i); [|done]. destruct (Z.ltb_spec i (Z.of_nat (length l))); [lia|done].
Qed.

Lemma configUpdate_step (msg : tui.Msg) (m : tui.configModel.t TI) (w : World) :
  configCursorOk m ->
  (Z.of_nat (length (tui.configModel.registries m)) < 2 ^ 63)%Z ->
  (Z.of_nat (length (tui.configModel.repos m)) < 2 ^ 63)%Z ->
  (Z.of_nat (length (tui.configModel.providers m)) < 2 ^ 63)%Z ->
  exists m' c w',
    tui.configUpdate msg m w = Some (m', c, w') /\
    configCursorOk m' /\
    length (tui.configModel.registries m') = length (tui.configModel.registries m) /\
    length (tui.configModel.providers m') = length (tui.configModel.providers m) /\
    (length (tui.configModel.repos m') <= S (length (tui.configModel.repos m)))%nat.
Proof.
  destruct m as [regs repos provs sec idx adding ti dirty].
  unfold configCursorOk, tui.getMaxIndex.
  cbn [tui.configModel.registries tui.configModel.repos tui.configModel.providers
       tui.configModel.section tui.configModel.selectedIdx].
  intros (Hsec & H0 & Hmax) Hr Hp Hv.
  assert (Hcases : (sec = 0 \/ sec = 1 \/ sec = 2)%Z) by lia.
  unfold tui.configUpdate, tui.toggleItem, tui.getMaxIndex. cbv zeta.
  cbn [tui.configModel.registries tui.configModel.repos tui.configModel.providers
       tui.configModel.section tui.configModel.selectedIdx tui.configModel.addingRepo
       tui.configModel.textInput tui.configModel.dirty].
  destruct Hcases as [->|[->| ->]]; cbn [Z.eqb Pos.eqb andb] in Hmax |- *;
    (destruct adding;
     [destruct msg as [ps' total'|e| |key|]; try cfg_done;
      destruct (tui.keyIn key ["enter"]);
        [destruct (tui.parseRepo _); cfg_step; rewrite length_app; simpl; lia|];
      destruct (tui.keyIn key ["esc"]); cfg_done
     |]);
    (destruct msg as [ps' total'|e| |key|]; try cfg_done);
    repeat (match goal with |- context [if tui.keyIn ?k ?l then _ else _] =>
              destruct (tui.keyIn k l) end); try cfg_done;
    try (match goal with |- context [(0 <? idx)%Z] =>
           destruct (Z.ltb_spec 0 idx); [rewrite decr_small by lia|]; cfg_done end);
    try (match goal with |- context [(idx <? ?n - 1)%Z] =>
           destruct (Z.ltb_spec idx (n - 1)); [rewrite incr_small by lia|]; cfg_done end).
  - (* toggling a registry *)
    destruct (Z.ltb_spec idx (Z.of_nat (length regs))); [|cfg_done].
    destruct (at_int_Some regs idx) as (r & -> & _); [lia..|].
    cfg_step; rewrite length_insert; lia.
  - (* deleting a repository *)
    destruct (Z.ltb_spec 0 (Z.of_nat (length repos))); cbn [andb]; [|cfg_done].
    destruct (cutAt_Some repos idx) as (x & _ & -> & _ & Hlen); [lia|].
    set (repos' := take (Z.to_nat idx) repos ++ drop (S (Z.to_nat idx)) repos) in *.
    destruct (Z.leb_spec (Z.of_nat (length repos')) idx);
      destruct (Z.ltb_spec 0 idx); cbn [andb]; cfg_done.
  - (* toggling a provider *)
    destruct (Z.ltb_spec idx (Z.of_nat (length provs))); [|cfg_done].
    destruct (at_int_Some provs idx) as (p & -> & _); [lia..|].
    destruct (tui.Provider.Configured p); cfg_step; rewrite length_insert; lia.
Qed.

Lemma runConfig_safe (msgs : list tui.Msg) (m : tui.configModel.t TI) (w : World) :
  configCursorOk m ->
  (Z.of_nat (length (tui.configModel.registries m)) < 2 ^ 63)%Z ->
  (Z.of_nat (length (tui.configModel.providers m)) < 2 ^ 63)%Z ->
  (Z.of_nat (length (tui.configModel.repos m)) + Z.of_nat (length msgs) < 2 ^ 63)%Z ->
  exists m' w', runConfig msgs m w = Some (m', w') /\ configCursorOk m'.
Proof.
  unfold runConfig. revert m w.
  induction msgs as [|msg msgs IH]; intros m w Hok Hr Hv Hp; [by eexists _, _|].
  destruct (configUpdate_step msg m w Hok) as (m' & c & w' & Hstep & Hok' & Hr' & Hv' & Hp');
    [simpl in Hp; lia..|].
  cbn [fold_left]. rewrite Hstep. apply IH; [done|lia|lia|]. simpl in Hp. lia.
Qed.

(** X25: the config view never panics.  From the model [newConfigModel]
    builds, after any sequence of messages short enough for the slice of
    repositories to stay within a Go [int], every update returned, the
    section is one of the three and the cursor is a row of that section
    (0 when the section is empty). *)
Theorem config_view_never_panics (ti : TI) (w : World) (msgs : list tui.Msg) :
  (Z.of_nat (length msgs) < 2 ^ 62)%Z ->
  exists m' w',
    runConfig msgs (tui.newConfigModel ti w) w = Some (m', w') /\ configCursorOk m'.
Proof.
  intros Hlen. apply runConfig_safe.
  - unfold configCursorOk, tui.getMaxIndex. simpl. lia.
  - simpl. lia.
  - cbn [tui.newConfigModel tui.configModel.providers].
    rewrite length_detectProviders. lia.
  - cbn [tui.newConfigModel tui.configModel.repos tui.defaultRepos length]. lia.
Qed.

Lemma Split_one (s b : string) (sep : ascii) :
  Split s sep = [b] <-> s = b /\ Contains s sep = false.
Proof.
  revert b. induction s as [|c s IH]; intros b; simpl.
  - split; [by intros [= <-]|by intros [<- _]].
  - destruct (Ascii.eqb c sep) eqn:E; simpl.
    + split; [|by intros [_ ?]]. intros [= _ Hs]. by destruct (Split_nonempty s sep).
    + destruct (Split s sep) as [|h t] eqn:Es; [by destruct (Split_nonempty s sep)|].
      split.
      * intros [= <- ->]. destruct (proj1 (IH h) eq_refl) as [-> ?]. done.
      * intros [<- Hc]. pose proof (proj2 (IH s) (conj eq_refl Hc)) as [= -> ->]. done.
Qed.

Lemma Split_two (s a b : string) (sep : ascii) :
  Split s sep = [a; b] <->
  s = (a ++ String sep b)%string /\ Contains a sep = false /\ Contains b sep = false.
Proof.
  revert a. induction s as [|c s IH]; intros a; simpl.
  - split; [done|]. intros [Hs _]. by destruct a.
  - destruct (Ascii.eqb c sep) eqn:E.
    + apply Ascii.eqb_eq in E as ->. split.
      * intros [= <- Hs]. apply Split_one in Hs as [-> Hc]. done.
      * intros (Hs & Ha & Hb). destruct a as [|c' a]; simpl in *.
        -- injection Hs as ->. f_equal. by apply Split_one.
        -- injection Hs as <- _. by rewrite Ascii.eqb_refl in Ha.
    + destruct (Split s sep) as [|h t] eqn:Es; [by destruct (Split_nonempty s sep)|].
      split.
      * intros [= <- ->]. destruct (proj1 (IH h) eq_refl) as (-> & Ha & Hb).
        simpl. by rewrite E.
      * intros (Hs & Ha & Hb). destruct a as [|c' a]; simpl in *.
        -- injection Hs as -> _. by rewrite Ascii.eqb_refl in E.
        -- injection Hs as <- ->. rewrite E in Ha. simpl in Ha.
           pose proof (proj2 (IH a) (conj eq_refl (conj Ha Hb))) as [= -> ->]. done.
Qed.

Lemma parseRepo_Some (input owner repo : string) :
  tui.parseRepo input = Some (tui.RepoSource.mk owner repo) <->
  input = (owner ++ "/" ++ repo)%string /\
  Contains owner "/" = false /\ Contains repo "/" = false.
Proof.
  rewrite <- (Split_two input owner repo "/"). unfold tui.parseRepo.
  destruct (Split input "/") as [|a [|b [|c t]]]; split; try done.
  - by intros [= -> ->].
  - by intros [= -> ->].
Qed.

(** X26: "enter" while a repository is typed leaves the input mode and
    resets the input.  The repository is appended, and the model marked
    dirty, exactly when the input has one "/": owner and name are the
    bytes before and after it, either may be empty, and a repository
    already in the list is appended again.  Any other input is dropped
    without a change. *)
Theorem add_repo_parses (m : tui.configModel.t TI) (w : World) :
  tui.configModel.addingRepo m = true ->
  exists m',
    tui.configUpdate (tui.KeyMsg "enter") m w = Some (m', tui.ConfigNoCmd, w) /\
    tui.configModel.addingRepo m' = false /\
    tui.configModel.textInput m' = tui.textinput.Reset (tui.configModel.textInput m) /\
    tui.configModel.registries m' = tui.configModel.registries m /\
    tui.configModel.providers m' = tui.configModel.providers m /\
    tui.configModel.section m' = tui.configModel.section m /\
    tui.configModel.selectedIdx m' = tui.configModel.selectedIdx m /\
    ((exists owner repo,
        tui.textinput.Value (tui.configModel.textInput m) = (owner ++ "/" ++ repo)%string /\
        Contains owner "/" = false /\ Contains repo "/" = false /\
        tui.configModel.repos m'
        = tui.configModel.repos m ++ [tui.RepoSource.mk owner repo] /\
        tui.configModel.dirty m' = true) \/
     ((forall owner repo,
         tui.textinput.Value (tui.configModel.textInput m) = (owner ++ "/" ++ repo)%string ->
         Contains owner "/" = true \/ Contains repo "/" = true) /\
      tui.configModel.repos m' = tui.configModel.repos m /\
      tui.configModel.dirty m' = tui.configModel.dirty m)).
Proof.
  intros Hadd. unfold tui.configUpdate. rewrite Hadd. cbv zeta.
  key_cases.
  eexists. split; [done|].
  destruct (tui.parseRepo _) as [[owner repo]|] eqn:E; cfg_simpl; repeat split; try done.
  - left. apply parseRepo_Some in E as (? & ? & ?). by exists owner, repo.
  - right. repeat split; try done. intros owner repo Hv.
    destruct (Contains owner "/") eqn:Ho; [by left|].
    destruct (Contains repo "/") eqn:Hr; [by right|].
    by rewrite (proj2 (parseRepo_Some _ owner repo) (conj Hv (conj Ho Hr))) in E.
Qed.

(** X27: "d" in the repository section, with the cursor on a row,
    removes that row and no other, marks the model dirty and leaves the
    world alone; afterwards the cursor is on the row that followed the
    removed one, on the new last row when the removed one was the last,
    and on no row when the list is empty. *)
Theorem delete_repo_under_cursor (m : tui.configModel.t TI) (w : World) :
  tui.configModel.addingRepo m = false ->
  tui.configModel.section m = 1%Z ->
  (0 <= tui.configModel.selectedIdx m
   < Z.of_nat (length (tui.configModel.repos m)))%Z ->
  let i := Z.to_nat (tui.configModel.selectedIdx m) in
  exists m',
    tui.configUpdate (tui.KeyMsg "d") m w = Some (m', tui.ConfigNoCmd, w) /\
    tui.configModel.repos m' = delete i (tui.configModel.repos m) /\
    tui.configModel.dirty m' = true /\
    tui.at_int (tui.configModel.repos m') (tui.configModel.selectedIdx m')
    = match tui.configModel.repos m !! S i with
      | Some next => Some next
      | None => if decide (i = 0%nat) then None
                else tui.configModel.repos m !! pred i
      end.
Proof.
  intros Hadd Hsec Hidx i. unfold tui.configUpdate. rewrite Hadd, Hsec.
  key_cases. cbn [Z.eqb Pos.eqb andb].
  rewrite (proj2 (Z.ltb_lt 0 _)) by lia.
  destruct (cutAt_Some (tui.configModel.repos m) (tui.configModel.selectedIdx m) Hidx)
    as (x & Hx & -> & _ & Hlen).
  fold i in Hx, Hlen |- *. rewrite <- delete_take_drop in Hlen |- *.
  eexists. split; [done|]. cfg_simpl. split; [done|]. split; [done|].
  set (l := tui.configModel.repos m) in *. set (idx := tui.configModel.selectedIdx m) in *.
  assert (Hi : Z.of_nat i = idx) by (unfold i; lia).
  unfold tui.at_int.
  destruct (Z.leb_spec (Z.of_nat (length (delete i l))) idx) as [Hlast|Hmid].
  - (* the last row was removed *)
    rewrite (lookup_ge_None_2 l (S i)) by lia.
    destruct (Z.ltb_spec 0 idx) as [Hpos|Hzero]; cbn [andb].
    + rewrite decide_False by lia.
      rewrite (proj2 (Z.ltb_ge _ 0)) by lia.
      replace (Z.to_nat (Z.of_nat (length (delete i l)) - 1)) with (pred i) by lia.
      rewrite list_lookup_delete_lt by lia. done.
    + rewrite decide_True by lia. rewrite (proj2 (Z.ltb_ge _ 0)) by lia.
      apply lookup_ge_None_2. lia.
  - cbn [andb]. rewrite (proj2 (Z.ltb_ge _ 0)) by lia.
    fold i. rewrite list_lookup_delete_ge by lia.
    destruct (lookup_lt_is_Some_2 l (S i)) as [y Hy]; [lia|]. by rewrite Hy.
Qed.

Lemma detectProviders_lookup (w : World) (i : nat) (p : tui.Provider.t) :
  tui.detectProviders w !! i = Some p ->
  exists pd, tui.providerDefs (HOME w) !! i = Some pd /\
    tui.Provider.Name p = fst pd /\ tui.Provider.Path p = snd pd /\
    (tui.Provider.Configured p = true <->
     exists mode es, fs w !! snd pd = Some (PDir mode es)).
Proof.
  unfold tui.detectProviders. rewrite map_fmap, list_lookup_fmap.
  destruct (tui.providerDefs (HOME w) !! i) as [pd|]; [|done].
  intros [= <-]. exists pd. split; [done|]. unfold os.Stat.
  destruct (fs w !! snd pd) as [[mode es|mode c]|]; cbn; repeat split; eauto;
    try done; by intros (? & ? & ?).
Qed.

Lemma newConfigModel_rows (ti : TI) (w : World) :
  providerRows (tui.newConfigModel ti w) w.
Proof.
  split; [|done]. cbn [tui.newConfigModel tui.configModel.providers].
  unfold tui.detectProviders. rewrite map_map. cbv beta.
  unfold tui.providerDefs. cbn [map fst snd].
  repeat (apply (f_equal2 cons); [by destruct (os.Stat _ w) as [[|]|]|]). done.
Qed.

Lemma rows_insert (l : list tui.Provider.t) (i : nat) (p : tui.Provider.t) (c : bool) :
  l !! i = Some p ->
  map (fun p => (tui.Provider.Name p, tui.Provider.Path p))
      (<[i := tui.Provider.mk (tui.Provider.Name p) (tui.Provider.Path p) c
                (tui.Provider.SkillCount p) (tui.Provider.Synced p)]> l)
  = map (fun p => (tui.Provider.Name p, tui.Provider.Path p)) l.
Proof.
  intros Hl. rewrite !map_fmap, list_fmap_insert. cbn.
  apply list_insert_id. by rewrite list_lookup_fmap, Hl.
Qed.

Lemma configUpdate_rows (msg : tui.Msg) (m m' : tui.configModel.t TI) (c : tui.configCmd)
    (w w' : World) :
  tui.configUpdate msg m w = Some (m', c, w') ->
  providerRows m w -> providerRows m' w'.
Proof.
  destruct m as [regs repos provs sec idx adding ti dirty].
  unfold providerRows, tui.configUpdate, tui.toggleItem, tui.getMaxIndex. cbv zeta.
  cbn [tui.configModel.registries tui.configModel.repos tui.configModel.providers
       tui.configModel.section tui.configModel.selectedIdx tui.configModel.addingRepo
       tui.configModel.textInput tui.configModel.dirty].
  intros Hupd [Hrows Hcur].
  assert (Hlen : length provs = 6%nat).
  { erewrite <- length_map, Hrows. done. }
  destruct adding.
  - destruct msg as [ps' total'|e| |key|];
      try (injection Hupd as <- <- <-; by split).
    destruct (tui.keyIn key ["enter"]).
    + destruct (tui.parseRepo _); injection Hupd as <- <- <-; by split.
    + destruct (tui.keyIn key ["esc"]); injection Hupd as <- <- <-; by split.
  - destruct msg as [ps' total'|e| |key|];
      try (injection Hupd as <- <- <-; by split).
    repeat (match type of Hupd with context [if tui.keyIn ?k ?l then _ else _] =>
              destruct (tui.keyIn k l) end).
    + injection Hupd as <- <- <-. by split.
    + injection Hupd as <- <- <-. by split.
    + destruct (Z.ltb_spec 0 idx); injection Hupd as <- <- <-; (split; [done|]);
        cfg_simpl; [|done].
      intros Hs. specialize (Hcur Hs). rewrite decr_small by lia. lia.
    + destruct (Z.eqb_spec sec 2) as [->|Hne].
      * cbn [Z.eqb Pos.eqb] in Hupd. rewrite Hlen in Hupd. specialize (Hcur eq_refl).
        destruct (Z.ltb_spec idx (Z.of_nat 6 - 1)); injection Hupd as <- <- <-;
          (split; [done|]); cfg_simpl; [|done].
        intros _. rewrite incr_small by lia. lia.
      * destruct (_ <? _)%Z; injection Hupd as <- <- <-; (split; [done|]); cfg_simpl; done.
    + destruct (Z.eqb_spec sec 0) as [->|Hne0].
      { destruct (_ <? _)%Z; [destruct (tui.at_int regs idx); [|done]|];
          injection Hupd as <- <- <-; by split. }
      destruct (Z.eqb_spec sec 2) as [->|Hne2]; [|injection Hupd as <- <- <-; by split].
      specialize (Hcur eq_refl). rewrite Hlen in Hupd.
      rewrite (proj2 (Z.ltb_lt idx _)) in Hupd by lia.
      destruct (at_int_Some provs idx) as (p & Hp & _); [lia..|]. rewrite Hp in Hupd.
      assert (Hl : provs !! Z.to_nat idx = Some p).
      { unfold tui.at_int in Hp. by rewrite (proj2 (Z.ltb_ge idx 0)) in Hp by lia. }
      destruct (tui.Provider.Configured p); injection Hupd as <- <- <-; cfg_simpl.
      * split; [|done]. by rewrite (rows_insert provs _ p false Hl).
      * destruct (MkdirAll_frame (tui.Provider.Path p) mode_0755 w) as (-> & _).
        split; [|done]. by rewrite (rows_insert provs _ p true Hl).
    + destruct (sec =? 1)%Z; injection Hupd as <- <- <-; by split.
    + destruct (Z.eqb_spec sec 1) as [->|Hne]; cbn [andb] in Hupd;
        [|injection Hupd as <- <- <-; by split].
      destruct (0 <? _)%Z; cbn [andb] in Hupd; [|injection Hupd as <- <- <-; by split].
      destruct (tui.cutAt repos idx); [|done]. injection Hupd as <- <- <-. by split.
    + injection Hupd as <- <- <-. by split.
    + injection Hupd as <- <- <-. by split.
Qed.

Lemma runConfig_rows (msgs : list tui.Msg) (m0 m : tui.configModel.t TI) (w0 w : World) :
  runConfig msgs m0 w0 = Some (m, w) -> providerRows m0 w0 -> providerRows m w.
Proof.
  unfold runConfig. revert m0 w0.
  induction msgs as [|msg msgs IH]; intros m0 w0 Hrun Hrows.
  - by injection Hrun as <- <-.
  - cbn [fold_left] in Hrun.
    destruct (tui.configUpdate msg m0 w0) as [[[m1 c1] w1]|] eqn:Hstep.
    + eapply IH; [exact Hrun|]. by eapply configUpdate_rows.
    + exfalso. clear -Hrun. induction msgs as [|? ? IH']; [done|]. by apply IH'.
Qed.

(** X28: in every state the config view reaches from [newConfigModel],
    space on a provider row flips the flag the view holds, whatever
    happens on disk.  Disabling leaves the world as it is: nothing is
    removed, and detection reports what it reported before.  Enabling
    calls [os.MkdirAll] and drops its error: the view then shows the
    provider configured, and detection agrees exactly when
    [os.MkdirAll] succeeded. *)
Theorem toggle_provider_flag_only (ti : TI) (w0 : World) (msgs : list tui.Msg)
    (m : tui.configModel.t TI) (w : World) :
  runConfig msgs (tui.newConfigModel ti w0) w0 = Some (m, w) ->
  tui.configModel.addingRepo m = false ->
  tui.configModel.section m = 2%Z ->
  exists p m' w' p' q,
    tui.at_int (tui.configModel.providers m) (tui.configModel.selectedIdx m) = Some p /\
    tui.configUpdate (tui.KeyMsg " ") m w = Some (m', tui.ConfigNoCmd, w') /\
    tui.at_int (tui.configModel.providers m') (tui.configModel.selectedIdx m') = Some p' /\
    tui.Provider.Name p' = tui.Provider.Name p /\
    tui.Provider.Path p' = tui.Provider.Path p /\
    tui.Provider.Configured p' = negb (tui.Provider.Configured p) /\
    tui.at_int (tui.detectProviders w') (tui.configModel.selectedIdx m') = Some q /\
    tui.Provider.Name q = tui.Provider.Name p /\
    (tui.Provider.Configured p = true -> w' = w) /\
    (tui.Provider.Configured p = false ->
     w' = snd (os.MkdirAll (tui.Provider.Path p) mode_0755 w) /\
     (tui.Provider.Configured q = true <->
      fst (os.MkdirAll (tui.Provider.Path p) mode_0755 w) = None)).
Proof.
  intros Hrun Hadd Hsec.
  destruct (runConfig_rows msgs _ m w0 w Hrun (newConfigModel_rows ti w0)) as [Hrows Hcur].
  specialize (Hcur Hsec).
  assert (Hlen : length (tui.configModel.providers m) = 6%nat).
  { erewrite <- length_map, Hrows. done. }
  unfold tui.configUpdate, tui.toggleItem. cbv zeta.
  rewrite Hadd, Hsec. key_cases. cbn [Z.eqb Pos.eqb].
  set (idx := tui.configModel.selectedIdx m) in *.
  rewrite (proj2 (Z.ltb_lt idx _)) by lia.
  destruct (at_int_Some (tui.configModel.providers m) idx) as (p & Hat & _); [lia..|].
  rewrite Hat.
  assert (Hin : tui.configModel.providers m !! Z.to_nat idx = Some p).
  { unfold tui.at_int in Hat. by rewrite (proj2 (Z.ltb_ge idx 0)) in Hat by lia. }
  assert (Hpd : tui.providerDefs (HOME w) !! Z.to_nat idx
                = Some (tui.Provider.Name p, tui.Provider.Path p)).
  { rewrite <- Hrows, map_fmap, list_lookup_fmap, Hin. done. }
  assert (Hq : forall w', HOME w' = HOME w ->
            exists q, tui.at_int (tui.detectProviders w') idx = Some q /\
                      tui.Provider.Name q = tui.Provider.Name p /\
                      (tui.Provider.Configured q = true <->
                       exists mode es, fs w' !! tui.Provider.Path p = Some (PDir mode es))).
  { intros w' Hhome.
    destruct (at_int_Some (tui.detectProviders w') idx) as (q & Hq & _);
      [lia|rewrite length_detectProviders; lia|].
    exists q. split; [done|].
    unfold tui.at_int in Hq. rewrite (proj2 (Z.ltb_ge idx 0)) in Hq by lia.
    destruct (detectProviders_lookup w' _ q Hq) as (pd' & Hpd' & Hn & _ & Hconf').
    rewrite Hhome, Hpd in Hpd'. injection Hpd' as <-. done. }
  assert (Hnew : forall c, tui.at_int
            (<[Z.to_nat idx := tui.Provider.mk (tui.Provider.Name p) (tui.Provider.Path p) c
                                 (tui.Provider.SkillCount p) (tui.Provider.Synced p)]>
               (tui.configModel.providers m)) idx
            = Some (tui.Provider.mk (tui.Provider.Name p) (tui.Provider.Path p) c
                      (tui.Provider.SkillCount p) (tui.Provider.Synced p))).
  { intros c. unfold tui.at_int. rewrite (proj2 (Z.ltb_ge idx 0)) by lia.
    apply list_lookup_insert_eq. lia. }
  exists p. destruct (tui.Provider.Configured p) eqn:Hc.
  - destruct (Hq w eq_refl) as (q & Hq1 & Hq2 & _).
    eexists _, _, _, q. split; [done|]. split; [done|]. cfg_simpl. fold idx.
    split; [apply Hnew|]. repeat split; try done.
  - destruct (MkdirAll_frame (tui.Provider.Path p) mode_0755 w) as (Hhome & _).
    destruct (Hq _ Hhome) as (q & Hq1 & Hq2 & Hq3).
    eexists _, _, _, q. split; [done|]. split; [done|]. cfg_simpl. fold idx.
    split; [apply Hnew|]. split; [done|]. split; [done|]. split; [done|].
    split; [done|]. split; [done|]. split; [done|]. intros _. split; [done|].
    rewrite Hq3. unfold os.MkdirAll.
    destruct (fs w !! tui.Provider.Path p) as [[mode es|mode c]|] eqn:E.
    + cbn [fst snd]. rewrite E. split; [done|eauto].
    + cbn [fst snd]. rewrite E. split; [by intros (? & ? & ?)|done].
    + destruct (decide (tui.Provider.Path p ∈ frozen w)); cbn [fst snd].
      * rewrite E. split; [by intros (? & ? & ?)|done].
      * cbn [fs set_fs]. rewrite lookup_insert_eq. split; [done|eauto].
Qed.

End ConfigView.

Lemma config_view_never_panics_witness :
  exists m' w',
    runConfig [tui.KeyMsg "tab"; tui.KeyMsg "d"; tui.KeyMsg "d"; tui.KeyMsg "d";
               tui.KeyMsg "d"; tui.KeyMsg "a"; tui.KeyMsg "o"; tui.KeyMsg "/";
               tui.KeyMsg "r"; tui.KeyMsg "enter"; tui.KeyMsg "tab"; tui.KeyMsg " "]
              (tui.newConfigModel EmptyString fresh_world) fresh_world
    = Some (m', w') /\ configCursorOk m'.
Proof.
  apply (config_view_never_panics EmptyString fresh_world
           [tui.KeyMsg "tab"; tui.KeyMsg "d"; tui.KeyMsg "d"; tui.KeyMsg "d";
            tui.KeyMsg "d"; tui.KeyMsg "a"; tui.KeyMsg "o"; tui.KeyMsg "/";
            tui.KeyMsg "r"; tui.KeyMsg "enter"; tui.KeyMsg "tab"; tui.KeyMsg " "]).
  reflexivity.
Defined.

Lemma add_repo_parses_witness :
  exists m',
    tui.configUpdate (tui.KeyMsg "enter") typing_example fresh_world
    = Some (m', tui.ConfigNoCmd, fresh_world) /\
    tui.configModel.addingRepo m' = false.
Proof.
  destruct (add_repo_parses typing_example fresh_world) as (m' & H1 & H2 & _).
  - reflexivity.
  - exists m'. exact (conj H1 H2).
Defined.

Lemma delete_repo_under_cursor_witness :
  exists m',
    tui.configUpdate (tui.KeyMsg "d") repos_example fresh_world
    = Some (m', tui.ConfigNoCmd, fresh_world) /\
    tui.configModel.repos m' = delete 2%nat (tui.configModel.repos repos_example).
Proof.
  destruct (delete_repo_under_cursor repos_example fresh_world) as (m' & H1 & H2 & _).
  - reflexivity.
  - reflexivity.
  - vm_compute. split; [discriminate|reflexivity].
  - exists m'. exact (conj H1 H2).
Defined.

Lemma toggle_provider_flag_only_witness :
  exists m w p m',
    runConfig [tui.KeyMsg "tab"; tui.KeyMsg "tab"; tui.KeyMsg "down"; tui.KeyMsg " "]
              (tui.newConfigModel EmptyString blocked_world) blocked_world
    = Some (m, w) /\
    tui.at_int (tui.configModel.providers m) (tui.configModel.selectedIdx m) = Some p /\
    tui.Provider.Configured p = true /\
    tui.configUpdate (tui.KeyMsg " ") m w = Some (m', tui.ConfigNoCmd, w).
Proof.
  eexists _, _.
  destruct (toggle_provider_flag_only EmptyString blocked_world
              [tui.KeyMsg "tab"; tui.KeyMsg "tab"; tui.KeyMsg "down"; tui.KeyMsg " "]
              _ _ eq_refl eq_refl eq_refl)
    as (p & m' & w' & p' & q & H1 & H2 & _ & _ & _ & _ & _ & _ & H3 & _).
  exists p, m'.
  assert (Hp : tui.Provider.Configured p = true).
  { vm_compute in H1. injection H1 as <-. reflexivity. }
  split; [reflexivity|]. split; [exact H1|]. split; [exact Hp|].
  rewrite <- (H3 Hp) at 2. exact H2.
Defined.
